(** * BadgerDB buffer manager (src/buffer.cpp): model and properties

    The buffer manager keeps [numBufs] page frames, a descriptor per frame,
    a page table from (file, page number) to frame number, and a clock hand.
    Every member function of [BufMgr] is written here as a function from the
    manager's state to a [Run]: the state it leaves, the calls it made on the
    file collaborator, and how it ended (returned or threw).  A C++
    exception leaves every mutation made before the [throw] in place, so the
    state is part of the result also on the exceptional path. *)

From stdpp Require Import gmap list fin_maps.

Local Open Scope Z_scope.

(** ** Scalar types *)

(** [File*] is an address, [NULL] is address 0.  [PageId] and [FrameId] are
    unsigned 32-bit numbers. *)
Abbreviation File := Z.
Abbreviation PageId := Z.
Abbreviation FrameId := Z.

Definition NULL : File := 0.

(** Arithmetic on [std::uint32_t] wraps around. *)
Definition u32 (z : Z) : Z := z mod 2 ^ 32.

(** The cast [(int) numBufs] of an unsigned 32-bit value. *)
Definition to_int (z : Z) : Z :=
  if u32 z <? 2 ^ 31 then u32 z else u32 z - 2 ^ 32.

(** ** Pages and the file collaborator *)

(** A page is opaque to the manager: only its number and its bytes matter. *)
Record Page := mkPage { page_number : PageId; page_data : list Byte.byte }.

(** Modelled from the spec: the value of a default-constructed [Page]
    ([new Page[bufs]]); the class is declared outside buffer.cpp. *)
Definition emptyPage : Page := mkPage 0 [].

Global Instance Page_inhabited : Inhabited Page := populate emptyPage.

(** The calls the manager makes on a file.  What the file answers is an
    input of the operation that makes the call. *)
Inductive FileCall :=
| allocatePage_call (f : File) (answer : Page)
| readPage_call (f : File) (pageNo : PageId)
| writePage_call (f : File) (p : Page)
| deletePage_call (f : File) (pageNo : PageId).

(** ** Frame descriptors *)

(** [pinCnt] is a signed [int]; its overflow is undefined in C++ and is not
    modelled: the count is an integer. *)
Record BufDesc := mkBufDesc {
  file : File;
  pageNo : PageId;
  frameNo : FrameId;
  pinCnt : Z;
  dirty : bool;
  valid : bool;
  refbit : bool
}.

(** Modelled from the spec: [BufDesc::Clear] is defined in buffer.h, which is
    not part of the sources at hand.  The spec: it resets a descriptor to the
    invalid state, [valid = false], [pinCnt = 0], [dirty = false],
    [refbit = false], [file] none; [frameNo] is immutable.  The spec does
    not say what becomes of [pageNo], which is kept. *)
Definition Clear (d : BufDesc) : BufDesc :=
  {| file := NULL; pageNo := pageNo d; frameNo := frameNo d; pinCnt := 0;
     dirty := false; valid := false; refbit := false |}.

(** Modelled from the spec: [BufDesc::Set] is defined in buffer.h as well.
    The spec: it makes the descriptor valid with [pinCnt = 1],
    [dirty = false], [refbit = true] and the given identity. *)
Definition Set_ (d : BufDesc) (f : File) (p : PageId) : BufDesc :=
  {| file := f; pageNo := p; frameNo := frameNo d; pinCnt := 1;
     dirty := false; valid := true; refbit := true |}.

Definition with_refbit (d : BufDesc) (b : bool) : BufDesc :=
  {| file := file d; pageNo := pageNo d; frameNo := frameNo d;
     pinCnt := pinCnt d; dirty := dirty d; valid := valid d; refbit := b |}.

Definition with_pinCnt (d : BufDesc) (c : Z) : BufDesc :=
  {| file := file d; pageNo := pageNo d; frameNo := frameNo d;
     pinCnt := c; dirty := dirty d; valid := valid d; refbit := refbit d |}.

Definition with_dirty (d : BufDesc) (b : bool) : BufDesc :=
  {| file := file d; pageNo := pageNo d; frameNo := frameNo d;
     pinCnt := pinCnt d; dirty := b; valid := valid d; refbit := refbit d |}.

(** Modelled from the spec: the descriptor the constructor leaves in slot
    [i]: the invalid state, with [frameNo = i]. *)
Definition freshDesc (i : FrameId) : BufDesc :=
  {| file := NULL; pageNo := 0; frameNo := i; pinCnt := 0;
     dirty := false; valid := false; refbit := false |}.

Global Instance BufDesc_inhabited : Inhabited BufDesc := populate (freshDesc 0).

(** ** The manager *)

(** Modelled from the spec: the page table ([BufHashTbl], defined outside
    buffer.cpp) is a finite map keyed by (file, page number); [lookup]
    answers a frame or not-found, [insert] adds a mapping and [remove] takes
    one away.  The spec leaves [insert] of a present key and [remove] of an
    absent key to the caller to avoid. *)
Record BufMgr := mkBufMgr {
  numBufs : Z;
  bufDescTable : list BufDesc;
  bufPool : list Page;
  hashTable : gmap (Z * Z) Z;
  clockHand : FrameId
}.

(** [bufDescTable[i]] and [bufPool[i]].  An index outside the array is
    undefined behaviour in C++; the model reads a default there and writes
    nothing, and the theorems assume [well_formed]. *)
Definition desc (m : BufMgr) (i : FrameId) : BufDesc :=
  bufDescTable m !!! Z.to_nat i.

Definition slot (m : BufMgr) (i : FrameId) : Page :=
  bufPool m !!! Z.to_nat i.

Definition set_desc (m : BufMgr) (i : FrameId) (d : BufDesc) : BufMgr :=
  {| numBufs := numBufs m;
     bufDescTable := <[Z.to_nat i := d]> (bufDescTable m);
     bufPool := bufPool m;
     hashTable := hashTable m;
     clockHand := clockHand m |}.

Definition set_slot (m : BufMgr) (i : FrameId) (p : Page) : BufMgr :=
  {| numBufs := numBufs m;
     bufDescTable := bufDescTable m;
     bufPool := <[Z.to_nat i := p]> (bufPool m);
     hashTable := hashTable m;
     clockHand := clockHand m |}.

Definition set_hashTable (m : BufMgr) (h : gmap (Z * Z) Z) : BufMgr :=
  {| numBufs := numBufs m;
     bufDescTable := bufDescTable m;
     bufPool := bufPool m;
     hashTable := h;
     clockHand := clockHand m |}.

Definition set_clockHand (m : BufMgr) (h : FrameId) : BufMgr :=
  {| numBufs := numBufs m;
     bufDescTable := bufDescTable m;
     bufPool := bufPool m;
     hashTable := hashTable m;
     clockHand := h |}.

(** [BufMgr::BufMgr(bufs)]: every descriptor invalid and numbered, an empty
    page table, the hand on the last frame. *)
Definition BufMgr_new (bufs : Z) : BufMgr :=
  {| numBufs := bufs;
     bufDescTable := freshDesc <$> seqZ 0 bufs;
     bufPool := replicate (Z.to_nat bufs) emptyPage;
     hashTable := ∅;
     clockHand := u32 (bufs - 1) |}.

(** ** Results of a member function *)

Inductive Exn :=
| BufferExceededException
| PageNotPinnedException (pageNo : PageId) (frameNo : FrameId)
| PagePinnedException (pageNo : PageId) (frameNo : FrameId)
| BadBufferException (frameNo : FrameId) (dirty valid refbit : bool).

(** [Unfinished] is the answer of a loop whose iteration budget ran out. *)
Inductive Outcome (A : Type) :=
| Returned (a : A)
| Thrown (e : Exn)
| Unfinished.

Arguments Returned {A} a.
Arguments Thrown {A} e.
Arguments Unfinished {A}.

Record Run (A : Type) := mkRun {
  final : BufMgr;
  calls : list FileCall;
  outcome : Outcome A
}.

Arguments mkRun {A} final calls outcome.
Arguments final {A} r.
Arguments calls {A} r.
Arguments outcome {A} r.

(** ** advanceClock and allocBuf *)

(** [clockHand++; clockHand %= numBufs;] *)
Definition advanceClock (m : BufMgr) : BufMgr :=
  set_clockHand m (u32 (clockHand m + 1) mod numBufs m).

(** How one pass through the body of the [do ... while (true)] ends. *)
Inductive Verdict :=
| Break
| Continue (pinnedCnt : Z)
| Throw.

(** One iteration of the loop of [allocBuf], lines 64-87. *)
Definition sweepStep (m : BufMgr) (pinnedCnt : Z) : BufMgr * Verdict :=
  let m1 := advanceClock m in
  let d := desc m1 (clockHand m1) in
  if negb (valid d) then (m1, Break)
  else if refbit d then
    (set_desc m1 (clockHand m1) (with_refbit d false), Continue pinnedCnt)
  else if negb (pinCnt d =? 0) then
    let c := u32 (pinnedCnt + 1) in
    if c =? numBufs m1 then (m1, Throw) else (m1, Continue c)
  else (m1, Break).

(** The loop, with a budget of iterations. *)
Fixpoint sweep (fuel : nat) (m : BufMgr) (pinnedCnt : Z) : BufMgr * Outcome unit :=
  match fuel with
  | O => (m, Unfinished)
  | S fuel' =>
      match sweepStep m pinnedCnt with
      | (m', Break) => (m', Returned tt)
      | (m', Throw) => (m', Thrown BufferExceededException)
      | (m', Continue c) => sweep fuel' m' c
      end
  end.

(** Lines 91-103 of [allocBuf]: the frame under the hand is taken. *)
Definition evict (m : BufMgr) : Run FrameId :=
  let h := clockHand m in
  let d := desc m h in
  let wb := if valid d && dirty d then [writePage_call (file d) (slot m h)] else [] in
  let ht := if valid d then delete (file d, pageNo d) (hashTable m) else hashTable m in
  mkRun (set_desc (set_hashTable m ht) h (Clear d)) wb (Returned h).

(** Iterations that always suffice for the loop (see [sweep_finishes]). *)
Definition sweepFuel (m : BufMgr) : nat := Z.to_nat (2 * numBufs m).

Definition allocBuf (m : BufMgr) : Run FrameId :=
  match sweep (sweepFuel m) m 0 with
  | (m1, Returned _) => evict m1
  | (m1, Thrown e) => mkRun m1 [] (Thrown e)
  | (m1, Unfinished) => mkRun m1 [] Unfinished
  end.

(** ** readPage, unPinPage, allocPage, disposePage, flushFile *)

(** [readPage(file, pageNo, page)]; [answer] is what [file->readPage(pageNo)]
    returns when it is called.  The result is the frame whose pool slot
    [page] points to. *)
Definition readPage (f : File) (p : PageId) (answer : Page) (m : BufMgr) : Run FrameId :=
  match hashTable m !! (f, p) with
  | Some targetFrame =>
      let d := desc m targetFrame in
      let d1 := with_refbit d true in
      let d2 := with_pinCnt d1 (pinCnt d1 + 1) in
      mkRun (set_desc m targetFrame d2) [] (Returned targetFrame)
  | None =>
      let r := allocBuf m in
      match outcome r with
      | Returned frameNo =>
          let m1 := set_slot (final r) frameNo answer in
          let m2 := set_hashTable m1 (<[(f, p) := frameNo]> (hashTable m1)) in
          let m3 := set_desc m2 frameNo (Set_ (desc m2 frameNo) f p) in
          mkRun m3 (calls r ++ [readPage_call f p]) (Returned frameNo)
      | Thrown e => mkRun (final r) (calls r) (Thrown e)
      | Unfinished => mkRun (final r) (calls r) Unfinished
      end
  end.

(** [unPinPage(file, pageNo, dirty)] *)
Definition unPinPage (f : File) (p : PageId) (isDirty : bool) (m : BufMgr) : Run unit :=
  match hashTable m !! (f, p) with
  | Some targetFrame =>
      let d := desc m targetFrame in
      if pinCnt d =? 0 then mkRun m [] (Thrown (PageNotPinnedException p targetFrame))
      else
        let d1 := with_pinCnt d (pinCnt d - 1) in
        let d2 := if isDirty then with_dirty d1 true else d1 in
        mkRun (set_desc m targetFrame d2) [] (Returned tt)
  | None => mkRun m [] (Returned tt)
  end.

(** [allocPage(file, pageNo, page)]; [newPage] is what [file->allocatePage()]
    returns.  The result is the new page number and the frame. *)
Definition allocPage (f : File) (newPage : Page) (m : BufMgr) : Run (PageId * FrameId) :=
  let newPageNo := page_number newPage in
  let r := allocBuf m in
  let io := allocatePage_call f newPage :: calls r in
  match outcome r with
  | Returned frameNo =>
      let m1 := set_slot (final r) frameNo newPage in
      let m2 := set_hashTable m1 (<[(f, newPageNo) := frameNo]> (hashTable m1)) in
      let m3 := set_desc m2 frameNo (Set_ (desc m2 frameNo) f newPageNo) in
      mkRun m3 io (Returned (newPageNo, frameNo))
  | Thrown e => mkRun (final r) io (Thrown e)
  | Unfinished => mkRun (final r) io Unfinished
  end.

(** [disposePage(file, PageNo)] *)
Definition disposePage (f : File) (p : PageId) (m : BufMgr) : Run unit :=
  let m' :=
    match hashTable m !! (f, p) with
    | Some frameNo =>
        let m1 := set_desc m frameNo (Clear (desc m frameNo)) in
        set_hashTable m1 (delete (f, p) (hashTable m1))
    | None => m
    end in
  mkRun m' [deletePage_call f p] (Returned tt).

(** The body of the [for] loop of [flushFile] for frame [i], lines 185-198. *)
Definition flushFrame (f : File) (i : Z) (m : BufMgr) : Run unit :=
  let d := desc m i in
  if file d =? f then
    if negb (pinCnt d =? 0) then mkRun m [] (Thrown (PagePinnedException (pageNo d) i))
    else if negb (valid d) then
      mkRun m [] (Thrown (BadBufferException i (dirty d) (valid d) (refbit d)))
    else
      let wb := if dirty d then [writePage_call f (slot m i)] else [] in
      let m1 := set_hashTable m (delete (f, pageNo d) (hashTable m)) in
      mkRun (set_desc m1 i (Clear (desc m1 i))) wb (Returned tt)
  else mkRun m [] (Returned tt).

(** [for (int i = ...; i < (int)numBufs; i++)], with [k] iterations left. *)
Fixpoint flushFrom (k : nat) (i : Z) (f : File) (m : BufMgr) : Run unit :=
  match k with
  | O => mkRun m [] (Returned tt)
  | S k' =>
      let r := flushFrame f i m in
      match outcome r with
      | Returned _ =>
          let r' := flushFrom k' (i + 1) f (final r) in
          mkRun (final r') (calls r ++ calls r') (outcome r')
      | _ => r
      end
  end.

Definition flushFile (f : File) (m : BufMgr) : Run unit :=
  flushFrom (Z.to_nat (to_int (numBufs m))) 0 f m.

(** ** The destructor and printSelf *)

(** [BufMgr::~BufMgr()], lines 41-47, with [k] iterations left: the calls
    made on files before the arrays are released.  Every valid dirty frame
    is written, pinned or not. *)
Fixpoint destroyFrom (k : nat) (i : Z) (m : BufMgr) : list FileCall :=
  match k with
  | O => []
  | S k' =>
      let d := desc m i in
      (if valid d && dirty d then [writePage_call (file d) (slot m i)] else [])
      ++ destroyFrom k' (i + 1) m
  end.

Definition BufMgr_destroy (m : BufMgr) : list FileCall :=
  destroyFrom (Z.to_nat (to_int (numBufs m))) 0 m.

(** [printSelf], lines 207-215: the loop that counts the valid frames, with
    [k] iterations left; the index is a [std::uint32_t].  The lines printed
    per descriptor come from [BufDesc::Print], which is outside buffer.cpp;
    the number printed as "Total Number of Valid Frames" is what is modelled. *)
Fixpoint countValidFrom (k : nat) (i : Z) (m : BufMgr) (validFrames : Z) : Z :=
  match k with
  | O => validFrames
  | S k' =>
      countValidFrom k' (u32 (i + 1)) m
        (if valid (desc m i) then validFrames + 1 else validFrames)
  end.

Definition printSelf_validFrames (m : BufMgr) : Z :=
  countValidFrom (Z.to_nat (numBufs m)) 0 m 0.

(** * Vocabulary of the properties *)

(** What the constructor establishes about the arrays and the hand, for a
    non-empty pool. *)
Record well_formed (m : BufMgr) : Prop := mkWf {
  wf_numBufs : 0 < numBufs m < 2 ^ 32;
  wf_descs : Z.of_nat (length (bufDescTable m)) = numBufs m;
  wf_pool : Z.of_nat (length (bufPool m)) = numBufs m;
  wf_hand : 0 <= clockHand m < numBufs m
}.

(** A descriptor with its reference bit forgotten. *)
Definition unref (d : BufDesc) : BufDesc := with_refbit d false.

(** The number of descriptors whose reference bit is set. *)
Fixpoint refCount (t : list BufDesc) : nat :=
  match t with
  | [] => O
  | d :: t' => ((if refbit d then 1 else 0) + refCount t')%nat
  end.

(** The hand after one advance, for a hand inside the pool. *)
Definition next (m : BufMgr) : FrameId := (clockHand m + 1) mod numBufs m.

(** Each [Continue] uses up a set reference bit or a unit of the distance
    between the counter and [numBufs]. *)
Definition sweepMeasure (m : BufMgr) (c : Z) : Z :=
  Z.of_nat (refCount (bufDescTable m)) + (numBufs m - c - 1).

(** The frame [a] advances ahead of the hand. *)
Definition ahead (m : BufMgr) (a : Z) : FrameId :=
  (clockHand m + a) mod numBufs m.

(** Every frame holds a page and is pinned. *)
Definition all_pinned (m : BufMgr) : Prop :=
  forall i, 0 <= i < numBufs m ->
    valid (desc m i) = true /\ pinCnt (desc m i) <> 0.

(** The manager after a sweep of [t] advances that cleared every reference
    bit and changed nothing else. *)
Definition swept (m : BufMgr) (t : Z) : BufMgr :=
  {| numBufs := numBufs m;
     bufDescTable := unref <$> bufDescTable m;
     bufPool := bufPool m;
     hashTable := hashTable m;
     clockHand := ahead m t |}.

(** Every valid frame is under its own identity in the page table, and every
    entry of the page table leads to a valid frame with the entry's key as
    its identity. *)
Record consistent (m : BufMgr) : Prop := mkConsistent {
  cons_frameNo : forall i, 0 <= i < numBufs m -> frameNo (desc m i) = i;
  cons_valid : forall i, 0 <= i < numBufs m -> valid (desc m i) = true ->
    hashTable m !! (file (desc m i), pageNo (desc m i)) = Some (frameNo (desc m i));
  cons_entry : forall f p i, hashTable m !! (f, p) = Some i ->
    0 <= i < numBufs m /\ valid (desc m i) = true /\
    file (desc m i) = f /\ pageNo (desc m i) = p
}.

(** No two distinct valid frames hold the same page. *)
Definition no_shared_page (m : BufMgr) : Prop :=
  forall i j, 0 <= i < numBufs m -> 0 <= j < numBufs m ->
    valid (desc m i) = true -> valid (desc m j) = true ->
    file (desc m i) = file (desc m j) -> pageNo (desc m i) = pageNo (desc m j) ->
    i = j.

(** The states a manager of [bufs] frames goes through: construction, then
    any of the five public member functions, whether they return or throw.
    The page a file hands out in [allocPage] is not one that is resident;
    this is the absence [insert] leaves to its caller. *)
Inductive reachable (bufs : Z) : BufMgr -> Prop :=
| reach_new : reachable bufs (BufMgr_new bufs)
| reach_readPage m f p answer :
    reachable bufs m -> reachable bufs (final (readPage f p answer m))
| reach_unPinPage m f p isDirty :
    reachable bufs m -> reachable bufs (final (unPinPage f p isDirty m))
| reach_allocPage m f newPage :
    reachable bufs m -> hashTable m !! (f, page_number newPage) = None ->
    reachable bufs (final (allocPage f newPage m))
| reach_disposePage m f p :
    reachable bufs m -> reachable bufs (final (disposePage f p m))
| reach_flushFile m f :
    reachable bufs m -> reachable bufs (final (flushFile f m)).

(** The sentence "a failed readPage leaves no trace": it throws
    [BufferExceeded] and the descriptors, the hand and the page table are as
    before the call. *)
Definition exceeded_without_trace (f : File) (p : PageId) (answer : Page)
    (m : BufMgr) : Prop :=
  let r := readPage f p answer m in
  outcome r = Thrown BufferExceededException /\
  bufDescTable (final r) = bufDescTable m /\
  clockHand (final r) = clockHand m /\
  hashTable (final r) = hashTable m.

(** ** Example runs on a pool of three frames *)

Definition fileF : File := 100.

Definition page (n : PageId) : Page := mkPage n [].

(** Pages 1, 2 and 3 are read into a new manager and stay pinned. *)
Definition pool_full : BufMgr :=
  final (readPage fileF 3 (page 3)
    (final (readPage fileF 2 (page 2)
      (final (readPage fileF 1 (page 1) (BufMgr_new 3)))))).

(** Then a read of page 4 fails and page 1 is read once more. *)
Definition pool_full_again : BufMgr :=
  final (readPage fileF 1 (page 1)
    (final (readPage fileF 4 (page 4) pool_full))).

(** ** Sequences of readPage and unPinPage *)

Inductive Request :=
| ReadPage (f : File) (p : PageId) (answer : Page)
| UnPinPage (f : File) (p : PageId) (isDirty : bool).

Definition serve (q : Request) (m : BufMgr) : BufMgr :=
  match q with
  | ReadPage f p answer => final (readPage f p answer m)
  | UnPinPage f p isDirty => final (unPinPage f p isDirty m)
  end.

Fixpoint serveAll (qs : list Request) (m : BufMgr) : BufMgr :=
  match qs with
  | [] => m
  | q :: qs' => serveAll qs' (serve q m)
  end.

(** The frame whose descriptor a request clears: the frame [allocBuf] hands
    to a readPage that misses.  Neither a hit nor unPinPage clears one. *)
Definition cleared (q : Request) (m : BufMgr) : option FrameId :=
  match q with
  | ReadPage f p _ =>
      match hashTable m !! (f, p) with
      | Some _ => None
      | None =>
          match outcome (allocBuf m) with
          | Returned fr => Some fr
          | _ => None
          end
      end
  | UnPinPage _ _ _ => None
  end.

(** No request of the sequence clears the descriptor of frame [t]. *)
Fixpoint neverCleared (t : FrameId) (qs : list Request) (m : BufMgr) : Prop :=
  match qs with
  | [] => True
  | q :: qs' => cleared q m <> Some t /\ neverCleared t qs' (serve q m)
  end.

(** ** The scan of flushFile *)

(** A frame of the file at which the scan stops: pinned, or not valid. *)
Definition blocks (f : File) (d : BufDesc) : bool :=
  (file d =? f) && (negb (pinCnt d =? 0) || negb (valid d)).

(** The exception thrown at such a frame. *)
Definition flushError (i : FrameId) (d : BufDesc) : Exn :=
  if negb (pinCnt d =? 0) then PagePinnedException (pageNo d) i
  else BadBufferException i (dirty d) (valid d) (refbit d).

(** The write owed for frame [j]: its pool slot, if the frame belongs to the
    file and is dirty. *)
Definition writeback (f : File) (m : BufMgr) (j : FrameId) : list FileCall :=
  if (file (desc m j) =? f) && dirty (desc m j)
  then [writePage_call f (slot m j)] else [].

(** The writes owed for frames [i], ..., [i + n - 1], in this order. *)
Fixpoint writebacks (f : File) (m : BufMgr) (i : FrameId) (n : nat) : list FileCall :=
  match n with
  | O => []
  | S n' => writeback f m i ++ writebacks f m (i + 1) n'
  end.

(** The state of frame [j] once the scan has flushed the frames of the file
    below [s]. *)
Definition flushedDesc (f : File) (m : BufMgr) (i s j : FrameId) : BufDesc :=
  if (i <=? j) && (j <? s) && (file (desc m j) =? f)
  then Clear (desc m j) else desc m j.

(** What a scan of [k] frames from frame [i] leaves when it has passed [n]
    of them: the frames passed did not block, those of the file are cleared
    and out of the page table, their dirty pages are written in frame
    order, and nothing else has changed; the scan is through, or the next
    frame blocks and its exception is the outcome. *)
Record scanned (f : File) (m : BufMgr) (i : FrameId) (k n : nat) (r : Run unit)
  : Prop := mkScanned {
  scan_passed : forall j, i <= j < i + Z.of_nat n -> blocks f (desc m j) = false;
  scan_calls : calls r = writebacks f m i n;
  scan_numBufs : numBufs (final r) = numBufs m;
  scan_pool : bufPool (final r) = bufPool m;
  scan_hand : clockHand (final r) = clockHand m;
  scan_desc : forall j, 0 <= j ->
    desc (final r) j = flushedDesc f m i (i + Z.of_nat n) j;
  scan_removed : forall j, i <= j < i + Z.of_nat n -> file (desc m j) = f ->
    hashTable (final r) !! (f, pageNo (desc m j)) = None;
  scan_absent : forall key, hashTable m !! key = None ->
    hashTable (final r) !! key = None;
  scan_kept : forall key,
    (forall j, i <= j < i + Z.of_nat n -> file (desc m j) = f ->
               key <> (f, pageNo (desc m j))) ->
    hashTable (final r) !! key = hashTable m !! key;
  scan_end :
    n = k /\ outcome r = Returned tt \/
    (n < k)%nat /\ blocks f (desc m (i + Z.of_nat n)) = true /\
    outcome r = Thrown (flushError (i + Z.of_nat n) (desc m (i + Z.of_nat n)))
}.

(** ** An example run on a pool of two frames *)

(** Pages 1 and 2 are read and pinned; a read of page 3 fails and leaves both
    reference bits clear; page 2 is unpinned, read and unpinned again, so
    that frame 0 is pinned with its reference bit clear and frame 1 is
    unpinned with its reference bit set. *)
Definition pool_of_two : BufMgr :=
  serveAll [ReadPage fileF 1 (page 1); ReadPage fileF 2 (page 2);
            ReadPage fileF 3 (page 3); UnPinPage fileF 2 false;
            ReadPage fileF 2 (page 2); UnPinPage fileF 2 false]
           (BufMgr_new 2).

(** ** Vocabulary of the further properties *)

(** A descriptor whose pin count lies between 0 and [top] and which, when it
    is not valid, is unpinned, clean, unreferenced and without a file. *)
Definition tidyDesc (top : Z) (d : BufDesc) : Prop :=
  0 <= pinCnt d <= top /\
  (valid d = false ->
   pinCnt d = 0 /\ dirty d = false /\ refbit d = false /\ file d = NULL).

(** The states of [reachable] on the way to which no readPage has pinned a
    resident page whose pin count was already [top], the largest value of
    the counter ([INT_MAX] for an [int] field).  There [pinCnt++] of line
    113 would overflow, which the language leaves undefined; short of it
    the unbounded [pinCnt] of the model is the counter of the code. *)
Inductive reachable_within (top bufs : Z) : BufMgr -> Prop :=
| within_new : reachable_within top bufs (BufMgr_new bufs)
| within_readPage m f p answer :
    reachable_within top bufs m ->
    (forall t, hashTable m !! (f, p) = Some t -> pinCnt (desc m t) < top) ->
    reachable_within top bufs (final (readPage f p answer m))
| within_unPinPage m f p isDirty :
    reachable_within top bufs m ->
    reachable_within top bufs (final (unPinPage f p isDirty m))
| within_allocPage m f newPage :
    reachable_within top bufs m ->
    hashTable m !! (f, page_number newPage) = None ->
    reachable_within top bufs (final (allocPage f newPage m))
| within_disposePage m f p :
    reachable_within top bufs m ->
    reachable_within top bufs (final (disposePage f p m))
| within_flushFile m f :
    reachable_within top bufs m ->
    reachable_within top bufs (final (flushFile f m)).

(** The largest value of a 32-bit [int]. *)
Definition INT_MAX : Z := 2 ^ 31 - 1.

(** A frame the sweep takes when it reaches it: empty, or unpinned with its
    reference bit clear. *)
Definition takable (d : BufDesc) : bool :=
  negb (valid d) || (negb (refbit d) && (pinCnt d =? 0)).

(** The (file, page number) of a descriptor. *)
Definition identity (d : BufDesc) : Z * Z := (file d, pageNo d).

(** The valid descriptors of a table. *)
Definition validDescs (t : list BufDesc) : list BufDesc :=
  filter (fun d => valid d = true) t.

(** Pages read one after the other: the run of each readPage. *)
Fixpoint readEach (reqs : list (Z * Z * Page)) (m : BufMgr) : list (Run FrameId) :=
  match reqs with
  | [] => []
  | (f, p, answer) :: rest =>
      let r := readPage f p answer m in
      r :: readEach rest (final r)
  end.

(** ** The public member functions as one type of operation *)

Inductive Operation :=
| OpReadPage (f : File) (p : PageId) (answer : Page)
| OpUnPinPage (f : File) (p : PageId) (isDirty : bool)
| OpAllocPage (f : File) (newPage : Page)
| OpDisposePage (f : File) (p : PageId)
| OpFlushFile (f : File).

(** The manager an operation leaves, and the calls it makes on files. *)
Definition after (o : Operation) (m : BufMgr) : BufMgr :=
  match o with
  | OpReadPage f p answer => final (readPage f p answer m)
  | OpUnPinPage f p isDirty => final (unPinPage f p isDirty m)
  | OpAllocPage f newPage => final (allocPage f newPage m)
  | OpDisposePage f p => final (disposePage f p m)
  | OpFlushFile f => final (flushFile f m)
  end.

Definition callsOf (o : Operation) (m : BufMgr) : list FileCall :=
  match o with
  | OpReadPage f p answer => calls (readPage f p answer m)
  | OpUnPinPage f p isDirty => calls (unPinPage f p isDirty m)
  | OpAllocPage f newPage => calls (allocPage f newPage m)
  | OpDisposePage f p => calls (disposePage f p m)
  | OpFlushFile f => calls (flushFile f m)
  end.

(** The page a file allocates is not one that is resident. *)
Definition admissible (o : Operation) (m : BufMgr) : Prop :=
  match o with
  | OpAllocPage f newPage => hashTable m !! (f, page_number newPage) = None
  | _ => True
  end.

(** unPinPage called [n] times on one page. *)
Fixpoint unPinTimes (n : nat) (f : File) (p : PageId) (isDirty : bool)
    (m : BufMgr) : BufMgr :=
  match n with
  | O => m
  | S n' => unPinTimes n' f p isDirty (final (unPinPage f p isDirty m))
  end.

(** ** The writes of the destructor *)

(** The writes owed for a table of descriptors and the pool slots beside
    them: one writePage for each descriptor that is valid and dirty, of the
    slot at the same index to the descriptor's file, in the order of the
    table. *)
Fixpoint dirtyWrites (t : list BufDesc) (pool : list Page) : list FileCall :=
  match t, pool with
  | d :: t', pg :: pool' =>
      (if valid d && dirty d then [writePage_call (file d) pg] else [])
      ++ dirtyWrites t' pool'
  | _, _ => []
  end.

(** ** The visits of the clock sweep *)

(** The descriptor the sweep of [allocBuf] finds at its [k]-th visit
    (counted from 1): that of the frame [k] advances ahead of the hand, as
    it was before the call, with its reference bit cleared if the frame has
    been visited before. *)
Definition seen (m : BufMgr) (k : Z) : BufDesc :=
  if k <=? numBufs m then desc m (ahead m k) else unref (desc m (ahead m k)).

(** A visit that moves [pinnedCnt]: a valid frame, reference bit clear,
    pin count not zero. *)
Definition counted (d : BufDesc) : bool :=
  valid d && negb (refbit d) && negb (pinCnt d =? 0).

(** The number of visits that move [pinnedCnt] among the first [k]. *)
Fixpoint countedVisits (m : BufMgr) (k : nat) : Z :=
  match k with
  | O => 0
  | S k' =>
      countedVisits m k' + (if counted (seen m (Z.of_nat (S k'))) then 1 else 0)
  end.

(** The loop of [allocBuf] after [k] visits, none of which took a frame. *)
Record sweeping (m : BufMgr) (k : nat) (m' : BufMgr) (c : Z) : Prop := mkSweeping {
  sw_wf : well_formed m';
  sw_numBufs : numBufs m' = numBufs m;
  sw_hand : clockHand m' = ahead m (Z.of_nat k);
  sw_count : c = countedVisits m k;
  sw_below : 0 <= c < numBufs m;
  sw_passed : forall j, 1 <= j <= Z.of_nat k -> takable (seen m j) = false;
  sw_visited : forall a, 1 <= a <= Z.of_nat k ->
    desc m' (ahead m a) = unref (desc m (ahead m a));
  sw_unvisited : forall i, 0 <= i < numBufs m ->
    (forall a, 1 <= a <= Z.of_nat k -> i <> ahead m a) ->
    desc m' i = desc m i
}.

(** * Properties *)

(** ** Well-formed managers *)

Lemma u32_small z : 0 <= z < 2 ^ 32 -> u32 z = z.
Proof. intros H. unfold u32. apply Z.mod_small. exact H. Qed.

Lemma desc_set_desc_eq m i d :
  0 <= i < Z.of_nat (length (bufDescTable m)) ->
  desc (set_desc m i d) i = d.
Proof.
  intros Hi. unfold desc, set_desc; simpl.
  apply list_lookup_total_insert_eq. lia.
Qed.

Lemma desc_set_desc_ne m i j d :
  0 <= i -> 0 <= j -> i <> j ->
  desc (set_desc m i d) j = desc m j.
Proof.
  intros Hi Hj Hne. unfold desc, set_desc; simpl.
  apply list_lookup_total_insert_ne. lia.
Qed.

Lemma desc_lookup m i :
  0 <= i < Z.of_nat (length (bufDescTable m)) ->
  bufDescTable m !! Z.to_nat i = Some (desc m i).
Proof.
  intros Hi. unfold desc. apply list_lookup_lookup_total_lt. lia.
Qed.

Lemma unref_idem d : unref (unref d) = unref d.
Proof. reflexivity. Qed.

Lemma unref_fixed d : refbit d = false -> unref d = d.
Proof. destruct d; simpl; intros ->; reflexivity. Qed.

(** Clearing the reference bit of one descriptor is invisible once all
    reference bits are forgotten. *)
Lemma unref_insert (t : list BufDesc) (i : nat) :
  unref <$> <[i := unref (t !!! i)]> t = unref <$> t.
Proof.
  rewrite list_fmap_insert. apply list_insert_id'.
  intros Hlt. rewrite list_lookup_fmap.
  rewrite length_fmap in Hlt.
  rewrite (list_lookup_lookup_total_lt t i Hlt). reflexivity.
Qed.

Lemma refCount_le (t : list BufDesc) : (refCount t <= length t)%nat.
Proof. induction t as [|d t IH]; simpl; [lia|]. destruct (refbit d); lia. Qed.

Lemma refCount_insert (t : list BufDesc) (i : nat) d :
  t !! i = Some d -> refbit d = true ->
  (refCount (<[i := unref d]> t) + 1 = refCount t)%nat.
Proof.
  revert i. induction t as [|x t IH]; intros i Hl Hr; [discriminate|].
  destruct i as [|i]; simpl in *.
  - injection Hl as ->. rewrite Hr. lia.
  - rewrite <- (IH i Hl Hr). lia.
Qed.

Lemma refCount_none (t : list BufDesc) :
  (forall i d, t !! i = Some d -> refbit d = false) ->
  refCount t = O /\ unref <$> t = t.
Proof.
  induction t as [|x t IH]; intros H; [split; reflexivity|].
  destruct IH as [IH1 IH2]; [intros i d Hd; exact (H (S i) d Hd)|].
  pose proof (H O x eq_refl) as Hx. split.
  - simpl. rewrite Hx, IH1. reflexivity.
  - rewrite fmap_cons, IH2, unref_fixed by exact Hx. reflexivity.
Qed.

(** ** The clock sweep *)

(** One iteration touches the hand and at most one reference bit. *)
Lemma sweepStep_frame m c m' v :
  sweepStep m c = (m', v) ->
  numBufs m' = numBufs m /\ bufPool m' = bufPool m /\
  hashTable m' = hashTable m /\
  unref <$> bufDescTable m' = unref <$> bufDescTable m /\
  clockHand m' = u32 (clockHand m + 1) mod numBufs m.
Proof.
  unfold sweepStep. intros H.
  destruct (negb (valid _)); [injection H as <- <-; auto|].
  destruct (refbit _).
  - injection H as <- <-. simpl. repeat split.
    unfold desc. simpl. apply unref_insert.
  - destruct (negb (pinCnt _ =? 0)); [|injection H as <- <-; auto].
    destruct (_ =? _); injection H as <- <-; auto.
Qed.

Lemma sweep_frame fuel : forall m c m' o,
  sweep fuel m c = (m', o) ->
  numBufs m' = numBufs m /\ bufPool m' = bufPool m /\
  hashTable m' = hashTable m /\
  unref <$> bufDescTable m' = unref <$> bufDescTable m.
Proof.
  induction fuel as [|fuel IH]; intros m c m' o H; simpl in H.
  - injection H as <- <-. auto.
  - destruct (sweepStep m c) as [m1 v] eqn:Hs.
    apply sweepStep_frame in Hs as (Hn & Hp & Hh & Ht & _).
    destruct v as [|c'|].
    + injection H as <- <-. auto.
    + apply IH in H as (Hn' & Hp' & Hh' & Ht').
      repeat split; congruence.
    + injection H as <- <-. auto.
Qed.

Lemma unref_table_desc m m' i :
  unref <$> bufDescTable m' = unref <$> bufDescTable m ->
  unref (desc m' i) = unref (desc m i).
Proof.
  intros H. unfold desc.
  pose proof (f_equal length H) as Hlen. rewrite !length_fmap in Hlen.
  destruct (decide (Z.to_nat i < length (bufDescTable m))%nat) as [Hlt|Hge].
  - rewrite <- !(list_lookup_total_fmap unref) by lia. rewrite H. reflexivity.
  - rewrite !list_lookup_total_alt, !lookup_ge_None_2 by lia. reflexivity.
Qed.

Lemma next_range m : well_formed m -> 0 <= next m < numBufs m.
Proof. intros [Hn _ _ _]. unfold next. apply Z.mod_pos_bound. lia. Qed.

(** [sweepStep] on a well-formed manager, without the 32-bit wrap-around. *)
Lemma sweepStep_eq m c :
  well_formed m -> 0 <= c < numBufs m ->
  sweepStep m c =
  let m1 := set_clockHand m (next m) in
  let d := desc m (next m) in
  if negb (valid d) then (m1, Break)
  else if refbit d then (set_desc m1 (next m) (unref d), Continue c)
  else if pinCnt d =? 0 then (m1, Break)
  else if c + 1 =? numBufs m then (m1, Throw)
  else (m1, Continue (c + 1)).
Proof.
  intros [Hn Hd Hp Hh] Hc. unfold sweepStep, advanceClock, next. simpl.
  rewrite (u32_small (clockHand m + 1)) by lia.
  rewrite (u32_small (c + 1)) by lia.
  change (desc (set_clockHand m ?h) ?i) with (desc m i).
  destruct (valid _); simpl; [|reflexivity].
  destruct (refbit _); [reflexivity|].
  destruct (pinCnt _ =? 0); reflexivity.
Qed.

Lemma set_clockHand_wf m h :
  well_formed m -> 0 <= h < numBufs m -> well_formed (set_clockHand m h).
Proof. intros [Hn Hd Hp Hh] H. split; simpl; assumption. Qed.

Lemma set_desc_wf m i d : well_formed m -> well_formed (set_desc m i d).
Proof.
  intros [Hn Hd Hp Hh]. split; simpl; try assumption.
  rewrite length_insert. assumption.
Qed.

Lemma set_hashTable_wf m h : well_formed m -> well_formed (set_hashTable m h).
Proof. intros [Hn Hd Hp Hh]. split; simpl; assumption. Qed.

Lemma set_slot_wf m i p : well_formed m -> well_formed (set_slot m i p).
Proof.
  intros [Hn Hd Hp Hh]. split; simpl; try assumption.
  rewrite length_insert. assumption.
Qed.

Create HintDb bufmgr.

#[local] Hint Resolve next_range set_clockHand_wf set_desc_wf
  set_hashTable_wf set_slot_wf : bufmgr.

Lemma sweepStep_wf m c m' v :
  well_formed m -> 0 <= c < numBufs m ->
  sweepStep m c = (m', v) -> well_formed m'.
Proof.
  intros Hwf Hc. rewrite (sweepStep_eq m c Hwf Hc). simpl.
  pose proof (set_clockHand_wf m (next m) Hwf (next_range m Hwf)) as Hwf1.
  destruct (negb _); [intros [= <- <-]; assumption|].
  destruct (refbit _); [intros [= <- <-]; apply set_desc_wf; assumption|].
  destruct (pinCnt _ =? 0); [intros [= <- <-]; assumption|].
  destruct (_ =? _); intros [= <- <-]; assumption.
Qed.

(** In a [Continue] the counter stays below [numBufs]. *)
Lemma sweepStep_continue m c m' c' :
  well_formed m -> 0 <= c < numBufs m ->
  sweepStep m c = (m', Continue c') -> 0 <= c' < numBufs m'.
Proof.
  intros Hwf Hc. rewrite (sweepStep_eq m c Hwf Hc). simpl.
  destruct (negb _); [discriminate|].
  destruct (refbit _); [intros [= <- <-]; simpl; lia|].
  destruct (pinCnt _ =? 0); [discriminate|].
  destruct (c + 1 =? numBufs m) eqn:E; [discriminate|].
  intros [= <- <-]. simpl. apply Z.eqb_neq in E. lia.
Qed.

Lemma sweepStep_measure m c m' c' :
  well_formed m -> 0 <= c < numBufs m ->
  sweepStep m c = (m', Continue c') ->
  sweepMeasure m' c' + 1 = sweepMeasure m c.
Proof.
  intros Hwf Hc. rewrite (sweepStep_eq m c Hwf Hc). simpl.
  pose proof (next_range m Hwf) as Hr. destruct Hwf as [Hn Hd Hp Hh].
  destruct (negb _); [discriminate|].
  destruct (refbit (desc m (next m))) eqn:Hb.
  - intros [= <- <-]. unfold sweepMeasure. simpl.
    pose proof (refCount_insert (bufDescTable m) (Z.to_nat (next m))
                  (desc m (next m))) as Hcnt.
    rewrite desc_lookup in Hcnt by lia.
    specialize (Hcnt eq_refl Hb). lia.
  - destruct (pinCnt _ =? 0); [discriminate|].
    destruct (c + 1 =? numBufs m); [discriminate|].
    intros [= <- <-]. unfold sweepMeasure. simpl. lia.
Qed.

Lemma sweep_finishes_gen fuel : forall m c,
  well_formed m -> 0 <= c < numBufs m ->
  sweepMeasure m c < Z.of_nat fuel ->
  (sweep fuel m c).2 <> Unfinished.
Proof.
  induction fuel as [|fuel IH]; intros m c Hwf Hc Hm.
  - unfold sweepMeasure in Hm. lia.
  - simpl. destruct (sweepStep m c) as [m' v] eqn:Hs.
    destruct v as [|c'|]; simpl; try discriminate.
    apply IH.
    + exact (sweepStep_wf _ _ _ _ Hwf Hc Hs).
    + exact (sweepStep_continue _ _ _ _ Hwf Hc Hs).
    + pose proof (sweepStep_measure _ _ _ _ Hwf Hc Hs). lia.
Qed.

(** A larger budget does not change the answer of a loop that finished. *)
Lemma sweep_fuel_mono fuel : forall m c fuel',
  (sweep fuel m c).2 <> Unfinished -> (fuel <= fuel')%nat ->
  sweep fuel' m c = sweep fuel m c.
Proof.
  induction fuel as [|fuel IH]; intros m c fuel' Hfin Hle.
  - simpl in Hfin. congruence.
  - destruct fuel' as [|fuel']; [lia|]. simpl in *.
    destruct (sweepStep m c) as [m' v]. destruct v as [|c'|]; try reflexivity.
    apply IH; [assumption|lia].
Qed.

Lemma sweep_wf fuel : forall m c m' o,
  well_formed m -> 0 <= c < numBufs m ->
  sweep fuel m c = (m', o) -> well_formed m'.
Proof.
  induction fuel as [|fuel IH]; intros m c m' o Hwf Hc H; simpl in H.
  - injection H as <- <-. assumption.
  - destruct (sweepStep m c) as [m1 v] eqn:Hs.
    pose proof (sweepStep_wf _ _ _ _ Hwf Hc Hs) as Hwf1.
    destruct v as [|c'|]; try (injection H as <- <-; assumption).
    eapply IH; [exact Hwf1| |exact H].
    exact (sweepStep_continue _ _ _ _ Hwf Hc Hs).
Qed.

Lemma sweepFuel_enough m :
  well_formed m -> sweepMeasure m 0 < Z.of_nat (sweepFuel m).
Proof.
  intros [Hn Hd Hp Hh]. unfold sweepMeasure, sweepFuel.
  pose proof (refCount_le (bufDescTable m)). lia.
Qed.

Lemma ahead_next m b :
  (next m + b) mod numBufs m = ahead m (b + 1).
Proof.
  unfold next, ahead. rewrite Zplus_mod_idemp_l. f_equal. lia.
Qed.

Lemma ahead_one m : ahead m 1 = next m.
Proof. reflexivity. Qed.

(** Every frame is reached within [numBufs] advances. *)
Lemma ahead_covers m i :
  well_formed m -> 0 <= i < numBufs m ->
  exists a, 1 <= a <= numBufs m /\ i = ahead m a.
Proof.
  intros [Hn Hd Hp Hh] Hi. unfold ahead.
  destruct (decide (clockHand m < i)) as [Hlt|Hge].
  - exists (i - clockHand m). split; [lia|].
    replace (clockHand m + (i - clockHand m)) with i by lia.
    symmetry. apply Z.mod_small. lia.
  - exists (i - clockHand m + numBufs m). split; [lia|].
    replace (clockHand m + (i - clockHand m + numBufs m))
      with (i + 1 * numBufs m) by lia.
    rewrite Z_mod_plus_full. symmetry. apply Z.mod_small. lia.
Qed.

Lemma unref_fields d d' :
  unref d = unref d' ->
  file d = file d' /\ pageNo d = pageNo d' /\ frameNo d = frameNo d' /\
  pinCnt d = pinCnt d' /\ dirty d = dirty d' /\ valid d = valid d'.
Proof.
  destruct d, d'. unfold unref, with_refbit. simpl.
  intros [= -> -> -> -> -> ->]. repeat split.
Qed.

Lemma all_pinned_unref m m' :
  numBufs m' = numBufs m ->
  unref <$> bufDescTable m' = unref <$> bufDescTable m ->
  all_pinned m -> all_pinned m'.
Proof.
  intros Hn Ht Hall i Hi. rewrite Hn in Hi.
  destruct (unref_fields _ _ (unref_table_desc m m' i Ht))
    as (_ & _ & _ & Hp & _ & Hv).
  rewrite Hp, Hv. apply Hall. assumption.
Qed.

(** When every frame is pinned the loop ends in [BufferExceeded] after
    [numBufs - c] counted visits and one visit for each set reference bit,
    provided the set reference bits lie within the next [j] frames and the
    counter cannot fill up before they are passed. *)
Lemma sweep_all_pinned fuel : forall m c j,
  well_formed m -> all_pinned m -> 0 <= c < numBufs m ->
  c + j <= numBufs m ->
  (forall i, 0 <= i < numBufs m -> refbit (desc m i) = true ->
             exists a, 1 <= a <= j /\ i = ahead m a) ->
  numBufs m - c + Z.of_nat (refCount (bufDescTable m)) <= Z.of_nat fuel ->
  sweep fuel m c =
  (swept m (numBufs m - c + Z.of_nat (refCount (bufDescTable m))),
   Thrown BufferExceededException).
Proof.
  induction fuel as [|fuel IH]; intros m c j Hwf Hall Hc Hj Hahead Hfuel;
    [lia|].
  pose proof (next_range m Hwf) as Hnext.
  destruct (Hall _ Hnext) as [Hv Hpin].
  simpl. rewrite (sweepStep_eq m c Hwf Hc). cbv zeta.
  rewrite Hv. simpl.
  destruct (refbit (desc m (next m))) eqn:Hb.
  - (* a reference bit is cleared *)
    set (m' := set_desc (set_clockHand m (next m)) (next m) (unref (desc m (next m)))).
    assert (Hwf' : well_formed m') by (unfold m'; auto with bufmgr).
    assert (Ht' : unref <$> bufDescTable m' = unref <$> bufDescTable m)
      by (apply unref_insert).
    assert (Hcnt : (refCount (bufDescTable m') + 1 = refCount (bufDescTable m))%nat).
    { apply refCount_insert; [|exact Hb].
      apply desc_lookup. destruct Hwf. lia. }
    rewrite (IH m' c (j - 1)); try assumption.
    + f_equal. unfold swept. rewrite Ht'.
      change (numBufs m') with (numBufs m).
      change (bufPool m') with (bufPool m).
      change (hashTable m') with (hashTable m).
      f_equal.
      change (ahead m' ?t) with ((next m + t) mod numBufs m).
      rewrite ahead_next. f_equal. lia.
    + exact (all_pinned_unref m m' eq_refl Ht' Hall).
    + destruct (Hahead _ Hnext Hb) as (a & Ha & _). simpl. lia.
    + intros i Hi Hbi. change (numBufs m') with (numBufs m) in Hi.
      destruct (decide (i = next m)) as [->|Hne].
      { unfold m' in Hbi. rewrite desc_set_desc_eq in Hbi; [discriminate|].
        simpl. destruct Hwf. lia. }
      unfold m' in Hbi. rewrite desc_set_desc_ne in Hbi by lia.
      destruct (Hahead i Hi Hbi) as (a & Ha & ->).
      exists (a - 1). split.
      * destruct (decide (a = 1)) as [->|]; [|lia].
        exfalso. apply Hne. reflexivity.
      * change (ahead m' ?t) with ((next m + t) mod numBufs m).
        rewrite ahead_next. f_equal. lia.
    + change (numBufs m') with (numBufs m). lia.
  - (* a pinned frame is counted *)
    apply Z.eqb_neq in Hpin. rewrite Hpin.
    destruct (c + 1 =? numBufs m) eqn:E.
    + apply Z.eqb_eq in E.
      destruct (refCount_none (bufDescTable m)) as [Hz Hid].
      { intros k d Hk. destruct (refbit d) eqn:Hbd; [|reflexivity].
        exfalso. pose proof (lookup_lt_Some _ _ _ Hk) as Hlt.
        assert (Hi : 0 <= Z.of_nat k < numBufs m) by (destruct Hwf; lia).
        assert (Hd : desc m (Z.of_nat k) = d).
        { unfold desc. rewrite Nat2Z.id.
          apply list_lookup_total_correct. exact Hk. }
        rewrite <- Hd in Hbd.
        destruct (Hahead _ Hi Hbd) as (a & Ha & Hia).
        assert (a = 1) by lia. subst a. rewrite ahead_one in Hia.
        rewrite Hia in Hbd. congruence. }
      f_equal. unfold swept. rewrite Hid, Hz. unfold set_clockHand.
      f_equal. rewrite <- ahead_one. f_equal. lia.
    + apply Z.eqb_neq in E.
      set (m' := set_clockHand m (next m)).
      rewrite (IH m' (c + 1) (j - 1)).
      * f_equal. unfold swept. simpl. f_equal.
        change (ahead m' ?t) with ((next m + t) mod numBufs m).
        rewrite ahead_next. f_equal. lia.
      * apply set_clockHand_wf; assumption.
      * exact Hall.
      * simpl. lia.
      * simpl. lia.
      * intros i Hi Hbi. change (numBufs m') with (numBufs m) in Hi.
        change (desc m' i) with (desc m i) in Hbi.
        destruct (Hahead i Hi Hbi) as (a & Ha & ->).
        exists (a - 1). split.
        -- destruct (decide (a = 1)) as [->|]; [|lia].
           rewrite ahead_one in Hbi. congruence.
        -- change (ahead m' ?t) with ((next m + t) mod numBufs m).
           rewrite ahead_next. f_equal. lia.
      * simpl. lia.
Qed.

(** An empty frame within reach stops the loop before the counter of
    pinned frames can fill up. *)
Lemma sweep_finds_invalid fuel : forall m c j,
  well_formed m -> 0 <= c -> 1 <= j -> c + j <= numBufs m ->
  valid (desc m (ahead m j)) = false ->
  j <= Z.of_nat fuel ->
  (sweep fuel m c).2 = Returned tt.
Proof.
  induction fuel as [|fuel IH]; intros m c j Hwf Hc Hj Hcj Hinv Hfuel; [lia|].
  assert (Hc' : 0 <= c < numBufs m) by lia.
  simpl. rewrite (sweepStep_eq m c Hwf Hc'). cbv zeta.
  destruct (valid (desc m (next m))) eqn:Hv; simpl; [|reflexivity].
  assert (Hj2 : 2 <= j).
  { destruct (decide (j = 1)) as [->|]; [|lia].
    rewrite ahead_one in Hinv. congruence. }
  destruct (refbit (desc m (next m))) eqn:Hb.
  - set (m' := set_desc (set_clockHand m (next m)) (next m) (unref (desc m (next m)))).
    apply (IH m' c (j - 1)); try lia.
    + unfold m'. auto with bufmgr.
    + simpl. lia.
    + change (ahead m' ?t) with ((next m + t) mod numBufs m).
      rewrite ahead_next. replace (j - 1 + 1) with j by lia.
      assert (Ht' : unref <$> bufDescTable m' = unref <$> bufDescTable m)
        by (apply unref_insert).
      destruct (unref_fields _ _ (unref_table_desc m m' (ahead m j) Ht'))
        as (_ & _ & _ & _ & _ & Hvv).
      rewrite Hvv. exact Hinv.
  - destruct (pinCnt (desc m (next m)) =? 0); [reflexivity|].
    destruct (c + 1 =? numBufs m) eqn:E; [apply Z.eqb_eq in E; lia|].
    set (m' := set_clockHand m (next m)).
    apply (IH m' (c + 1) (j - 1)); try (simpl; lia).
    + unfold m'. auto with bufmgr.
    + change (ahead m' ?t) with ((next m + t) mod numBufs m).
      rewrite ahead_next. replace (j - 1 + 1) with j by lia.
      exact Hinv.
Qed.

(** ** The page table and the valid frames agree *)

Lemma consistent_no_shared_page m : consistent m -> no_shared_page m.
Proof.
  intros [Hf Hv He] i j Hi Hj Hvi Hvj Hfile Hpage.
  pose proof (Hv i Hi Hvi) as H1. pose proof (Hv j Hj Hvj) as H2.
  rewrite Hfile, Hpage, H2 in H1. injection H1 as H1.
  rewrite (Hf i Hi), (Hf j Hj) in H1. congruence.
Qed.

(** Changes that leave the identity of every frame alone. *)
Lemma consistent_same_identity m m' :
  numBufs m' = numBufs m -> hashTable m' = hashTable m ->
  (forall i, 0 <= i < numBufs m ->
     file (desc m' i) = file (desc m i) /\ pageNo (desc m' i) = pageNo (desc m i) /\
     frameNo (desc m' i) = frameNo (desc m i) /\ valid (desc m' i) = valid (desc m i)) ->
  consistent m -> consistent m'.
Proof.
  intros Hn Hh Hsame [Hf Hv He]. split.
  - intros i Hi. rewrite Hn in Hi.
    destruct (Hsame i Hi) as (_ & _ & -> & _). auto.
  - intros i Hi. rewrite Hn in Hi.
    destruct (Hsame i Hi) as (-> & -> & -> & ->). rewrite Hh. auto.
  - intros f p i Hl. rewrite Hh in Hl. rewrite Hn.
    destruct (He f p i Hl) as (Hi & H).
    destruct (Hsame i Hi) as (-> & -> & _ & ->). auto.
Qed.

Lemma consistent_unref m m' :
  numBufs m' = numBufs m -> hashTable m' = hashTable m ->
  unref <$> bufDescTable m' = unref <$> bufDescTable m ->
  consistent m -> consistent m'.
Proof.
  intros Hn Hh Ht. apply consistent_same_identity; try assumption.
  intros i _.
  destruct (unref_fields _ _ (unref_table_desc m m' i Ht))
    as (? & ? & ? & _ & _ & ?). auto.
Qed.

(** Rewriting the pin count, dirty bit or reference bit of one frame. *)
Lemma consistent_touch m i d :
  well_formed m -> 0 <= i < numBufs m ->
  file d = file (desc m i) -> pageNo d = pageNo (desc m i) ->
  frameNo d = frameNo (desc m i) -> valid d = valid (desc m i) ->
  consistent m -> consistent (set_desc m i d).
Proof.
  intros Hwf Hi H1 H2 H3 H4. apply consistent_same_identity; try reflexivity.
  intros j Hj. destruct (decide (j = i)) as [->|Hne].
  - rewrite desc_set_desc_eq by (destruct Hwf; lia). auto.
  - rewrite desc_set_desc_ne by lia. auto.
Qed.

(** A frame is given up: its entry leaves the page table (when the frame
    was valid) and its descriptor is cleared. *)
Lemma consistent_release m i :
  well_formed m -> 0 <= i < numBufs m -> consistent m ->
  let d := desc m i in
  let ht := if valid d then delete (file d, pageNo d) (hashTable m)
            else hashTable m in
  consistent (set_desc (set_hashTable m ht) i (Clear d)).
Proof.
  intros Hwf Hi [Hf Hv He]. cbv zeta.
  set (ht := if valid (desc m i) then _ else _).
  assert (Hlen : 0 <= i < Z.of_nat (length (bufDescTable (set_hashTable m ht))))
    by (destruct Hwf; simpl; lia).
  split.
  - intros j Hj. destruct (decide (j = i)) as [->|Hne].
    + rewrite desc_set_desc_eq by exact Hlen. simpl. apply Hf. exact Hi.
    + rewrite desc_set_desc_ne by lia. apply Hf. exact Hj.
  - intros j Hj. destruct (decide (j = i)) as [->|Hne].
    + rewrite desc_set_desc_eq by exact Hlen. discriminate.
    + rewrite desc_set_desc_ne by lia.
      change (desc (set_hashTable m ht) j) with (desc m j).
      intros Hvj. simpl. pose proof (Hv j Hj Hvj) as Hlj.
      unfold ht. destruct (valid (desc m i)) eqn:Hvd; [|exact Hlj].
      rewrite lookup_delete_ne; [exact Hlj|].
      intros Heq. pose proof (Hv i Hi Hvd) as Hli.
      rewrite Heq, Hlj in Hli. injection Hli as Hli.
      rewrite (Hf i Hi), (Hf j Hj) in Hli. congruence.
  - intros f p j. simpl. intros Hl.
    assert (Hold : hashTable m !! (f, p) = Some j /\
                   (valid (desc m i) = true ->
                    (file (desc m i), pageNo (desc m i)) <> (f, p))).
    { unfold ht in Hl. destruct (valid (desc m i)).
      - apply lookup_delete_Some in Hl as [Hne Hl]. auto.
      - split; [exact Hl|discriminate]. }
    destruct Hold as [Hl' Hne].
    destruct (He f p j Hl') as (Hj & Hvj & Hfj & Hpj).
    assert (j <> i).
    { intros ->. apply (Hne Hvj). congruence. }
    rewrite desc_set_desc_ne by lia. auto.
Qed.

(** A page moves into an empty frame. *)
Lemma consistent_install m i f p pg :
  well_formed m -> 0 <= i < numBufs m -> consistent m ->
  valid (desc m i) = false -> hashTable m !! (f, p) = None ->
  let m1 := set_slot m i pg in
  let m2 := set_hashTable m1 (<[(f, p) := i]> (hashTable m1)) in
  consistent (set_desc m2 i (Set_ (desc m2 i) f p)).
Proof.
  intros Hwf Hi [Hf Hv He] Hinv Hnone m1 m2.
  assert (Hlen : 0 <= i < Z.of_nat (length (bufDescTable m2)))
    by (destruct Hwf; simpl; lia).
  change (desc m2 i) with (desc m i).
  split.
  - intros j Hj. destruct (decide (j = i)) as [->|Hne].
    + rewrite desc_set_desc_eq by exact Hlen. simpl. apply Hf. exact Hi.
    + rewrite desc_set_desc_ne by lia. apply Hf. exact Hj.
  - intros j Hj. destruct (decide (j = i)) as [->|Hne].
    + rewrite desc_set_desc_eq by exact Hlen. intros _. simpl.
      rewrite lookup_insert_eq. f_equal. symmetry. apply Hf. exact Hi.
    + rewrite desc_set_desc_ne by lia.
      change (desc m2 j) with (desc m j). intros Hvj. simpl.
      pose proof (Hv j Hj Hvj) as Hlj.
      rewrite lookup_insert_ne; [exact Hlj|].
      intros Heq. rewrite <- Heq in Hlj. congruence.
  - intros f' p' j. simpl. intros Hl.
    destruct (decide ((f, p) = (f', p'))) as [Heq|Hne].
    + rewrite Heq, lookup_insert_eq in Hl. injection Hl as <-.
      rewrite desc_set_desc_eq by exact Hlen. simpl.
      injection Heq as <- <-. auto.
    + rewrite lookup_insert_ne in Hl by exact Hne.
      destruct (He f' p' j Hl) as (Hj & Hvj & Hfj & Hpj).
      assert (j <> i) by (intros ->; congruence).
      rewrite desc_set_desc_ne by lia. auto.
Qed.

Lemma BufMgr_new_well_formed bufs :
  0 < bufs < 2 ^ 32 -> well_formed (BufMgr_new bufs).
Proof.
  intros H. split; simpl.
  - exact H.
  - rewrite length_fmap, length_seqZ. lia.
  - rewrite length_replicate. lia.
  - rewrite u32_small by lia. lia.
Qed.

Lemma BufMgr_new_desc bufs i :
  0 <= i < bufs -> desc (BufMgr_new bufs) i = freshDesc i.
Proof.
  intros Hi. unfold desc. simpl. apply list_lookup_total_correct.
  rewrite list_lookup_fmap, lookup_seqZ_lt by lia. simpl. f_equal. f_equal. lia.
Qed.

Lemma BufMgr_new_consistent bufs : consistent (BufMgr_new bufs).
Proof.
  split.
  - intros i Hi. simpl in Hi. rewrite BufMgr_new_desc by exact Hi. reflexivity.
  - intros i Hi. simpl in Hi. rewrite BufMgr_new_desc by exact Hi. discriminate.
  - intros f p i. simpl. rewrite lookup_empty. discriminate.
Qed.

(** ** allocBuf *)

Lemma sweep_thrown fuel : forall m c m' e,
  sweep fuel m c = (m', Thrown e) -> e = BufferExceededException.
Proof.
  induction fuel as [|fuel IH]; intros m c m' e H; simpl in H; [discriminate|].
  destruct (sweepStep m c) as [m1 v]. destruct v as [|c'|].
  - discriminate.
  - exact (IH _ _ _ _ H).
  - congruence.
Qed.

(** The loop of [allocBuf] ends within its budget, in a [break] or in
    [BufferExceeded], having changed the hand and reference bits only. *)
Lemma allocBuf_sweep m :
  well_formed m ->
  exists m1,
    well_formed m1 /\ numBufs m1 = numBufs m /\ bufPool m1 = bufPool m /\
    hashTable m1 = hashTable m /\
    unref <$> bufDescTable m1 = unref <$> bufDescTable m /\
    (sweep (sweepFuel m) m 0 = (m1, Returned tt) /\ allocBuf m = evict m1 \/
     sweep (sweepFuel m) m 0 = (m1, Thrown BufferExceededException) /\
     allocBuf m = mkRun m1 [] (Thrown BufferExceededException)).
Proof.
  intros Hwf.
  assert (Hc : 0 <= 0 < numBufs m) by (destruct Hwf; lia).
  pose proof (sweep_finishes_gen (sweepFuel m) m 0 Hwf Hc (sweepFuel_enough m Hwf))
    as Hfin.
  unfold allocBuf.
  destruct (sweep (sweepFuel m) m 0) as [m1 o] eqn:Hs.
  pose proof (sweep_wf _ _ _ _ _ Hwf Hc Hs) as Hwf1.
  pose proof (sweep_frame _ _ _ _ _ Hs) as (Hn & Hp & Hh & Ht).
  exists m1. repeat (split; [assumption|]).
  destruct o as [[]|e|]; simpl in Hfin; [left; auto| |congruence].
  right. rewrite (sweep_thrown _ _ _ _ _ Hs). auto.
Qed.

(** ** Every member function keeps the manager well-formed and consistent *)

Lemma evict_keeps m :
  well_formed m -> consistent m ->
  well_formed (final (evict m)) /\ consistent (final (evict m)) /\
  numBufs (final (evict m)) = numBufs m /\
  outcome (evict m) = Returned (clockHand m) /\
  valid (desc (final (evict m)) (clockHand m)) = false /\
  (forall k, hashTable m !! k = None -> hashTable (final (evict m)) !! k = None).
Proof.
  intros Hwf Hc. unfold evict. cbv zeta. simpl.
  pose proof (wf_hand m Hwf) as Hh.
  split; [auto with bufmgr|].
  split; [exact (consistent_release m (clockHand m) Hwf Hh Hc)|].
  split; [reflexivity|]. split; [reflexivity|]. split.
  - rewrite desc_set_desc_eq; [reflexivity|]. destruct Hwf. simpl. lia.
  - intros k Hk. destruct (valid _); [|exact Hk].
    apply lookup_delete_None. auto.
Qed.

Lemma allocBuf_keeps m :
  well_formed m -> consistent m ->
  well_formed (final (allocBuf m)) /\ consistent (final (allocBuf m)) /\
  numBufs (final (allocBuf m)) = numBufs m /\
  (forall k, hashTable m !! k = None ->
             hashTable (final (allocBuf m)) !! k = None) /\
  (forall fr, outcome (allocBuf m) = Returned fr ->
              0 <= fr < numBufs m /\
              valid (desc (final (allocBuf m)) fr) = false) /\
  outcome (allocBuf m) <> Unfinished.
Proof.
  intros Hwf Hc.
  destruct (allocBuf_sweep m Hwf) as (m1 & Hwf1 & Hn & Hp & Hh & Ht & Hcase).
  pose proof (consistent_unref m m1 Hn Hh Ht Hc) as Hc1.
  destruct Hcase as [[_ ->]|[_ ->]].
  - destruct (evict_keeps m1 Hwf1 Hc1) as (H1 & H2 & H3 & H4 & H5 & H6).
    split; [exact H1|]. split; [exact H2|]. split; [congruence|].
    split; [intros k Hk; apply H6; rewrite Hh; exact Hk|].
    split; [|rewrite H4; discriminate].
    intros fr Hfr. rewrite H4 in Hfr. injection Hfr as <-.
    split; [destruct Hwf1; lia|exact H5].
  - simpl. split; [exact Hwf1|]. split; [exact Hc1|]. split; [exact Hn|].
    split; [intros k Hk; rewrite Hh; exact Hk|].
    split; [discriminate|discriminate].
Qed.

Lemma readPage_keeps f p answer m :
  well_formed m -> consistent m ->
  well_formed (final (readPage f p answer m)) /\
  consistent (final (readPage f p answer m)).
Proof.
  intros Hwf Hc. unfold readPage.
  destruct (hashTable m !! (f, p)) as [t|] eqn:Hl; simpl.
  - destruct (cons_entry m Hc f p t Hl) as (Ht & _).
    split; [apply set_desc_wf; exact Hwf|].
    apply consistent_touch; auto.
  - destruct (allocBuf_keeps m Hwf Hc) as (Hwf1 & Hc1 & Hn & Hk & Hfr & Hfin).
    destruct (outcome (allocBuf m)) as [fr|e|]; simpl; auto.
    destruct (Hfr fr eq_refl) as [Hr Hv]. rewrite <- Hn in Hr. split.
    + apply set_desc_wf, set_hashTable_wf, set_slot_wf. exact Hwf1.
    + exact (consistent_install _ fr f p answer Hwf1 Hr Hc1 Hv (Hk _ Hl)).
Qed.

Lemma unPinPage_keeps f p isDirty m :
  well_formed m -> consistent m ->
  well_formed (final (unPinPage f p isDirty m)) /\
  consistent (final (unPinPage f p isDirty m)).
Proof.
  intros Hwf Hc. unfold unPinPage.
  destruct (hashTable m !! (f, p)) as [t|] eqn:Hl; simpl; auto.
  destruct (cons_entry m Hc f p t Hl) as (Ht & _).
  destruct (pinCnt _ =? 0); simpl; auto.
  split; [apply set_desc_wf; exact Hwf|].
  apply consistent_touch; auto; destruct isDirty; reflexivity.
Qed.

Lemma allocPage_keeps f newPage m :
  well_formed m -> consistent m ->
  hashTable m !! (f, page_number newPage) = None ->
  well_formed (final (allocPage f newPage m)) /\
  consistent (final (allocPage f newPage m)).
Proof.
  intros Hwf Hc Hl. unfold allocPage. cbv zeta.
  destruct (allocBuf_keeps m Hwf Hc) as (Hwf1 & Hc1 & Hn & Hk & Hfr & Hfin).
  destruct (outcome (allocBuf m)) as [fr|e|]; simpl; auto.
  destruct (Hfr fr eq_refl) as [Hr Hv]. rewrite <- Hn in Hr. split.
  - apply set_desc_wf, set_hashTable_wf, set_slot_wf. exact Hwf1.
  - exact (consistent_install _ fr f _ newPage Hwf1 Hr Hc1 Hv (Hk _ Hl)).
Qed.

Lemma disposePage_keeps f p m :
  well_formed m -> consistent m ->
  well_formed (final (disposePage f p m)) /\
  consistent (final (disposePage f p m)).
Proof.
  intros Hwf Hc. unfold disposePage. simpl.
  destruct (hashTable m !! (f, p)) as [i|] eqn:Hl; auto.
  destruct (cons_entry m Hc f p i Hl) as (Hi & Hv & Hf & Hp).
  split; [apply set_hashTable_wf, set_desc_wf; exact Hwf|].
  pose proof (consistent_release m i Hwf Hi Hc) as H. cbv zeta in H.
  rewrite Hv, Hf, Hp in H. exact H.
Qed.

Lemma flushFrame_keeps f i m :
  well_formed m -> consistent m -> 0 <= i < numBufs m ->
  well_formed (final (flushFrame f i m)) /\
  consistent (final (flushFrame f i m)) /\
  numBufs (final (flushFrame f i m)) = numBufs m.
Proof.
  intros Hwf Hc Hi. unfold flushFrame. cbv zeta.
  destruct (file (desc m i) =? f) eqn:Hf; simpl; auto.
  destruct (pinCnt _ =? 0); simpl; auto.
  destruct (valid (desc m i)) eqn:Hv; simpl; auto.
  apply Z.eqb_eq in Hf.
  split; [apply set_desc_wf, set_hashTable_wf; exact Hwf|].
  split; [|reflexivity].
  pose proof (consistent_release m i Hwf Hi Hc) as H. cbv zeta in H.
  rewrite Hv, Hf in H. exact H.
Qed.

Lemma flushFrom_keeps k : forall i f m,
  well_formed m -> consistent m -> 0 <= i -> i + Z.of_nat k <= numBufs m ->
  well_formed (final (flushFrom k i f m)) /\
  consistent (final (flushFrom k i f m)).
Proof.
  induction k as [|k IH]; intros i f m Hwf Hc Hi Hk; simpl; auto.
  destruct (flushFrame_keeps f i m Hwf Hc) as (Hwf1 & Hc1 & Hn); [lia|].
  destruct (outcome (flushFrame f i m)); auto.
  simpl. apply IH; auto; lia.
Qed.

Lemma to_int_bound n : 0 < n < 2 ^ 32 -> Z.of_nat (Z.to_nat (to_int n)) <= n.
Proof.
  intros H. unfold to_int. rewrite u32_small by lia.
  destruct (n <? 2 ^ 31); lia.
Qed.

Lemma flushFile_keeps f m :
  well_formed m -> consistent m ->
  well_formed (final (flushFile f m)) /\ consistent (final (flushFile f m)).
Proof.
  intros Hwf Hc. unfold flushFile. apply flushFrom_keeps; auto; [lia|].
  pose proof (to_int_bound (numBufs m) (wf_numBufs m Hwf)). lia.
Qed.

(** ** What allocBuf returns *)

Lemma swept_full_turn m t :
  swept m (numBufs m - 0 + t) = swept m t.
Proof.
  unfold swept, ahead. f_equal.
  replace (clockHand m + (numBufs m - 0 + t))
    with (clockHand m + t + 1 * numBufs m) by lia.
  apply Z_mod_plus_full.
Qed.

(** With every frame pinned [allocBuf] throws, having cleared every
    reference bit and moved the hand once for each bit that was set. *)
Lemma allocBuf_all_pinned m :
  well_formed m -> all_pinned m ->
  allocBuf m =
  mkRun (swept m (Z.of_nat (refCount (bufDescTable m)))) []
        (Thrown BufferExceededException).
Proof.
  intros Hwf Hall. unfold allocBuf.
  rewrite (sweep_all_pinned (sweepFuel m) m 0 (numBufs m)); try assumption.
  - rewrite swept_full_turn. reflexivity.
  - destruct Hwf. lia.
  - lia.
  - intros i Hi _. apply ahead_covers; assumption.
  - unfold sweepFuel. pose proof (refCount_le (bufDescTable m)).
    destruct Hwf. lia.
Qed.

(** With an empty frame in the pool [allocBuf] returns. *)
Lemma allocBuf_finds_invalid m i :
  well_formed m -> 0 <= i < numBufs m -> valid (desc m i) = false ->
  exists fr, outcome (allocBuf m) = Returned fr.
Proof.
  intros Hwf Hi Hv.
  destruct (ahead_covers m i Hwf Hi) as (j & Hj & ->).
  pose proof (sweep_finds_invalid (sweepFuel m) m 0 j Hwf) as H.
  unfold allocBuf. destruct (sweep (sweepFuel m) m 0) as [m1 o].
  simpl in H. rewrite H; [eexists; reflexivity|lia|lia|lia|exact Hv|].
  unfold sweepFuel. lia.
Qed.

(** The frame [allocBuf] returns is the one under the hand; its descriptor
    is cleared, the other descriptors keep all but their reference bit. *)
Lemma allocBuf_returned m fr :
  well_formed m -> outcome (allocBuf m) = Returned fr ->
  exists m1,
    well_formed m1 /\ numBufs m1 = numBufs m /\ bufPool m1 = bufPool m /\
    hashTable m1 = hashTable m /\
    unref <$> bufDescTable m1 = unref <$> bufDescTable m /\
    clockHand m1 = fr /\ 0 <= fr < numBufs m /\
    allocBuf m = evict m1.
Proof.
  intros Hwf Hout.
  destruct (allocBuf_sweep m Hwf) as (m1 & Hwf1 & Hn & Hp & Hh & Ht & Hcase).
  exists m1. destruct Hcase as [[_ He]|[_ He]]; rewrite He in Hout.
  - simpl in Hout. injection Hout as <-.
    repeat (split; [assumption|]). split; [reflexivity|].
    split; [destruct Hwf1; lia|exact He].
  - discriminate.
Qed.

Lemma Clear_unref d d' : unref d = unref d' -> Clear d = Clear d'.
Proof.
  intros H. destruct (unref_fields d d' H) as (_ & Hp & Hf & _).
  unfold Clear. rewrite Hp, Hf. reflexivity.
Qed.

Lemma allocBuf_wf m : well_formed m -> well_formed (final (allocBuf m)) /\
  numBufs (final (allocBuf m)) = numBufs m.
Proof.
  intros Hwf.
  destruct (allocBuf_sweep m Hwf) as (m1 & Hwf1 & Hn & Hp & Hh & Ht & Hcase).
  destruct Hcase as [[_ ->]|[_ ->]]; simpl; [|auto].
  split; [|exact Hn]. apply set_desc_wf, set_hashTable_wf. exact Hwf1.
Qed.


(** ** The example managers *)

Lemma reachable_well_formed bufs m :
  0 < bufs < 2 ^ 32 -> reachable bufs m -> well_formed m /\ consistent m.
Proof.
  intros Hb Hr. induction Hr as [|m f p a _ [Hw Hc]|m f p b _ [Hw Hc]
    |m f pg _ [Hw Hc] Hfresh|m f p _ [Hw Hc]|m f _ [Hw Hc]].
  - split; [apply BufMgr_new_well_formed; exact Hb|apply BufMgr_new_consistent].
  - apply readPage_keeps; assumption.
  - apply unPinPage_keeps; assumption.
  - apply allocPage_keeps; assumption.
  - apply disposePage_keeps; assumption.
  - apply flushFile_keeps; assumption.
Qed.

Lemma pool_full_reachable : reachable 3 pool_full.
Proof. unfold pool_full. do 3 apply reach_readPage. apply reach_new. Qed.

Lemma pool_full_again_reachable : reachable 3 pool_full_again.
Proof.
  unfold pool_full_again. do 2 apply reach_readPage. apply pool_full_reachable.
Qed.

Lemma three_frames : 0 < 3 < 2 ^ 32.
Proof. lia. Qed.

Lemma pool_full_well_formed : well_formed pool_full.
Proof. exact (proj1 (reachable_well_formed 3 _ three_frames pool_full_reachable)). Qed.

Lemma pool_full_consistent : consistent pool_full.
Proof. exact (proj2 (reachable_well_formed 3 _ three_frames pool_full_reachable)). Qed.

Lemma pool_full_again_well_formed : well_formed pool_full_again.
Proof.
  exact (proj1 (reachable_well_formed 3 _ three_frames pool_full_again_reachable)).
Qed.

Lemma three_cases (P : Z -> Prop) :
  P 0 -> P 1 -> P 2 -> forall i, 0 <= i < 3 -> P i.
Proof.
  intros H0 H1 H2 i Hi.
  assert (i = 0 \/ i = 1 \/ i = 2) as [->|[->| ->]] by lia; assumption.
Qed.

Lemma pool_full_all_pinned : all_pinned pool_full.
Proof.
  intros i Hi.
  assert (Hn : numBufs pool_full = 3) by (vm_compute; reflexivity).
  rewrite Hn in Hi. revert i Hi.
  apply (three_cases (fun i => valid (desc pool_full i) = true /\
                               pinCnt (desc pool_full i) <> 0));
    vm_compute; split; (reflexivity || discriminate).
Qed.

Lemma pool_full_again_all_pinned : all_pinned pool_full_again.
Proof.
  intros i Hi.
  assert (Hn : numBufs pool_full_again = 3) by (vm_compute; reflexivity).
  rewrite Hn in Hi. revert i Hi.
  apply (three_cases (fun i => valid (desc pool_full_again i) = true /\
                               pinCnt (desc pool_full_again i) <> 0));
    vm_compute; split; (reflexivity || discriminate).
Qed.

(** ** readPage on a miss *)

Lemma readPage_miss f p answer m fr :
  well_formed m -> hashTable m !! (f, p) = None ->
  outcome (allocBuf m) = Returned fr ->
  let a := allocBuf m in
  let r := readPage f p answer m in
  outcome r = Returned fr /\
  calls r = calls a ++ [readPage_call f p] /\
  slot (final r) fr = answer /\
  hashTable (final r) = <[(f, p) := fr]> (hashTable (final a)) /\
  desc (final r) fr = Set_ (desc (final a) fr) f p.
Proof.
  intros Hwf Hl Hfr. cbv zeta. unfold readPage. rewrite Hl, Hfr. simpl.
  destruct (allocBuf_returned m fr Hwf Hfr) as (m1 & _ & _ & _ & _ & _ & _ & Hr & _).
  destruct (allocBuf_wf m Hwf) as [[_ Hd Hp _] Hn].
  split; [reflexivity|]. split; [reflexivity|]. split.
  { unfold slot. simpl. apply list_lookup_total_insert_eq. lia. }
  split; [reflexivity|].
  rewrite desc_set_desc_eq by (simpl; lia). reflexivity.
Qed.

Lemma readPage_wf f p answer m :
  well_formed m -> well_formed (final (readPage f p answer m)).
Proof.
  intros Hwf. unfold readPage.
  destruct (hashTable m !! (f, p)); simpl; [apply set_desc_wf; exact Hwf|].
  destruct (allocBuf_wf m Hwf) as [Hwf1 _].
  destruct (outcome (allocBuf m)); simpl; auto with bufmgr.
Qed.

Lemma unPinPage_wf f p isDirty m :
  well_formed m -> well_formed (final (unPinPage f p isDirty m)).
Proof.
  intros Hwf. unfold unPinPage.
  destruct (hashTable m !! (f, p)); simpl; [|exact Hwf].
  destruct (pinCnt _ =? 0); simpl; [exact Hwf|].
  apply set_desc_wf. exact Hwf.
Qed.

Lemma serve_wf q m : well_formed m -> well_formed (serve q m).
Proof.
  destruct q; simpl; [apply readPage_wf|apply unPinPage_wf].
Qed.

Lemma serve_numBufs q m : well_formed m -> numBufs (serve q m) = numBufs m.
Proof.
  intros Hwf. destruct q as [f p a|f p b]; simpl.
  - unfold readPage. destruct (hashTable m !! (f, p)); [reflexivity|].
    destruct (allocBuf_wf m Hwf) as [_ Hn].
    destruct (outcome (allocBuf m)); simpl; exact Hn.
  - unfold unPinPage. destruct (hashTable m !! (f, p)); [|reflexivity].
    destruct (pinCnt _ =? 0); reflexivity.
Qed.

(** ** The dirty bit of a frame that is not cleared *)

Lemma set_desc_keeps_dirty m i d t :
  0 <= t < Z.of_nat (length (bufDescTable m)) ->
  (Z.to_nat i = Z.to_nat t -> dirty d = true) ->
  dirty (desc m t) = true ->
  dirty (desc (set_desc m i d) t) = true.
Proof.
  intros Ht Hd Hm. unfold desc, set_desc. simpl.
  destruct (decide (Z.to_nat i = Z.to_nat t)) as [Heq|Hne].
  - rewrite Heq, list_lookup_total_insert_eq by lia. auto.
  - rewrite list_lookup_total_insert_ne by exact Hne. exact Hm.
Qed.

Lemma desc_same_index m i t : Z.to_nat i = Z.to_nat t -> desc m i = desc m t.
Proof. intros H. unfold desc. rewrite H. reflexivity. Qed.

Lemma allocBuf_keeps_dirty m t :
  well_formed m -> 0 <= t < numBufs m -> dirty (desc m t) = true ->
  outcome (allocBuf m) <> Returned t ->
  dirty (desc (final (allocBuf m)) t) = true.
Proof.
  intros Hwf Ht Hd Hout.
  destruct (allocBuf_sweep m Hwf) as (m1 & Hwf1 & Hn & Hp & Hh & Htab & Hcase).
  destruct (unref_fields _ _ (unref_table_desc m m1 t Htab))
    as (_ & _ & _ & _ & Hdirty & _).
  destruct Hcase as [[_ He]|[_ He]]; rewrite He in *; simpl in *.
  - assert (clockHand m1 <> t) by congruence.
    rewrite desc_set_desc_ne by (destruct Hwf1; lia).
    change (desc (set_hashTable m1 ?h) t) with (desc m1 t). congruence.
  - congruence.
Qed.

Lemma serve_keeps_dirty q m t :
  well_formed m -> 0 <= t < numBufs m -> dirty (desc m t) = true ->
  cleared q m <> Some t ->
  dirty (desc (serve q m) t) = true.
Proof.
  intros Hwf Ht Hd Hcl.
  assert (Hlen : 0 <= t < Z.of_nat (length (bufDescTable m)))
    by (destruct Hwf; lia).
  destruct q as [f p a|f p b]; simpl in *.
  - unfold readPage. destruct (hashTable m !! (f, p)) as [t'|]; simpl.
    + apply set_desc_keeps_dirty; auto.
      intros Heq. simpl. rewrite (desc_same_index m t' t Heq). exact Hd.
    + assert (Hout : outcome (allocBuf m) <> Returned t).
      { intros Ho. rewrite Ho in Hcl. congruence. }
      pose proof (allocBuf_keeps_dirty m t Hwf Ht Hd Hout) as Hd1.
      destruct (allocBuf_wf m Hwf) as [Hwf1 Hn].
      destruct (outcome (allocBuf m)) as [fr|e|] eqn:Ho; simpl; try exact Hd1.
      destruct (allocBuf_returned m fr Hwf Ho) as (_ & _ & _ & _ & _ & _ & _ & Hfr & _).
      rewrite desc_set_desc_ne by (lia || congruence). exact Hd1.
  - unfold unPinPage. destruct (hashTable m !! (f, p)) as [t'|]; simpl; auto.
    destruct (pinCnt _ =? 0); simpl; auto.
    apply set_desc_keeps_dirty; auto.
    intros Heq. rewrite (desc_same_index m t' t Heq).
    destruct b; simpl; auto.
Qed.

(** ** The scan of flushFile *)

Lemma writebacks_ext f m m' n : forall i,
  (forall j, i <= j -> desc m' j = desc m j) -> bufPool m' = bufPool m ->
  writebacks f m' i n = writebacks f m i n.
Proof.
  induction n as [|n IH]; intros i Hd Hp; simpl; [reflexivity|].
  rewrite (IH (i + 1)) by (auto; intros j Hj; apply Hd; lia).
  unfold writeback, slot. rewrite Hd, Hp by lia. reflexivity.
Qed.

Lemma flushedDesc_skip f m i s j :
  (file (desc m i) =? f) = false ->
  flushedDesc f m (i + 1) s j = flushedDesc f m i s j.
Proof.
  intros Hf. unfold flushedDesc.
  destruct (decide (j = i)) as [->|Hne].
  - rewrite Hf, !andb_false_r. reflexivity.
  - replace (i + 1 <=? j) with (i <=? j); [reflexivity|].
    destruct (i <=? j) eqn:E; symmetry.
    + apply Z.leb_le. apply Z.leb_le in E. lia.
    + apply Z.leb_gt. apply Z.leb_gt in E. lia.
Qed.

Lemma flushedDesc_flush f m m1 i s j :
  0 <= i -> 0 <= j -> i < s ->
  (file (desc m i) =? f) = true ->
  desc m1 i = Clear (desc m i) ->
  (forall j', 0 <= j' -> j' <> i -> desc m1 j' = desc m j') ->
  flushedDesc f m1 (i + 1) s j = flushedDesc f m i s j.
Proof.
  intros Hi Hj Hs Hf Hc Ho. unfold flushedDesc.
  destruct (decide (j = i)) as [->|Hne].
  - rewrite Hf, Hc.
    replace (i + 1 <=? i) with false by (symmetry; apply Z.leb_gt; lia).
    replace (i <=? i) with true by (symmetry; apply Z.leb_le; lia).
    replace (i <? s) with true by (symmetry; apply Z.ltb_lt; lia).
    reflexivity.
  - rewrite (Ho j Hj Hne).
    replace (i + 1 <=? j) with (i <=? j); [reflexivity|].
    destruct (i <=? j) eqn:E; symmetry.
    + apply Z.leb_le. apply Z.leb_le in E. lia.
    + apply Z.leb_gt. apply Z.leb_gt in E. lia.
Qed.

Lemma flushedDesc_none f m i j : flushedDesc f m i (i + Z.of_nat 0) j = desc m j.
Proof.
  unfold flushedDesc.
  destruct (i <=? j) eqn:E1; [|reflexivity].
  destruct (j <? i + Z.of_nat 0) eqn:E2; [|reflexivity].
  apply Z.leb_le in E1. apply Z.ltb_lt in E2. lia.
Qed.

(** The scan stops at the first frame that blocks; up to there it has
    flushed every frame of the file. *)
Lemma flushFrom_scan k : forall i f m,
  0 <= i -> i + Z.of_nat k <= Z.of_nat (length (bufDescTable m)) ->
  exists n, (n <= k)%nat /\ scanned f m i k n (flushFrom k i f m).
Proof.
  induction k as [|k IH]; intros i f m Hi Hlen.
  - exists O. split; [lia|]. split; simpl; auto; try (intros; lia).
    intros j _. rewrite flushedDesc_none. reflexivity.
  - simpl flushFrom. unfold flushFrame.
    destruct (file (desc m i) =? f) eqn:Hf.
    + destruct (pinCnt (desc m i) =? 0) eqn:Hp; simpl negb; cbv iota.
      2: { (* pinned *)
        exists O. split; [lia|]. split; simpl; auto; try (intros; lia).
        - intros j _. rewrite flushedDesc_none. reflexivity.
        - right. split; [lia|]. rewrite Z.add_0_r.
          unfold blocks, flushError. rewrite Hf, Hp. auto. }
      destruct (valid (desc m i)) eqn:Hv; simpl negb; cbv iota.
      2: { (* not valid *)
        exists O. split; [lia|]. split; simpl; auto; try (intros; lia).
        - intros j _. rewrite flushedDesc_none. reflexivity.
        - right. split; [lia|]. rewrite Z.add_0_r.
          unfold blocks, flushError. rewrite Hf, Hp, Hv. auto. }
      (* flushed *)
      apply Z.eqb_eq in Hf as Hfile.
      set (m1 := set_desc (set_hashTable m (delete (f, pageNo (desc m i)) (hashTable m)))
                          i (Clear (desc (set_hashTable m
                               (delete (f, pageNo (desc m i)) (hashTable m))) i))).
      assert (Hd1 : desc m1 i = Clear (desc m i)).
      { unfold m1. rewrite desc_set_desc_eq by (simpl; lia). reflexivity. }
      assert (Ho1 : forall j, 0 <= j -> j <> i -> desc m1 j = desc m j).
      { intros j Hj Hne. unfold m1. rewrite desc_set_desc_ne by lia. reflexivity. }
      destruct (IH (i + 1) f m1) as (n & Hn & Hs); [lia| |].
      { unfold m1. simpl. rewrite length_insert. lia. }
      exists (S n). split; [lia|].
      cbn [outcome final calls].
      destruct Hs as [Spassed Scalls Snum Spool Shand Sdesc Srem Sabs Skept Send].
      split; cbn [outcome final calls].
      * intros j Hj. destruct (decide (j = i)) as [->|Hne].
        -- unfold blocks. rewrite Hf, Hp, Hv. reflexivity.
        -- rewrite <- (Ho1 j) by lia. apply Spassed. lia.
      * rewrite Scalls. simpl writebacks.
        rewrite (writebacks_ext f m m1) by (auto; intros j Hj; apply Ho1; lia).
        unfold writeback. rewrite Hf. reflexivity.
      * exact Snum.
      * exact Spool.
      * exact Shand.
      * intros j Hj. rewrite (Sdesc j Hj).
        replace (i + 1 + Z.of_nat n) with (i + Z.of_nat (S n)) by lia.
        apply flushedDesc_flush; auto. lia.
      * intros j Hj Hfj. destruct (decide (j = i)) as [->|Hne].
        -- apply Sabs. unfold m1. simpl. apply lookup_delete_eq.
        -- rewrite <- (Ho1 j) by lia. apply Srem; [lia|].
           rewrite (Ho1 j) by lia. exact Hfj.
      * intros key Hkey. apply Sabs. unfold m1. simpl.
        apply lookup_delete_None. auto.
      * intros key Hkey. rewrite Skept.
        -- unfold m1. simpl. apply lookup_delete_ne.
           intros Heq. apply (Hkey i); [lia|exact Hfile|]. congruence.
        -- intros j Hj Hfj. rewrite (Ho1 j) in * by lia. apply Hkey; [lia|exact Hfj].
      * replace (i + Z.of_nat (S n)) with (i + 1 + Z.of_nat n) by lia.
        destruct Send as [[-> Hout]|(Hlt & Hb & Hout)]; [left; auto|right].
        rewrite (Ho1 (i + 1 + Z.of_nat n)) in Hb, Hout by lia.
        split; [lia|]. auto.
    + (* a frame of another file *)
      destruct (IH (i + 1) f m) as (n & Hn & Hs); [lia|lia|].
      exists (S n). split; [lia|].
      destruct Hs as [Spassed Scalls Snum Spool Shand Sdesc Srem Sabs Skept Send].
      split; cbn [outcome final calls].
      * intros j Hj. destruct (decide (j = i)) as [->|Hne].
        -- unfold blocks. rewrite Hf. reflexivity.
        -- apply Spassed. lia.
      * rewrite Scalls. simpl writebacks. unfold writeback. rewrite Hf.
        reflexivity.
      * exact Snum.
      * exact Spool.
      * exact Shand.
      * intros j Hj. rewrite (Sdesc j Hj).
        replace (i + 1 + Z.of_nat n) with (i + Z.of_nat (S n)) by lia.
        apply flushedDesc_skip. exact Hf.
      * intros j Hj Hfj. destruct (decide (j = i)) as [->|Hne].
        -- apply Z.eqb_neq in Hf. contradiction.
        -- apply Srem; [lia|exact Hfj].
      * exact Sabs.
      * intros key Hkey. apply Skept. intros j Hj Hfj. apply Hkey; [lia|exact Hfj].
      * replace (i + Z.of_nat (S n)) with (i + 1 + Z.of_nat n) by lia.
        destruct Send as [[-> Hout]|(Hlt & Hb & Hout)]; [left; auto|right].
        split; [lia|]. auto.
Qed.

(** ** BufferExceeded with an unpinned frame in the pool *)

(** The counter of [allocBuf] counts visits, not frames: with frame 0 pinned
    and frame 1 unpinned but referenced, the sweep counts frame 0, clears the
    reference bit of frame 1, counts frame 0 again and throws. *)
Example exceeded_with_unpinned_frame :
  pinCnt (desc pool_of_two 1) = 0 /\ refbit (desc pool_of_two 1) = true /\
  pinCnt (desc pool_of_two 0) = 1 /\ refbit (desc pool_of_two 0) = false /\
  clockHand pool_of_two = 1 /\
  outcome (readPage fileF 3 (page 3) pool_of_two) = Thrown BufferExceededException.
Proof. vm_compute. repeat split. Qed.

(** ** Runs on a pool of three frames, evaluated *)

(** A cold read calls the file once and pins the frame; a second read of the
    page is a hit without file call; two unpins leave the page resident and
    unpinned. *)
Example cold_read_hit_unpin :
  let r1 := readPage fileF 5 (page 5) (BufMgr_new 3) in
  let r2 := readPage fileF 5 (page 5) (final r1) in
  let m4 := serveAll [UnPinPage fileF 5 false; UnPinPage fileF 5 false] (final r2) in
  calls r1 = [readPage_call fileF 5] /\ pinCnt (desc (final r1) 0) = 1 /\
  calls r2 = [] /\ pinCnt (desc (final r2) 0) = 2 /\
  pinCnt (desc m4 0) = 0 /\ valid (desc m4 0) = true.
Proof. vm_compute. repeat split. Qed.

(** With pages 1 and 3 pinned and page 2 unpinned, a read of page 4 takes
    the frame of page 2. *)
Example eviction_takes_unpinned_frame :
  let r := readPage fileF 4 (page 4) (final (unPinPage fileF 2 false pool_full)) in
  outcome r = Returned 1 /\ hashTable (final r) !! (fileF, 2) = None /\
  hashTable (final r) !! (fileF, 4) = Some 1 /\ slot (final r) 1 = page 4.
Proof. vm_compute. repeat split. Qed.

(** A page allocated, modified and unpinned dirty is written once, when its
    frame is taken for another page. *)
Example dirty_page_written_on_eviction :
  let r0 := allocPage fileF (page 10) (BufMgr_new 3) in
  let m := serveAll [UnPinPage fileF 10 true; ReadPage fileF 1 (page 1);
                     ReadPage fileF 2 (page 2)] (final r0) in
  let r := readPage fileF 3 (page 3) m in
  outcome r0 = Returned (10, 0) /\
  calls r = [writePage_call fileF (page 10); readPage_call fileF 3] /\
  outcome r = Returned 0.
Proof. vm_compute. repeat split. Qed.

(** ** The sweep of [allocBuf], visit by visit *)

Lemma ahead_range m a : well_formed m -> 0 <= ahead m a < numBufs m.
Proof. intros [Hn _ _ _]. unfold ahead. apply Z.mod_pos_bound. lia. Qed.

Lemma ahead_apart m a b :
  well_formed m -> 0 < b - a < numBufs m -> ahead m a <> ahead m b.
Proof.
  intros [Hn _ _ _] Hab. unfold ahead. intros Heq.
  pose proof (Z.div_mod (clockHand m + a) (numBufs m)) as H1.
  pose proof (Z.div_mod (clockHand m + b) (numBufs m)) as H2.
  rewrite Heq in H1.
  set (q := (clockHand m + b) / numBufs m - (clockHand m + a) / numBufs m).
  assert (Hd : b - a = numBufs m * q) by (unfold q; lia).
  assert (Hq : q <= 0 \/ 1 <= q) by lia.
  destruct Hq; nia.
Qed.

Lemma ahead_turn m a : ahead m (a + numBufs m) = ahead m a.
Proof.
  unfold ahead. replace (clockHand m + (a + numBufs m))
    with (clockHand m + a + 1 * numBufs m) by lia.
  apply Z_mod_plus_full.
Qed.

Lemma counted_not_takable d : counted d = true -> takable d = false.
Proof.
  unfold counted, takable. destruct (valid d), (refbit d), (pinCnt d =? 0);
    simpl; congruence.
Qed.

Lemma sweeping_start m : well_formed m -> sweeping m 0 m 0.
Proof.
  intros Hwf. split; auto; try (intros; lia).
  - unfold ahead. rewrite Z.add_0_r. symmetry. apply Z.mod_small.
    destruct Hwf. lia.
  - destruct Hwf. simpl. lia.
Qed.

(** What the next visit finds. *)
Lemma sweeping_next m k m' c :
  well_formed m -> sweeping m k m' c ->
  next m' = ahead m (Z.of_nat (S k)) /\
  desc m' (next m') = seen m (Z.of_nat (S k)).
Proof.
  intros Hwf [Hwf' Hn Hh Hc Hb Hp Hv Hu].
  assert (Hnext : next m' = ahead m (Z.of_nat (S k))).
  { unfold next. rewrite Hh, Hn. unfold ahead.
    rewrite Zplus_mod_idemp_l. f_equal. lia. }
  split; [exact Hnext|]. rewrite Hnext. unfold seen.
  destruct (Z.of_nat (S k) <=? numBufs m) eqn:E.
  - apply Z.leb_le in E. apply Hu; [apply ahead_range; exact Hwf|].
    intros a Ha Heq.
    apply (ahead_apart m a (Z.of_nat (S k)) Hwf); [lia|congruence].
  - apply Z.leb_gt in E.
    assert (Ht : ahead m (Z.of_nat (S k)) = ahead m (Z.of_nat (S k) - numBufs m)).
    { rewrite <- (ahead_turn m (Z.of_nat (S k) - numBufs m)). f_equal. lia. }
    rewrite Ht. apply Hv. destruct Hwf. lia.
Qed.

Lemma seen_unref m k : unref (seen m k) = unref (desc m (ahead m k)).
Proof. unfold seen. destruct (k <=? numBufs m); reflexivity. Qed.

(** One more visit that does not take the frame. *)
Lemma sweeping_step m k m' c m'' c' :
  well_formed m -> sweeping m k m' c ->
  well_formed m'' -> numBufs m'' = numBufs m' ->
  clockHand m'' = next m' ->
  (forall i, 0 <= i -> i <> next m' -> desc m'' i = desc m' i) ->
  desc m'' (next m') = unref (seen m (Z.of_nat (S k))) ->
  takable (seen m (Z.of_nat (S k))) = false ->
  c' = c + (if counted (seen m (Z.of_nat (S k))) then 1 else 0) ->
  c' < numBufs m ->
  sweeping m (S k) m'' c'.
Proof.
  intros Hwf Hsw Hwf'' Hn'' Hh'' Hother Hat Htake Hc' Hlt.
  destruct (sweeping_next m k m' c Hwf Hsw) as [Hnext _].
  destruct Hsw as [Hwf' Hn Hh Hc Hb Hp Hv Hu].
  split.
  - exact Hwf''.
  - congruence.
  - congruence.
  - simpl countedVisits. rewrite <- Hc. exact Hc'.
  - destruct (counted _); lia.
  - intros j Hj. destruct (decide (j = Z.of_nat (S k))) as [->|Hne];
      [exact Htake|apply Hp; lia].
  - intros a Ha.
    destruct (decide (ahead m a = next m')) as [Heq|Hne].
    + rewrite Heq, Hat, seen_unref, <- Hnext. reflexivity.
    + rewrite Hother; [|apply ahead_range; exact Hwf|exact Hne].
      apply Hv. destruct (decide (a = Z.of_nat (S k))) as [->|]; [|lia].
      congruence.
  - intros i Hi Hfar.
    rewrite Hother; [|lia|].
    + apply Hu; [exact Hi|]. intros a Ha. apply Hfar. lia.
    + rewrite Hnext. apply Hfar. lia.
Qed.

(** The loop of [allocBuf], visit by visit. *)
Lemma sweep_visits fuel : forall m k m' c mf o,
  well_formed m -> sweeping m k m' c ->
  sweep fuel m' c = (mf, o) ->
  match o with
  | Returned _ =>
      exists K : nat, (k < K <= k + fuel)%nat /\
        (forall j, 1 <= j < Z.of_nat K -> takable (seen m j) = false) /\
        takable (seen m (Z.of_nat K)) = true /\
        countedVisits m (K - 1) < numBufs m /\
        clockHand mf = ahead m (Z.of_nat K)
  | Thrown e =>
      exists K : nat, (k < K <= k + fuel)%nat /\
        (forall j, 1 <= j <= Z.of_nat K -> takable (seen m j) = false) /\
        counted (seen m (Z.of_nat K)) = true /\
        countedVisits m (K - 1) = numBufs m - 1 /\
        countedVisits m K = numBufs m /\
        clockHand mf = ahead m (Z.of_nat K) /\
        (forall a, 1 <= a <= Z.of_nat K ->
           desc mf (ahead m a) = unref (desc m (ahead m a))) /\
        (forall i, 0 <= i < numBufs m ->
           (forall a, 1 <= a <= Z.of_nat K -> i <> ahead m a) ->
           desc mf i = desc m i)
  | Unfinished => True
  end.
Proof.
  induction fuel as [|fuel IH]; intros m k m' c mf o Hwf Hsw Hs; simpl in Hs.
  - injection Hs as <- <-. exact I.
  - destruct (sweeping_next m k m' c Hwf Hsw) as [Hnext Hseen].
    pose proof Hsw as [Hwf' Hn Hh Hc Hb Hp Hv Hu].
    assert (Hcr : 0 <= c < numBufs m') by lia.
    rewrite (sweepStep_eq m' c Hwf' Hcr) in Hs. cbv zeta in Hs.
    rewrite Hseen in Hs.
    assert (Hbreak : takable (seen m (Z.of_nat (S k))) = true ->
      exists K : nat, (k < K <= k + S fuel)%nat /\
        (forall j, 1 <= j < Z.of_nat K -> takable (seen m j) = false) /\
        takable (seen m (Z.of_nat K)) = true /\
        countedVisits m (K - 1) < numBufs m /\
        clockHand (set_clockHand m' (next m')) = ahead m (Z.of_nat K)).
    { intros Htake. exists (S k). split; [lia|].
      split; [intros j Hj; apply Hp; lia|]. split; [exact Htake|].
      replace (S k - 1)%nat with k by lia. split; [lia|exact Hnext]. }
    destruct (valid (seen m (Z.of_nat (S k)))) eqn:Hval; simpl in Hs.
    2: { injection Hs as <- <-. apply Hbreak. unfold takable. rewrite Hval.
         reflexivity. }
    destruct (refbit (seen m (Z.of_nat (S k)))) eqn:Href.
    + (* the reference bit is cleared *)
      assert (Hsw' : sweeping m (S k)
                (set_desc (set_clockHand m' (next m')) (next m')
                          (unref (seen m (Z.of_nat (S k))))) c).
      { apply (sweeping_step m k m' c).
        - exact Hwf.
        - exact Hsw.
        - apply set_desc_wf, set_clockHand_wf; [exact Hwf'|].
          apply next_range. exact Hwf'.
        - reflexivity.
        - reflexivity.
        - intros i Hi Hne.
          change (desc m' i) with (desc (set_clockHand m' (next m')) i).
          apply desc_set_desc_ne; [|exact Hi|congruence].
          apply next_range. exact Hwf'.
        - apply desc_set_desc_eq. simpl.
          pose proof (next_range m' Hwf'). destruct Hwf'. lia.
        - unfold takable. rewrite Hval, Href. reflexivity.
        - unfold counted. rewrite Hval, Href. simpl. lia.
        - lia. }
      specialize (IH m (S k) _ c mf o Hwf Hsw' Hs).
      destruct o as [[]|e|]; [| |exact I];
        destruct IH as (K & HK & Hrest); exists K; (split; [lia|exact Hrest]).
    + destruct (pinCnt (seen m (Z.of_nat (S k))) =? 0) eqn:Hpin.
      { injection Hs as <- <-. apply Hbreak. unfold takable.
        rewrite Hval, Href, Hpin. reflexivity. }
      assert (Hcnt : counted (seen m (Z.of_nat (S k))) = true)
        by (unfold counted; rewrite Hval, Href, Hpin; reflexivity).
      destruct (c + 1 =? numBufs m') eqn:Hfull.
      * (* the counter is full *)
        injection Hs as <- <-. apply Z.eqb_eq in Hfull.
        exists (S k). split; [lia|]. split.
        { intros j Hj. destruct (decide (j = Z.of_nat (S k))) as [->|];
            [apply counted_not_takable; exact Hcnt|apply Hp; lia]. }
        split; [exact Hcnt|].
        replace (S k - 1)%nat with k by lia.
        split; [lia|]. split; [simpl countedVisits; rewrite Hcnt; lia|].
        split; [exact Hnext|]. split.
        { intros a Ha.
          change (desc (set_clockHand m' (next m')) (ahead m a))
            with (desc m' (ahead m a)).
          destruct (decide (a = Z.of_nat (S k))) as [->|Hne]; [|apply Hv; lia].
          transitivity (seen m (Z.of_nat (S k))).
          - rewrite <- Hseen, Hnext. reflexivity.
          - rewrite <- seen_unref. symmetry. apply unref_fixed. exact Href. }
        { intros i Hi Hno.
          change (desc (set_clockHand m' (next m')) i) with (desc m' i).
          apply Hu; [exact Hi|]. intros a Ha. apply Hno. lia. }
      * apply Z.eqb_neq in Hfull.
        assert (Hsw' : sweeping m (S k) (set_clockHand m' (next m')) (c + 1)).
        { apply (sweeping_step m k m' c).
          - exact Hwf.
          - exact Hsw.
          - apply set_clockHand_wf; [exact Hwf'|]. apply next_range. exact Hwf'.
          - reflexivity.
          - reflexivity.
          - intros i Hi Hne. reflexivity.
          - change (desc (set_clockHand m' (next m')) (next m'))
              with (desc m' (next m')).
            rewrite Hseen. symmetry. apply unref_fixed. exact Href.
          - apply counted_not_takable. exact Hcnt.
          - rewrite Hcnt. reflexivity.
          - lia. }
        specialize (IH m (S k) _ (c + 1) mf o Hwf Hsw' Hs).
        destruct o as [[]|e|]; [| |exact I];
          destruct IH as (K & HK & Hrest); exists K; (split; [lia|exact Hrest]).
Qed.

Lemma countedVisits_mono m a b :
  (a <= b)%nat -> countedVisits m a <= countedVisits m b.
Proof.
  induction 1 as [|b Hle IH]; [lia|].
  simpl countedVisits. destruct (counted _); lia.
Qed.

(** What [allocBuf] does, read off the frames its loop visits. *)
Lemma allocBuf_visits m :
  well_formed m ->
  match outcome (allocBuf m) with
  | Returned fr =>
      exists K : nat, (1 <= K <= sweepFuel m)%nat /\
        (forall j, 1 <= j < Z.of_nat K -> takable (seen m j) = false) /\
        takable (seen m (Z.of_nat K)) = true /\
        countedVisits m (K - 1) < numBufs m /\
        fr = ahead m (Z.of_nat K)
  | Thrown e =>
      exists K : nat, (1 <= K <= sweepFuel m)%nat /\
        (forall j, 1 <= j <= Z.of_nat K -> takable (seen m j) = false) /\
        counted (seen m (Z.of_nat K)) = true /\
        countedVisits m (K - 1) = numBufs m - 1 /\
        countedVisits m K = numBufs m /\
        clockHand (final (allocBuf m)) = ahead m (Z.of_nat K) /\
        (forall a, 1 <= a <= Z.of_nat K ->
           desc (final (allocBuf m)) (ahead m a) = unref (desc m (ahead m a))) /\
        (forall i, 0 <= i < numBufs m ->
           (forall a, 1 <= a <= Z.of_nat K -> i <> ahead m a) ->
           desc (final (allocBuf m)) i = desc m i)
  | Unfinished => False
  end.
Proof.
  intros Hwf.
  destruct (allocBuf_sweep m Hwf) as (m1 & _ & _ & _ & _ & _ & Hcase).
  destruct Hcase as [[Hs ->]|[Hs ->]];
    pose proof (sweep_visits (sweepFuel m) m 0 m 0 m1 _ Hwf (sweeping_start m Hwf) Hs)
      as (K & HK & Hrest); cbn [evict final calls outcome].
  - exists K. split; [lia|].
    destruct Hrest as (Hp & Ht & Hc & Hh).
    repeat (split; [assumption|]). exact Hh.
  - exists K. split; [lia|]. exact Hrest.
Qed.

(** On [pool_full_again] (three pinned frames, the hand on frame 2, the
    reference bit of frame 0 set) the first visit clears a reference bit and
    is not counted; the visits 2, 3 and 4 are, and the fourth, of frame 0
    again, throws. *)
Example sweep_counts_visits :
  counted (seen pool_full_again 1) = false /\
  countedVisits pool_full_again 3 = 2 /\
  countedVisits pool_full_again 4 = numBufs pool_full_again /\
  outcome (allocBuf pool_full_again) = Thrown BufferExceededException /\
  clockHand (final (allocBuf pool_full_again)) = ahead pool_full_again 4 /\
  ahead pool_full_again 4 = 0.
Proof. repeat split; vm_compute; reflexivity. Qed.

(** * The claims *)

(** C1.  In every state the manager reaches from its construction through
    readPage, unPinPage, allocPage, disposePage and flushFile, each valid
    frame [f] is found in the page table under [(f.file, f.pageNo)] with
    the value [f.frameNo], each page-table entry leads to a valid frame
    whose file and page number are the entry's key, and no two distinct
    valid frames hold the same (file, page number). *)
Theorem page_table_matches_valid_frames bufs m :
  0 < bufs < 2 ^ 32 -> reachable bufs m ->
  (forall i, 0 <= i < numBufs m -> valid (desc m i) = true ->
     hashTable m !! (file (desc m i), pageNo (desc m i)) = Some (frameNo (desc m i))) /\
  (forall f p i, hashTable m !! (f, p) = Some i ->
     0 <= i < numBufs m /\ valid (desc m i) = true /\
     file (desc m i) = f /\ pageNo (desc m i) = p) /\
  no_shared_page m.
Proof.
  intros Hb Hr. destruct (reachable_well_formed bufs m Hb Hr) as [_ Hc].
  split; [exact (cons_valid m Hc)|]. split; [exact (cons_entry m Hc)|].
  apply consistent_no_shared_page. exact Hc.
Qed.

Lemma page_table_matches_valid_frames_witness :
  hashTable pool_full !! (fileF, 2) = Some 1 /\ no_shared_page pool_full.
Proof.
  destruct (page_table_matches_valid_frames 3 pool_full three_frames
              pool_full_reachable) as (Hv & _ & Hn).
  split; [|exact Hn].
  assert (H1 : 0 <= 1 < numBufs pool_full) by (split; [lia|reflexivity]).
  exact (Hv 1 H1 eq_refl).
Defined.

(** C2.  readPage(file, pageNo).  On a hit (the page table answers frame
    [t]) the frame's reference bit is set, its pin count grows by one, the
    call returns the pool slot of [t] and makes no call on the file.  On a
    miss the frame comes from allocBuf; the page the file reads goes into
    that pool slot, the page table gets (file, pageNo) -> frame, and after
    Set the descriptor has pinCnt = 1, refbit = true, dirty = false,
    valid = true.  A miss on which allocBuf throws passes the exception on. *)
Theorem readPage_hit_and_miss f p answer m :
  well_formed m ->
  (forall t, hashTable m !! (f, p) = Some t -> 0 <= t < numBufs m ->
     let r := readPage f p answer m in
     outcome r = Returned t /\ calls r = [] /\
     refbit (desc (final r) t) = true /\
     pinCnt (desc (final r) t) = pinCnt (desc m t) + 1 /\
     final r = set_desc m t
       (with_pinCnt (with_refbit (desc m t) true) (pinCnt (desc m t) + 1))) /\
  (hashTable m !! (f, p) = None ->
     let a := allocBuf m in
     let r := readPage f p answer m in
     (forall fr, outcome a = Returned fr ->
        outcome r = Returned fr /\
        calls r = calls a ++ [readPage_call f p] /\
        slot (final r) fr = answer /\
        hashTable (final r) = <[(f, p) := fr]> (hashTable (final a)) /\
        desc (final r) fr = Set_ (desc (final a) fr) f p /\
        file (desc (final r) fr) = f /\ pageNo (desc (final r) fr) = p /\
        pinCnt (desc (final r) fr) = 1 /\ refbit (desc (final r) fr) = true /\
        dirty (desc (final r) fr) = false /\ valid (desc (final r) fr) = true) /\
     (forall e, outcome a = Thrown e ->
        r = mkRun (final a) (calls a) (Thrown e))).
Proof.
  intros Hwf. split.
  - intros t Hl Ht. unfold readPage. rewrite Hl. cbv zeta. simpl.
    split; [reflexivity|]. split; [reflexivity|].
    rewrite desc_set_desc_eq by (destruct Hwf; lia). auto.
  - intros Hl. cbv zeta. unfold readPage. rewrite Hl. split.
    + intros fr Hfr. rewrite Hfr. simpl.
      destruct (allocBuf_returned m fr Hwf Hfr) as (m1 & _ & _ & _ & _ & _ & _ & Hr & _).
      destruct (allocBuf_wf m Hwf) as [[_ Hd Hp _] Hn].
      split; [reflexivity|]. split; [reflexivity|]. split.
      { unfold slot. simpl. apply list_lookup_total_insert_eq. lia. }
      split; [reflexivity|].
      rewrite desc_set_desc_eq by (simpl; lia). auto 10.
    + intros e He. rewrite He. reflexivity.
Qed.

Lemma readPage_hit_and_miss_witness :
  outcome (readPage fileF 2 (page 2) pool_full) = Returned 1 /\
  calls (readPage fileF 2 (page 2) pool_full) = [] /\
  pinCnt (desc (final (readPage fileF 2 (page 2) pool_full)) 1) =
    pinCnt (desc pool_full 1) + 1.
Proof.
  destruct (readPage_hit_and_miss fileF 2 (page 2) pool_full pool_full_well_formed)
    as [Hhit _].
  assert (H1 : 0 <= 1 < numBufs pool_full) by (split; [lia|reflexivity]).
  destruct (Hhit 1 eq_refl H1) as (Ho & Hc & _ & Hp & _). auto.
Defined.

(** C3, as the code has it.  When every frame is valid and pinned, readPage
    of a page that is not resident throws BufferExceeded and calls no file;
    the page table, the pool and every descriptor's file, page number, pin
    count, dirty and valid flags are as before.  The sweep does leave a
    trace: every reference bit is now clear, and the hand has advanced, modulo
    numBufs, by the number of reference bits that were set. *)
Theorem readPage_exceeded_clears_refbits f p answer m :
  well_formed m -> all_pinned m -> hashTable m !! (f, p) = None ->
  let r := readPage f p answer m in
  outcome r = Thrown BufferExceededException /\ calls r = [] /\
  numBufs (final r) = numBufs m /\
  hashTable (final r) = hashTable m /\ bufPool (final r) = bufPool m /\
  bufDescTable (final r) = unref <$> bufDescTable m /\
  (forall i, 0 <= i < numBufs m ->
     desc (final r) i = with_refbit (desc m i) false) /\
  clockHand (final r) =
    (clockHand m + Z.of_nat (refCount (bufDescTable m))) mod numBufs m.
Proof.
  intros Hwf Hall Hl. cbv zeta. unfold readPage. rewrite Hl.
  rewrite (allocBuf_all_pinned m Hwf Hall). simpl.
  repeat (split; [reflexivity|]). split; [|reflexivity].
  intros i Hi. unfold desc. simpl.
  rewrite (list_lookup_total_fmap unref) by (destruct Hwf; lia). reflexivity.
Qed.

Lemma readPage_exceeded_clears_refbits_witness :
  outcome (readPage fileF 4 (page 4) pool_full) = Thrown BufferExceededException /\
  bufDescTable (final (readPage fileF 4 (page 4) pool_full)) =
    unref <$> bufDescTable pool_full.
Proof.
  destruct (readPage_exceeded_clears_refbits fileF 4 (page 4) pool_full
              pool_full_well_formed pool_full_all_pinned eq_refl)
    as (Ho & _ & _ & _ & _ & Ht & _).
  auto.
Defined.

(** C3 as stated fails.  Frames 0, 1 and 2 hold pinned pages, the hand is on
    frame 2 and only frame 0 has its reference bit set.  readPage(F, 4)
    throws BufferExceeded, but it has cleared the reference bit of frame 0
    and left the hand on frame 0. *)
Lemma readPage_exceeded_leaves_trace :
  all_pinned pool_full_again /\
  hashTable pool_full_again !! (fileF, 4) = None /\
  refbit (desc pool_full_again 0) = true /\ clockHand pool_full_again = 2 /\
  outcome (readPage fileF 4 (page 4) pool_full_again) =
    Thrown BufferExceededException /\
  refbit (desc (final (readPage fileF 4 (page 4) pool_full_again)) 0) = false /\
  clockHand (final (readPage fileF 4 (page 4) pool_full_again)) = 0 /\
  ~ exceeded_without_trace fileF 4 (page 4) pool_full_again.
Proof.
  split; [exact pool_full_again_all_pinned|].
  do 6 (split; [vm_compute; reflexivity|]).
  intros (_ & _ & Hhand & _). vm_compute in Hhand. discriminate Hhand.
Qed.

(** C4.  allocBuf terminates: on a well-formed manager its loop ends within
    [2 * numBufs] iterations, and a larger budget gives the same answer.
    If every frame is pinned it ends in BufferExceeded.  In one iteration
    the counter [pinnedCnt] moves only at a valid frame whose reference bit
    is clear and whose pin count is not zero; a set reference bit is cleared
    with the counter untouched; the iteration throws when that count reaches
    numBufs.  Of the whole call: allocBuf throws BufferExceeded exactly when
    some number [K] of visits, none of which finds a frame to take, contains
    numBufs visits of a valid, pinned frame with its reference bit clear
    ([countedVisits], counted from 0 at the start of the call); it throws at
    the visit that brings this number to numBufs, visits at a set reference
    bit not being counted, and leaves the hand on the frame of that visit,
    the frames visited with their reference bits cleared and the other
    frames as they were.  allocBuf returns at the first visit that finds a
    frame to take, fewer than numBufs such visits having come before. *)
Theorem allocBuf_terminates m :
  well_formed m ->
  outcome (allocBuf m) <> Unfinished /\
  (forall fuel, (sweepFuel m <= fuel)%nat ->
     sweep fuel m 0 = sweep (sweepFuel m) m 0) /\
  (all_pinned m -> outcome (allocBuf m) = Thrown BufferExceededException) /\
  (forall c, 0 <= c < numBufs m ->
     let d := desc m (next m) in
     (sweepStep m c).2 =
       if negb (valid d) then Break
       else if refbit d then Continue c
       else if pinCnt d =? 0 then Break
       else if c + 1 =? numBufs m then Throw
       else Continue (c + 1)) /\
  (outcome (allocBuf m) = Thrown BufferExceededException ->
     exists K : nat, (1 <= K <= sweepFuel m)%nat /\
       (forall j, 1 <= j <= Z.of_nat K -> takable (seen m j) = false) /\
       counted (seen m (Z.of_nat K)) = true /\
       countedVisits m (K - 1) = numBufs m - 1 /\
       countedVisits m K = numBufs m /\
       clockHand (final (allocBuf m)) = ahead m (Z.of_nat K) /\
       (forall a, 1 <= a <= Z.of_nat K ->
          desc (final (allocBuf m)) (ahead m a) = unref (desc m (ahead m a))) /\
       (forall i, 0 <= i < numBufs m ->
          (forall a, 1 <= a <= Z.of_nat K -> i <> ahead m a) ->
          desc (final (allocBuf m)) i = desc m i)) /\
  ((exists K : nat,
       (forall j, 1 <= j <= Z.of_nat K -> takable (seen m j) = false) /\
       countedVisits m K = numBufs m) ->
     outcome (allocBuf m) = Thrown BufferExceededException) /\
  (forall fr, outcome (allocBuf m) = Returned fr ->
     exists K : nat, (1 <= K <= sweepFuel m)%nat /\
       (forall j, 1 <= j < Z.of_nat K -> takable (seen m j) = false) /\
       takable (seen m (Z.of_nat K)) = true /\
       countedVisits m (K - 1) < numBufs m /\
       fr = ahead m (Z.of_nat K)).
Proof.
  intros Hwf.
  assert (Hc : 0 <= 0 < numBufs m) by (destruct Hwf; lia).
  pose proof (sweep_finishes_gen (sweepFuel m) m 0 Hwf Hc (sweepFuel_enough m Hwf))
    as Hfin.
  pose proof (allocBuf_visits m Hwf) as Hvis.
  split; [|split; [|split; [|split; [|split; [|split]]]]].
  - destruct (allocBuf_sweep m Hwf) as (m1 & _ & _ & _ & _ & _ & [[_ ->]|[_ ->]]);
      discriminate.
  - intros fuel Hle. apply sweep_fuel_mono; assumption.
  - intros Hall. rewrite (allocBuf_all_pinned m Hwf Hall). reflexivity.
  - intros c Hcr. cbv zeta. rewrite (sweepStep_eq m c Hwf Hcr). cbv zeta.
    destruct (negb _); [reflexivity|].
    destruct (refbit _); [reflexivity|].
    destruct (pinCnt _ =? 0); [reflexivity|].
    destruct (_ =? _); reflexivity.
  - intros Hout. rewrite Hout in Hvis. exact Hvis.
  - intros (K & Hnone & Hfull).
    destruct (outcome (allocBuf m)) as [fr|e|] eqn:Hout; [exfalso| |contradiction].
    + destruct Hvis as (K' & HK' & Hbefore & Htake & Hless & _).
      destruct (Nat.le_gt_cases K' K) as [Hle|Hgt].
      * rewrite Hnone in Htake by lia. discriminate Htake.
      * pose proof (countedVisits_mono m K (K' - 1)). lia.
    + destruct (allocBuf_sweep m Hwf) as (m1 & _ & _ & _ & _ & _ & [[_ He]|[_ He]]);
        rewrite He in Hout; cbn [evict outcome] in Hout; congruence.
  - intros fr Hout. rewrite Hout in Hvis. exact Hvis.
Qed.

Lemma allocBuf_terminates_witness :
  outcome (allocBuf pool_full) = Thrown BufferExceededException.
Proof.
  destruct (allocBuf_terminates pool_full pool_full_well_formed)
    as (_ & _ & Hall & _).
  exact (Hall pool_full_all_pinned).
Defined.

(** C5.  When allocBuf returns frame [fr] and that frame held a page, the
    page is written to its file exactly when the frame was dirty (one
    writePage call of the pool slot, none otherwise), its entry
    (file, pageNo) leaves the page table, the descriptor is cleared, and the
    frame returned is the position of the clock hand.  An empty frame is
    cleared without a write or a change of the page table. *)
Theorem allocBuf_evicts_victim m fr :
  well_formed m -> outcome (allocBuf m) = Returned fr ->
  let r := allocBuf m in
  let d := desc m fr in
  clockHand (final r) = fr /\ 0 <= fr < numBufs m /\
  desc (final r) fr = Clear d /\
  bufPool (final r) = bufPool m /\
  (valid d = true ->
     calls r = (if dirty d then [writePage_call (file d) (slot m fr)] else []) /\
     hashTable (final r) = delete (file d, pageNo d) (hashTable m)) /\
  (valid d = false -> calls r = [] /\ hashTable (final r) = hashTable m).
Proof.
  intros Hwf Hout. cbv zeta.
  destruct (allocBuf_returned m fr Hwf Hout)
    as (m1 & Hwf1 & Hn & Hp & Hh & Ht & Hhand & Hr & ->).
  destruct (unref_fields _ _ (unref_table_desc m m1 fr Ht))
    as (Hfile & Hpage & _ & _ & Hdirty & Hvalid).
  unfold evict. cbv zeta. simpl. rewrite Hhand.
  split; [reflexivity|]. split; [exact Hr|]. split.
  { rewrite desc_set_desc_eq by (destruct Hwf1; simpl; lia).
    apply Clear_unref. exact (unref_table_desc m m1 fr Ht). }
  split; [exact Hp|].
  rewrite Hfile, Hpage, Hdirty, Hvalid, Hh. unfold slot. rewrite Hp.
  split; intros ->; simpl; auto.
Qed.

(** A dirty page in frame 0 of a full pool, unpinned, and the next
    allocBuf: one write of that page. *)
Lemma allocBuf_evicts_victim_witness :
  let m := final (unPinPage fileF 1 true pool_full) in
  outcome (allocBuf m) = Returned 0 /\
  calls (allocBuf m) = [writePage_call fileF (page 1)] /\
  hashTable (final (allocBuf m)) !! (fileF, 1) = None.
Proof.
  cbv zeta.
  set (m := final (unPinPage fileF 1 true pool_full)).
  assert (Hwf : well_formed m).
  { apply (reachable_well_formed 3); [exact three_frames|].
    apply reach_unPinPage. exact pool_full_reachable. }
  assert (Hout : outcome (allocBuf m) = Returned 0) by (vm_compute; reflexivity).
  destruct (allocBuf_evicts_victim m 0 Hwf Hout) as (_ & _ & _ & _ & Hv & _).
  destruct (Hv eq_refl) as [Hc Hh].
  split; [exact Hout|]. split; [exact Hc|].
  rewrite Hh. apply lookup_delete_eq.
Defined.

(** C8.  unPinPage(file, pageNo, dirty).  A page that is not in the page
    table: the call returns and nothing changes.  A page in frame [t] with
    pinCnt = 0: PageNotPinned, nothing changes.  Otherwise pinCnt goes down
    by exactly one, the dirty flag is set when [dirty] is true and kept
    otherwise, and nothing else changes. *)
Theorem unPinPage_cases f p isDirty m :
  well_formed m ->
  (hashTable m !! (f, p) = None ->
     unPinPage f p isDirty m = mkRun m [] (Returned tt)) /\
  (forall t, hashTable m !! (f, p) = Some t -> pinCnt (desc m t) = 0 ->
     unPinPage f p isDirty m = mkRun m [] (Thrown (PageNotPinnedException p t))) /\
  (forall t, hashTable m !! (f, p) = Some t -> 0 <= t < numBufs m ->
     pinCnt (desc m t) <> 0 ->
     let r := unPinPage f p isDirty m in
     outcome r = Returned tt /\ calls r = [] /\
     pinCnt (desc (final r) t) = pinCnt (desc m t) - 1 /\
     dirty (desc (final r) t) = (isDirty || dirty (desc m t)) /\
     final r = set_desc m t
       (with_dirty (with_pinCnt (desc m t) (pinCnt (desc m t) - 1))
                   (isDirty || dirty (desc m t)))).
Proof.
  intros Hwf. unfold unPinPage. split; [|split].
  - intros ->. reflexivity.
  - intros t -> Hp. rewrite Hp. reflexivity.
  - intros t -> Ht Hp. cbv zeta. apply Z.eqb_neq in Hp. rewrite Hp. simpl.
    assert (Hd : (if isDirty
                  then with_dirty (with_pinCnt (desc m t) (pinCnt (desc m t) - 1)) true
                  else with_pinCnt (desc m t) (pinCnt (desc m t) - 1)) =
                 with_dirty (with_pinCnt (desc m t) (pinCnt (desc m t) - 1))
                            (isDirty || dirty (desc m t)))
      by (destruct isDirty; reflexivity).
    rewrite Hd. rewrite desc_set_desc_eq by (destruct Hwf; lia). auto.
Qed.

Lemma unPinPage_cases_witness :
  outcome (unPinPage fileF 2 false pool_full) = Returned tt /\
  pinCnt (desc (final (unPinPage fileF 2 false pool_full)) 1) =
    pinCnt (desc pool_full 1) - 1.
Proof.
  destruct (unPinPage_cases fileF 2 false pool_full pool_full_well_formed)
    as (_ & _ & H).
  assert (H1 : 0 <= 1 < numBufs pool_full) by (split; [lia|reflexivity]).
  assert (H2 : pinCnt (desc pool_full 1) <> 0) by (vm_compute; discriminate).
  destruct (H 1 eq_refl H1 H2) as (Ho & _ & Hp & _). auto.
Defined.

(** C10.  allocPage asks the file for a new page before it asks allocBuf
    for a frame: the allocatePage call heads the calls of every run.  When
    allocBuf throws BufferExceeded, allocPage ends in that exception, so the
    page number is not handed to the caller; the one file call made is the
    allocatePage (no deletePage follows); the page table and the pool are
    as before and the descriptors differ at most in reference bits, so that
    a page number that was not resident is in no page-table entry and in no
    valid descriptor. *)
Theorem allocPage_exceeded_leaks_page f newPage m :
  well_formed m ->
  outcome (allocBuf m) = Thrown BufferExceededException ->
  let r := allocPage f newPage m in
  calls r = allocatePage_call f newPage :: calls (allocBuf m) /\
  calls r = [allocatePage_call f newPage] /\
  outcome r = Thrown BufferExceededException /\
  hashTable (final r) = hashTable m /\ bufPool (final r) = bufPool m /\
  unref <$> bufDescTable (final r) = unref <$> bufDescTable m /\
  (consistent m -> hashTable m !! (f, page_number newPage) = None ->
   hashTable (final r) !! (f, page_number newPage) = None /\
   forall i, 0 <= i < numBufs m -> valid (desc (final r) i) = true ->
     (file (desc (final r) i), pageNo (desc (final r) i)) <>
     (f, page_number newPage)).
Proof.
  intros Hwf Hout. cbv zeta.
  destruct (allocBuf_sweep m Hwf) as (m1 & Hwf1 & Hn & Hp & Hh & Ht & Hcase).
  assert (Ha : allocBuf m = mkRun m1 [] (Thrown BufferExceededException)).
  { destruct Hcase as [[_ He]|[_ He]]; [|exact He].
    rewrite He in Hout. discriminate. }
  unfold allocPage. cbv zeta. rewrite Ha. simpl.
  repeat (split; [reflexivity || assumption|]).
  intros Hc Hfresh. rewrite Hh. split; [exact Hfresh|].
  intros i Hi Hv Heq.
  destruct (unref_fields _ _ (unref_table_desc m m1 i Ht))
    as (Hfile & Hpage & _ & _ & _ & Hvalid).
  rewrite Hfile, Hpage in Heq. rewrite Hvalid in Hv.
  pose proof (cons_valid m Hc i Hi Hv) as Hl. rewrite Heq in Hl. congruence.
Qed.

Lemma allocPage_exceeded_leaks_page_witness :
  calls (allocPage fileF (page 9) pool_full) = [allocatePage_call fileF (page 9)] /\
  outcome (allocPage fileF (page 9) pool_full) = Thrown BufferExceededException /\
  hashTable (final (allocPage fileF (page 9) pool_full)) !! (fileF, 9) = None.
Proof.
  assert (Hout : outcome (allocBuf pool_full) = Thrown BufferExceededException)
    by (vm_compute; reflexivity).
  destruct (allocPage_exceeded_leaks_page fileF (page 9) pool_full
              pool_full_well_formed Hout) as (_ & Hc & Ho & _ & _ & _ & Hfresh).
  destruct (Hfresh pool_full_consistent eq_refl) as [Hl _]. auto.
Defined.

(** C7.  Dirty stickiness.  Once unPinPage(file, pageNo, dirty = true) has
    gone through on the page in frame [t], the dirty bit of frame [t] is
    true, and it is still true after every sequence of readPage and
    unPinPage calls (with any dirty argument, false included) in which no
    call clears the descriptor of frame [t]. *)
Theorem dirty_is_sticky f p m t :
  well_formed m -> hashTable m !! (f, p) = Some t -> 0 <= t < numBufs m ->
  pinCnt (desc m t) <> 0 ->
  let m1 := final (unPinPage f p true m) in
  dirty (desc m1 t) = true /\
  forall qs, neverCleared t qs m1 -> dirty (desc (serveAll qs m1) t) = true.
Proof.
  intros Hwf Hl Ht Hp. cbv zeta.
  assert (Hd1 : dirty (desc (final (unPinPage f p true m)) t) = true).
  { unfold unPinPage. rewrite Hl. apply Z.eqb_neq in Hp. rewrite Hp. simpl.
    rewrite desc_set_desc_eq by (destruct Hwf; lia). reflexivity. }
  split; [exact Hd1|].
  pose proof (unPinPage_wf f p true m Hwf) as Hwf1.
  assert (Hn1 : 0 <= t < numBufs (final (unPinPage f p true m))).
  { change (final (unPinPage f p true m)) with (serve (UnPinPage f p true) m).
    rewrite serve_numBufs by exact Hwf. exact Ht. }
  revert Hd1 Hwf1 Hn1. generalize (final (unPinPage f p true m)) as m1.
  intros m1 Hd1 Hwf1 Hn1 qs. revert m1 Hd1 Hwf1 Hn1.
  induction qs as [|q qs IH]; intros m1 Hd1 Hwf1 Hn1 Hnc; simpl in *.
  - exact Hd1.
  - destruct Hnc as [Hq Hrest]. apply IH.
    + apply serve_keeps_dirty; assumption.
    + apply serve_wf. exact Hwf1.
    + rewrite serve_numBufs by exact Hwf1. exact Hn1.
    + exact Hrest.
Qed.

(** Page 2 (frame 1) is unpinned dirty, read again, unpinned clean, read a
    third time, and page 4 is then asked for, which fails: frame 1 is still
    dirty. *)
Lemma dirty_is_sticky_witness :
  dirty (desc (serveAll [ReadPage fileF 2 (page 2); UnPinPage fileF 2 false;
                         ReadPage fileF 2 (page 2); ReadPage fileF 4 (page 4)]
                        (final (unPinPage fileF 2 true pool_full))) 1) = true.
Proof.
  assert (H1 : 0 <= 1 < numBufs pool_full) by (split; [lia|reflexivity]).
  assert (H2 : pinCnt (desc pool_full 1) <> 0) by (vm_compute; discriminate).
  destruct (dirty_is_sticky fileF 2 pool_full 1 pool_full_well_formed eq_refl H1 H2)
    as [_ H].
  apply H. vm_compute. repeat split; discriminate.
Defined.

(** C9.  disposePage(file, pageNo) on a page resident in frame [i], whatever
    its pin count: the descriptor of [i] is cleared, the entry
    (file, pageNo) leaves the page table, and the one call made on the file
    is deletePage(pageNo).  A readPage(file, pageNo) that follows misses,
    gets a frame from allocBuf (which returns, frame [i] being empty) and
    ends with a readPage(pageNo) call on the file. *)
Theorem disposePage_resident f p m i :
  well_formed m -> hashTable m !! (f, p) = Some i -> 0 <= i < numBufs m ->
  let r := disposePage f p m in
  outcome r = Returned tt /\ calls r = [deletePage_call f p] /\
  desc (final r) i = Clear (desc m i) /\
  hashTable (final r) = delete (f, p) (hashTable m) /\
  hashTable (final r) !! (f, p) = None /\
  forall answer,
    let r2 := readPage f p answer (final r) in
    exists fr,
      outcome r2 = Returned fr /\
      calls r2 = calls (allocBuf (final r)) ++ [readPage_call f p] /\
      slot (final r2) fr = answer /\
      hashTable (final r2) !! (f, p) = Some fr.
Proof.
  intros Hwf Hl Hi. cbv zeta. unfold disposePage. rewrite Hl. simpl.
  set (m' := set_hashTable (set_desc m i (Clear (desc m i)))
                           (delete (f, p) (hashTable m))).
  assert (Hd : desc m' i = Clear (desc m i)).
  { change (desc m' i) with (desc (set_desc m i (Clear (desc m i))) i).
    apply desc_set_desc_eq. destruct Hwf. lia. }
  assert (Hnone : hashTable m' !! (f, p) = None) by apply lookup_delete_eq.
  split; [reflexivity|]. split; [reflexivity|]. split; [exact Hd|].
  split; [reflexivity|]. split; [exact Hnone|].
  intros answer.
  assert (Hwf' : well_formed m')
    by (apply set_hashTable_wf, set_desc_wf; exact Hwf).
  assert (Hv : valid (desc m' i) = false) by (rewrite Hd; reflexivity).
  destruct (allocBuf_finds_invalid m' i Hwf' Hi Hv) as [fr Hfr].
  exists fr.
  destruct (readPage_miss f p answer m' fr Hwf' Hnone Hfr)
    as (Ho & Hc & Hs & Hh & _).
  split; [exact Ho|]. split; [exact Hc|]. split; [exact Hs|].
  rewrite Hh. apply lookup_insert_eq.
Qed.

(** Page 2 of the full pool is disposed of while it is pinned. *)
Lemma disposePage_resident_witness :
  pinCnt (desc pool_full 1) = 1 /\
  calls (disposePage fileF 2 pool_full) = [deletePage_call fileF 2] /\
  desc (final (disposePage fileF 2 pool_full)) 1 = Clear (desc pool_full 1) /\
  exists fr,
    outcome (readPage fileF 2 (page 2) (final (disposePage fileF 2 pool_full))) =
    Returned fr.
Proof.
  assert (H1 : 0 <= 1 < numBufs pool_full) by (split; [lia|reflexivity]).
  destruct (disposePage_resident fileF 2 pool_full 1 pool_full_well_formed
              eq_refl H1) as (_ & Hc & Hd & _ & _ & Hread).
  split; [reflexivity|]. split; [exact Hc|]. split; [exact Hd|].
  destruct (Hread (page 2)) as (fr & Ho & _). exists fr. exact Ho.
Defined.

(** C6.  flushFile(file) goes through the descriptors in frame order.  At a
    frame whose file is the argument it throws PagePinned if the pin count
    is not zero, else BadBuffer if the frame is not valid, else it writes
    the pool slot to the file exactly when the frame is dirty, removes the
    page-table entry and clears the descriptor; other frames are passed
    over.  The scan ends at the first frame [s] that throws, or at numBufs:
    the frames of the file below [s] are cleared and out of the page table
    and their dirty pages written, in frame order, also when frame [s]
    throws (nothing is rolled back); the frames from [s] on, the frames of
    other files, the other page-table entries and the pool are as before. *)
Theorem flushFile_scans_frames f m :
  well_formed m -> numBufs m < 2 ^ 31 ->
  (forall i,
     let d := desc m i in
     flushFrame f i m =
       if negb (file d =? f) then mkRun m [] (Returned tt)
       else if negb (pinCnt d =? 0)
         then mkRun m [] (Thrown (PagePinnedException (pageNo d) i))
       else if negb (valid d)
         then mkRun m [] (Thrown (BadBufferException i (dirty d) (valid d) (refbit d)))
       else mkRun (set_desc (set_hashTable m (delete (f, pageNo d) (hashTable m)))
                            i (Clear d))
                  (if dirty d then [writePage_call f (slot m i)] else [])
                  (Returned tt)) /\
  let r := flushFile f m in
  exists s, 0 <= s <= numBufs m /\
    (forall j, 0 <= j < s -> file (desc m j) = f ->
       pinCnt (desc m j) = 0 /\ valid (desc m j) = true /\
       desc (final r) j = Clear (desc m j) /\
       hashTable (final r) !! (f, pageNo (desc m j)) = None) /\
    (forall j, 0 <= j < s -> file (desc m j) <> f -> desc (final r) j = desc m j) /\
    (forall j, s <= j -> desc (final r) j = desc m j) /\
    calls r = writebacks f m 0 (Z.to_nat s) /\
    bufPool (final r) = bufPool m /\
    (forall key,
       (forall j, 0 <= j < s -> file (desc m j) = f ->
                  key <> (f, pageNo (desc m j))) ->
       hashTable (final r) !! key = hashTable m !! key) /\
    (s = numBufs m /\ outcome r = Returned tt \/
     s < numBufs m /\ file (desc m s) = f /\ pinCnt (desc m s) <> 0 /\
       outcome r = Thrown (PagePinnedException (pageNo (desc m s)) s) \/
     s < numBufs m /\ file (desc m s) = f /\ pinCnt (desc m s) = 0 /\
       valid (desc m s) = false /\
       outcome r = Thrown (BadBufferException s (dirty (desc m s)) false
                                              (refbit (desc m s)))).
Proof.
  intros Hwf Hsmall. split.
  - intros i. cbv zeta. unfold flushFrame.
    destruct (file (desc m i) =? f); simpl; [|reflexivity].
    destruct (pinCnt (desc m i) =? 0); simpl; [|reflexivity].
    destruct (valid (desc m i)); reflexivity.
  - cbv zeta. unfold flushFile.
    assert (Hk : to_int (numBufs m) = numBufs m).
    { unfold to_int. destruct Hwf as [Hn _ _ _]. rewrite u32_small by lia.
      destruct (numBufs m <? 2 ^ 31) eqn:E; [reflexivity|].
      apply Z.ltb_ge in E. lia. }
    rewrite Hk. set (k := Z.to_nat (numBufs m)).
    assert (Hkn : Z.of_nat k = numBufs m) by (destruct Hwf; lia).
    destruct (flushFrom_scan k 0 f m) as (n & Hn & Hs); [lia|destruct Hwf; lia|].
    destruct Hs as [Spassed Scalls Snum Spool Shand Sdesc Srem Sabs Skept Send].
    exists (Z.of_nat n). rewrite Nat2Z.id.
    change (0 + Z.of_nat n) with (Z.of_nat n) in *.
    split; [lia|]. split; [|split; [|split; [|split; [|split; [|split]]]]].
    + intros j Hj Hfj. pose proof (Spassed j Hj) as Hb.
      unfold blocks in Hb. apply Z.eqb_eq in Hfj as Hfe. rewrite Hfe in Hb.
      simpl in Hb. apply orb_false_elim in Hb as [Hp Hv].
      apply negb_false_iff in Hp, Hv. apply Z.eqb_eq in Hp.
      split; [exact Hp|]. split; [exact Hv|]. split; [|apply Srem; auto].
      rewrite Sdesc by lia. unfold flushedDesc. rewrite Hfe.
      replace (0 <=? j) with true by (symmetry; apply Z.leb_le; lia).
      replace (j <? Z.of_nat n) with true by (symmetry; apply Z.ltb_lt; lia).
      reflexivity.
    + intros j Hj Hfj. rewrite Sdesc by lia. unfold flushedDesc.
      apply Z.eqb_neq in Hfj. rewrite Hfj, andb_false_r. reflexivity.
    + intros j Hj. rewrite Sdesc by lia. unfold flushedDesc.
      replace (j <? Z.of_nat n) with false by (symmetry; apply Z.ltb_ge; lia).
      rewrite andb_false_r. reflexivity.
    + exact Scalls.
    + exact Spool.
    + exact Skept.
    + destruct Send as [[-> Hout]|(Hlt & Hb & Hout)]; [left; split; [lia|exact Hout]|].
      right. unfold blocks in Hb. apply andb_true_iff in Hb as [Hfe Hb].
      apply Z.eqb_eq in Hfe. unfold flushError in Hout.
      destruct (pinCnt (desc m (Z.of_nat n)) =? 0) eqn:Hp; simpl in *.
      * right. apply Z.eqb_eq in Hp. apply negb_true_iff in Hb.
        rewrite Hb in Hout. repeat (split; [assumption || lia|]). exact Hout.
      * left. apply Z.eqb_neq in Hp. repeat (split; [assumption || lia|]). exact Hout.
Qed.

(** Page 1 (frame 0) of the full pool is unpinned dirty; pages 2 and 3 stay
    pinned.  flushFile writes page 1, clears frame 0 and throws at frame 1. *)
Lemma flushFile_scans_frames_witness :
  let m := final (unPinPage fileF 1 true pool_full) in
  exists s, 0 <= s <= numBufs m /\
    calls (flushFile fileF m) = writebacks fileF m 0 (Z.to_nat s) /\
    (forall j, s <= j -> desc (final (flushFile fileF m)) j = desc m j).
Proof.
  cbv zeta.
  set (m := final (unPinPage fileF 1 true pool_full)).
  assert (Hwf : well_formed m).
  { apply (reachable_well_formed 3); [exact three_frames|].
    apply reach_unPinPage. exact pool_full_reachable. }
  assert (Hsmall : numBufs m < 2 ^ 31) by reflexivity.
  destruct (flushFile_scans_frames fileF m Hwf Hsmall)
    as (_ & s & Hs & _ & _ & Hrest & Hcalls & _).
  exists s. auto.
Defined.

(** The same run, evaluated: one write, frame 0 cleared, PagePinned at
    frame 1. *)
Example flushFile_stops_at_pinned_frame :
  let r := flushFile fileF (final (unPinPage fileF 1 true pool_full)) in
  outcome r = Thrown (PagePinnedException 2 1) /\
  calls r = [writePage_call fileF (page 1)] /\
  valid (desc (final r) 0) = false /\
  hashTable (final r) !! (fileF, 1) = None.
Proof. vm_compute. auto. Qed.

(** * Further properties of the manager *)

(** ** The pool is never resized *)

Lemma flushFrame_numBufs f i m : numBufs (final (flushFrame f i m)) = numBufs m.
Proof.
  unfold flushFrame. cbv zeta.
  destruct (file (desc m i) =? f); [|reflexivity].
  destruct (negb (pinCnt (desc m i) =? 0)); [reflexivity|].
  destruct (negb (valid (desc m i))); reflexivity.
Qed.

Lemma flushFrom_numBufs k : forall i f m,
  numBufs (final (flushFrom k i f m)) = numBufs m.
Proof.
  induction k as [|k IH]; intros i f m; simpl; [reflexivity|].
  pose proof (flushFrame_numBufs f i m) as Hn.
  destruct (outcome (flushFrame f i m)); simpl; try exact Hn.
  rewrite IH. exact Hn.
Qed.

Lemma reachable_numBufs bufs m :
  0 < bufs < 2 ^ 32 -> reachable bufs m -> numBufs m = bufs.
Proof.
  intros Hb Hr. induction Hr as [|m f p a Hr IH|m f p b Hr IH
    |m f pg Hr IH Hfresh|m f p Hr IH|m f Hr IH].
  - reflexivity.
  - destruct (reachable_well_formed bufs m Hb Hr) as [Hwf _].
    rewrite <- IH. exact (serve_numBufs (ReadPage f p a) m Hwf).
  - destruct (reachable_well_formed bufs m Hb Hr) as [Hwf _].
    rewrite <- IH. exact (serve_numBufs (UnPinPage f p b) m Hwf).
  - destruct (reachable_well_formed bufs m Hb Hr) as [Hwf _].
    rewrite <- IH. unfold allocPage. cbv zeta.
    destruct (allocBuf_wf m Hwf) as [_ Hn].
    destruct (outcome (allocBuf m)); simpl; exact Hn.
  - rewrite <- IH. unfold disposePage. simpl.
    destruct (hashTable m !! (f, p)); reflexivity.
  - rewrite <- IH. apply flushFrom_numBufs.
Qed.

(** X1.  Whatever sequence of readPage, unPinPage, allocPage, disposePage
    and flushFile calls a manager of [bufs] frames has served, returning or
    throwing, [numBufs] is still [bufs], the descriptor table and the pool
    still have [bufs] entries, and the clock hand is inside the pool. *)
Theorem pool_keeps_its_shape bufs m :
  0 < bufs < 2 ^ 32 -> reachable bufs m ->
  numBufs m = bufs /\
  Z.of_nat (length (bufDescTable m)) = bufs /\
  Z.of_nat (length (bufPool m)) = bufs /\
  0 <= clockHand m < bufs.
Proof.
  intros Hb Hr. pose proof (reachable_numBufs bufs m Hb Hr) as Hn.
  destruct (reachable_well_formed bufs m Hb Hr) as [[_ Hd Hp Hh] _].
  rewrite Hn in *. auto.
Qed.

Lemma pool_keeps_its_shape_witness :
  numBufs pool_full_again = 3 /\ 0 <= clockHand pool_full_again < 3.
Proof.
  destruct (pool_keeps_its_shape 3 pool_full_again three_frames
              pool_full_again_reachable) as (Hn & _ & _ & Hh).
  auto.
Defined.

(** ** Pin counts stay in range; an empty frame is unpinned and clean *)

Lemma reachable_within_reachable top bufs m :
  reachable_within top bufs m -> reachable bufs m.
Proof.
  induction 1; [apply reach_new|apply reach_readPage|apply reach_unPinPage
               |apply reach_allocPage|apply reach_disposePage
               |apply reach_flushFile]; assumption.
Qed.

Lemma Forall_insert_in_range {A} (P : A -> Prop) (l : list A) i y :
  Forall P l -> ((i < length l)%nat -> P y) -> Forall P (<[i := y]> l).
Proof.
  intros Hl Hy. destruct (decide (i < length l)%nat) as [Hlt|Hge].
  - apply Forall_insert; auto.
  - rewrite list_insert_ge by lia. exact Hl.
Qed.

Lemma tidy_lookup_total top (t : list BufDesc) i :
  Forall (tidyDesc top) t -> (i < length t)%nat -> tidyDesc top (t !!! i).
Proof.
  intros Ht Hi. rewrite Forall_lookup in Ht. apply (Ht i).
  apply list_lookup_lookup_total_lt. exact Hi.
Qed.

Lemma tidy_Clear top d : 1 <= top -> tidyDesc top (Clear d).
Proof. intros Htop. split; simpl; [lia|auto]. Qed.

Lemma tidy_Set top d f p : 1 <= top -> tidyDesc top (Set_ d f p).
Proof. intros Htop. split; simpl; [lia|discriminate]. Qed.

Lemma tidy_unref top d : tidyDesc top d -> tidyDesc top (unref d).
Proof.
  intros [H1 H2]. split; simpl; [exact H1|].
  intros Hv. destruct (H2 Hv) as (? & ? & _ & ?). auto.
Qed.

Lemma sweepStep_tidy top m c m' v :
  sweepStep m c = (m', v) ->
  Forall (tidyDesc top) (bufDescTable m) -> Forall (tidyDesc top) (bufDescTable m').
Proof.
  unfold sweepStep. intros H Ht.
  destruct (negb (valid _)); [injection H as <- <-; exact Ht|].
  destruct (refbit _).
  - injection H as <- <-. simpl. apply Forall_insert_in_range; [exact Ht|].
    intros Hlt. apply tidy_unref. unfold desc. simpl.
    apply tidy_lookup_total; assumption.
  - destruct (negb (pinCnt _ =? 0)); [|injection H as <- <-; exact Ht].
    destruct (_ =? _); injection H as <- <-; exact Ht.
Qed.

Lemma sweep_tidy top fuel : forall m c m' o,
  sweep fuel m c = (m', o) ->
  Forall (tidyDesc top) (bufDescTable m) -> Forall (tidyDesc top) (bufDescTable m').
Proof.
  induction fuel as [|fuel IH]; intros m c m' o H Ht; simpl in H.
  - injection H as <- <-. exact Ht.
  - destruct (sweepStep m c) as [m1 v] eqn:Hs.
    pose proof (sweepStep_tidy _ _ _ _ _ Hs Ht) as Ht1.
    destruct v as [|c'|]; try (injection H as <- <-; exact Ht1).
    exact (IH _ _ _ _ H Ht1).
Qed.

Lemma allocBuf_tidy top m :
  1 <= top ->
  Forall (tidyDesc top) (bufDescTable m) ->
  Forall (tidyDesc top) (bufDescTable (final (allocBuf m))).
Proof.
  intros Htop Ht. unfold allocBuf.
  destruct (sweep (sweepFuel m) m 0) as [m1 o] eqn:Hs.
  pose proof (sweep_tidy _ _ _ _ _ _ Hs Ht) as Ht1.
  destruct o as [[]|e|]; simpl; try exact Ht1.
  apply Forall_insert_in_range; [exact Ht1|]. intros _.
  apply tidy_Clear. exact Htop.
Qed.

Lemma flushFrom_tidy top k : forall i f m,
  1 <= top ->
  Forall (tidyDesc top) (bufDescTable m) ->
  Forall (tidyDesc top) (bufDescTable (final (flushFrom k i f m))).
Proof.
  induction k as [|k IH]; intros i f m Htop Ht; simpl; [exact Ht|].
  assert (Ht1 : Forall (tidyDesc top) (bufDescTable (final (flushFrame f i m)))).
  { unfold flushFrame. cbv zeta.
    destruct (file (desc m i) =? f); [|exact Ht].
    destruct (negb (pinCnt (desc m i) =? 0)); [exact Ht|].
    destruct (negb (valid (desc m i))); [exact Ht|]. simpl.
    apply Forall_insert_in_range; [exact Ht|]. intros _.
    apply tidy_Clear. exact Htop. }
  destruct (outcome (flushFrame f i m)); simpl; try exact Ht1.
  apply IH; [exact Htop|exact Ht1].
Qed.

(** The induction over the member functions: the hit of readPage adds one to
    a count below [top], unPinPage takes one from a count that is not zero,
    Set starts a count at one, Clear at zero; a hit and unPinPage touch
    valid frames only, the page table leading to no other. *)
Lemma reachable_within_tidy top bufs m :
  1 <= top -> 0 < bufs < 2 ^ 32 -> reachable_within top bufs m ->
  Forall (tidyDesc top) (bufDescTable m).
Proof.
  intros Htop Hb Hr. induction Hr as [|m f p a Hr IH Hroom|m f p b Hr IH
    |m f pg Hr IH Hfresh|m f p Hr IH|m f Hr IH].
  - simpl. apply Forall_fmap, Forall_forall. intros i _.
    split; simpl; [lia|auto].
  - destruct (reachable_well_formed bufs m Hb
                (reachable_within_reachable _ _ _ Hr)) as [Hwf Hc].
    unfold readPage. destruct (hashTable m !! (f, p)) as [t|] eqn:Hl; simpl.
    + destruct (cons_entry m Hc f p t Hl) as (Ht & Hv & _).
      specialize (Hroom t eq_refl).
      apply Forall_insert_in_range; [exact IH|]. intros Hlt.
      pose proof (tidy_lookup_total _ _ _ IH Hlt) as [Hp _].
      fold (desc m t) in Hp. split; simpl; [lia|]. rewrite Hv. discriminate.
    + pose proof (allocBuf_tidy top m Htop IH) as Ht1.
      destruct (outcome (allocBuf m)); simpl; try exact Ht1.
      apply Forall_insert_in_range; [exact Ht1|]. intros _.
      apply tidy_Set. exact Htop.
  - destruct (reachable_well_formed bufs m Hb
                (reachable_within_reachable _ _ _ Hr)) as [Hwf Hc].
    unfold unPinPage. destruct (hashTable m !! (f, p)) as [t|] eqn:Hl; simpl;
      [|exact IH].
    destruct (cons_entry m Hc f p t Hl) as (Ht & Hv & _).
    destruct (pinCnt (desc m t) =? 0) eqn:Hp; simpl; [exact IH|].
    apply Z.eqb_neq in Hp.
    apply Forall_insert_in_range; [exact IH|]. intros Hlt.
    pose proof (tidy_lookup_total _ _ _ IH Hlt) as [Hp0 _].
    fold (desc m t) in Hp0.
    destruct b; (split; simpl; [lia|rewrite Hv; discriminate]).
  - pose proof (allocBuf_tidy top m Htop IH) as Ht1. unfold allocPage. cbv zeta.
    destruct (outcome (allocBuf m)); simpl; try exact Ht1.
    apply Forall_insert_in_range; [exact Ht1|]. intros _.
    apply tidy_Set. exact Htop.
  - unfold disposePage. simpl. destruct (hashTable m !! (f, p)); [|exact IH].
    simpl. apply Forall_insert_in_range; [exact IH|]. intros _.
    apply tidy_Clear. exact Htop.
  - apply flushFrom_tidy; [exact Htop|exact IH].
Qed.

Lemma pool_full_again_within : reachable_within INT_MAX 3 pool_full_again.
Proof.
  unfold pool_full_again, pool_full.
  repeat (apply within_readPage;
          [|intros t Ht; vm_compute in Ht;
            first [discriminate Ht
                  |injection Ht as <-; vm_compute; reflexivity]]).
  apply within_new.
Qed.

(** X2.  As long as no readPage pins a resident page whose pin count is
    already the largest value [top] of the counter (where [pinCnt++] would
    overflow), every pin count stays between 0 and [top] in every state the
    manager goes through, whether its member functions return or throw:
    unPinPage refuses to go below zero, and nothing but the hit of readPage
    raises a count above one. *)
Theorem pin_counts_stay_in_range top bufs m i :
  1 <= top -> 0 < bufs < 2 ^ 32 -> reachable_within top bufs m ->
  0 <= i < numBufs m ->
  0 <= pinCnt (desc m i) <= top.
Proof.
  intros Htop Hb Hr Hi.
  destruct (reachable_well_formed bufs m Hb (reachable_within_reachable _ _ _ Hr))
    as [[_ Hd _ _] _].
  assert (Hlt : (Z.to_nat i < length (bufDescTable m))%nat) by lia.
  destruct (tidy_lookup_total _ _ _ (reachable_within_tidy top bufs m Htop Hb Hr) Hlt)
    as [Hrange _].
  exact Hrange.
Qed.

Lemma pin_counts_stay_in_range_witness :
  0 <= pinCnt (desc pool_full_again 0) <= INT_MAX.
Proof.
  assert (Htop : 1 <= INT_MAX) by (unfold INT_MAX; lia).
  assert (H0 : 0 <= 0 < numBufs pool_full_again) by (split; [lia|reflexivity]).
  exact (pin_counts_stay_in_range INT_MAX 3 pool_full_again 0 Htop three_frames
           pool_full_again_within H0).
Defined.

(** X19.  Under the same condition a frame that is not valid has pin count
    0, neither its dirty flag nor its reference bit set, and no file, in
    every state the manager goes through: the member functions make a frame
    invalid through Clear only, and the hit of readPage and unPinPage, which
    set the reference bit and the dirty flag, reach valid frames only. *)
Theorem empty_frame_is_blank top bufs m i :
  1 <= top -> 0 < bufs < 2 ^ 32 -> reachable_within top bufs m ->
  0 <= i < numBufs m -> valid (desc m i) = false ->
  pinCnt (desc m i) = 0 /\ dirty (desc m i) = false /\
  refbit (desc m i) = false /\ file (desc m i) = NULL.
Proof.
  intros Htop Hb Hr Hi Hv.
  destruct (reachable_well_formed bufs m Hb (reachable_within_reachable _ _ _ Hr))
    as [[_ Hd _ _] _].
  assert (Hlt : (Z.to_nat i < length (bufDescTable m))%nat) by lia.
  destruct (tidy_lookup_total _ _ _ (reachable_within_tidy top bufs m Htop Hb Hr) Hlt)
    as [_ Hblank].
  exact (Hblank Hv).
Qed.

(** Page 2 of the full pool is disposed of while pinned: its frame is left
    without a pin. *)
Lemma empty_frame_is_blank_witness :
  let m := final (disposePage fileF 2 pool_full) in
  pinCnt (desc pool_full 1) = 1 /\ valid (desc m 1) = false /\
  pinCnt (desc m 1) = 0 /\ file (desc m 1) = NULL.
Proof.
  cbv zeta. set (m := final (disposePage fileF 2 pool_full)).
  assert (Htop : 1 <= INT_MAX) by (unfold INT_MAX; lia).
  assert (Hr : reachable_within INT_MAX 3 m).
  { apply within_disposePage. unfold pool_full.
    repeat (apply within_readPage;
            [|intros t Ht; vm_compute in Ht;
              first [discriminate Ht
                    |injection Ht as <-; vm_compute; reflexivity]]).
    apply within_new. }
  assert (H1 : 0 <= 1 < numBufs m) by (split; [lia|reflexivity]).
  assert (Hv : valid (desc m 1) = false) by reflexivity.
  destruct (empty_frame_is_blank INT_MAX 3 m 1 Htop three_frames Hr H1 Hv)
    as (Hp & _ & _ & Hf).
  split; [reflexivity|]. split; [exact Hv|]. split; [exact Hp|exact Hf].
Defined.

(** ** Which frame allocBuf takes *)

Lemma sweepStep_break m c m' :
  sweepStep m c = (m', Break) -> takable (desc m' (clockHand m')) = true.
Proof.
  unfold sweepStep, takable.
  set (m1 := advanceClock m).
  destruct (valid (desc m1 (clockHand m1))) eqn:Hv; cbn [negb].
  - destruct (refbit (desc m1 (clockHand m1))) eqn:Hb; [intros [=]|].
    destruct (pinCnt (desc m1 (clockHand m1)) =? 0) eqn:Hp; cbn [negb].
    + intros [= <-]. rewrite Hv, Hb, Hp. reflexivity.
    + destruct (u32 (c + 1) =? numBufs m1); intros [=].
  - intros [= <-]. rewrite Hv. reflexivity.
Qed.

Lemma sweep_break fuel : forall m c m1,
  sweep fuel m c = (m1, Returned tt) ->
  takable (desc m1 (clockHand m1)) = true.
Proof.
  induction fuel as [|fuel IH]; intros m c m1 H; simpl in H; [discriminate|].
  destruct (sweepStep m c) as [m' v] eqn:Hs. destruct v as [|c'|].
  - injection H as <-. exact (sweepStep_break _ _ _ Hs).
  - exact (IH _ _ _ H).
  - discriminate.
Qed.

(** The frame allocBuf returns was empty or unpinned before the call. *)
Lemma allocBuf_takes_unpinned m fr :
  well_formed m -> outcome (allocBuf m) = Returned fr ->
  valid (desc m fr) = false \/ pinCnt (desc m fr) = 0.
Proof.
  intros Hwf Hout.
  destruct (allocBuf_sweep m Hwf) as (m1 & Hwf1 & Hn & Hp & Hh & Ht & Hcase).
  destruct Hcase as [[Hs He]|[_ He]]; rewrite He in Hout; [|discriminate].
  simpl in Hout. injection Hout as <-.
  pose proof (sweep_break _ _ _ _ Hs) as Htake.
  destruct (unref_fields _ _ (unref_table_desc m m1 (clockHand m1) Ht))
    as (_ & _ & _ & Hpin & _ & Hvalid).
  unfold takable in Htake. rewrite Hvalid, Hpin in Htake.
  destruct (valid (desc m (clockHand m1))); [right|left; reflexivity].
  simpl in Htake. apply andb_true_iff in Htake as [_ Hz].
  apply Z.eqb_eq in Hz. exact Hz.
Qed.

(** X3.  allocBuf never takes a pinned page: when it returns frame [fr] and
    that frame held a page, the pin count of the frame was zero; a frame
    with a pin count other than zero that holds a page is not returned. *)
Theorem allocBuf_spares_pinned_frames m fr :
  well_formed m ->
  (outcome (allocBuf m) = Returned fr ->
   valid (desc m fr) = true -> pinCnt (desc m fr) = 0) /\
  (valid (desc m fr) = true -> pinCnt (desc m fr) <> 0 ->
   outcome (allocBuf m) <> Returned fr).
Proof.
  intros Hwf. split.
  - intros Hout Hv.
    destruct (allocBuf_takes_unpinned m fr Hwf Hout) as [Hinv|Hz];
      [congruence|exact Hz].
  - intros Hv Hp Hout.
    destruct (allocBuf_takes_unpinned m fr Hwf Hout) as [Hinv|Hz];
      [congruence|contradiction].
Qed.

Lemma allocBuf_spares_pinned_frames_witness :
  pinCnt (desc (final (unPinPage fileF 2 false pool_full)) 1) = 0.
Proof.
  set (m := final (unPinPage fileF 2 false pool_full)).
  assert (Hwf : well_formed m).
  { apply (reachable_well_formed 3); [exact three_frames|].
    apply reach_unPinPage. exact pool_full_reachable. }
  assert (Hout : outcome (allocBuf m) = Returned 1) by (vm_compute; reflexivity).
  exact (proj1 (allocBuf_spares_pinned_frames m 1 Hwf) Hout eq_refl).
Defined.

Lemma desc_set_desc_cases m i d j :
  desc (set_desc m i d) j = d \/ desc (set_desc m i d) j = desc m j.
Proof.
  unfold desc, set_desc. simpl.
  destruct (decide (Z.to_nat i < length (bufDescTable m))%nat) as [Hlt|Hge].
  - destruct (decide (Z.to_nat i = Z.to_nat j)) as [Heq|Hne].
    + left. rewrite <- Heq. apply list_lookup_total_insert_eq. exact Hlt.
    + right. apply list_lookup_total_insert_ne. exact Hne.
  - right. rewrite list_insert_ge by lia. reflexivity.
Qed.

Lemma takable_after_clear m h x :
  takable (desc m x) = true ->
  takable (desc (set_desc (set_clockHand m h) h (unref (desc m h))) x) = true.
Proof.
  set (m' := set_desc (set_clockHand m h) h (unref (desc m h))).
  intros Htake.
  assert (Ht : unref <$> bufDescTable m' = unref <$> bufDescTable m)
    by apply unref_insert.
  destruct (unref_fields _ _ (unref_table_desc m m' x Ht))
    as (_ & _ & _ & Hp & _ & Hv).
  unfold takable in *. rewrite Hp, Hv.
  destruct (desc_set_desc_cases (set_clockHand m h) h (unref (desc m h)) x)
    as [He|He]; fold m' in He.
  - rewrite He in *. simpl in *.
    destruct (valid (desc m x)); simpl in *; [|reflexivity].
    apply andb_true_iff in Htake as [_ Hz]. exact Hz.
  - rewrite He. exact Htake.
Qed.

(** A frame the sweep can take, within reach of the hand, stops the loop
    before the counter of pinned frames can fill up. *)
Lemma sweep_finds_takable fuel : forall m c j,
  well_formed m -> 0 <= c -> 1 <= j -> c + j <= numBufs m ->
  takable (desc m (ahead m j)) = true ->
  j <= Z.of_nat fuel ->
  (sweep fuel m c).2 = Returned tt.
Proof.
  induction fuel as [|fuel IH]; intros m c j Hwf Hc Hj Hcj Htake Hfuel; [lia|].
  assert (Hc' : 0 <= c < numBufs m) by lia.
  simpl. rewrite (sweepStep_eq m c Hwf Hc'). cbv zeta.
  destruct (valid (desc m (next m))) eqn:Hv; simpl; [|reflexivity].
  destruct (refbit (desc m (next m))) eqn:Hb.
  - assert (Hj2 : 2 <= j).
    { destruct (decide (j = 1)) as [->|]; [|lia].
      rewrite ahead_one in Htake. unfold takable in Htake.
      rewrite Hv, Hb in Htake. discriminate. }
    set (m' := set_desc (set_clockHand m (next m)) (next m) (unref (desc m (next m)))).
    apply (IH m' c (j - 1)); try lia.
    + unfold m'. auto with bufmgr.
    + simpl. lia.
    + change (ahead m' ?t) with ((next m + t) mod numBufs m).
      rewrite ahead_next. replace (j - 1 + 1) with j by lia.
      apply takable_after_clear. exact Htake.
  - destruct (pinCnt (desc m (next m)) =? 0) eqn:Hp; [reflexivity|].
    assert (Hj2 : 2 <= j).
    { destruct (decide (j = 1)) as [->|]; [|lia].
      rewrite ahead_one in Htake. unfold takable in Htake.
      rewrite Hv, Hb, Hp in Htake. discriminate. }
    destruct (c + 1 =? numBufs m) eqn:E; [apply Z.eqb_eq in E; lia|].
    set (m' := set_clockHand m (next m)).
    apply (IH m' (c + 1) (j - 1)); try (simpl; lia).
    + unfold m'. auto with bufmgr.
    + change (ahead m' ?t) with ((next m + t) mod numBufs m).
      rewrite ahead_next. replace (j - 1 + 1) with j by lia.
      exact Htake.
Qed.

Lemma allocBuf_finds_takable m i :
  well_formed m -> 0 <= i < numBufs m -> takable (desc m i) = true ->
  exists fr, outcome (allocBuf m) = Returned fr.
Proof.
  intros Hwf Hi Htake.
  destruct (ahead_covers m i Hwf Hi) as (j & Hj & ->).
  pose proof (sweep_finds_takable (sweepFuel m) m 0 j Hwf) as H.
  unfold allocBuf. destruct (sweep (sweepFuel m) m 0) as [m1 o].
  simpl in H. rewrite H; [eexists; reflexivity|lia|lia|lia|exact Htake|].
  unfold sweepFuel. lia.
Qed.

(** X4.  allocBuf returns whenever some frame of the pool is empty, or is
    unpinned with its reference bit clear.  So when it throws
    BufferExceeded, every frame is valid and is pinned or has its reference
    bit set. *)
Theorem allocBuf_returns_if_takable m :
  well_formed m ->
  (forall i, 0 <= i < numBufs m ->
     valid (desc m i) = false \/
     (refbit (desc m i) = false /\ pinCnt (desc m i) = 0) ->
     exists fr, outcome (allocBuf m) = Returned fr) /\
  (forall e, outcome (allocBuf m) = Thrown e ->
     forall i, 0 <= i < numBufs m ->
       valid (desc m i) = true /\
       (refbit (desc m i) = true \/ pinCnt (desc m i) <> 0)).
Proof.
  intros Hwf. split.
  - intros i Hi Hfree. apply (allocBuf_finds_takable m i Hwf Hi).
    unfold takable. destruct Hfree as [->|[-> ->]]; [reflexivity|].
    apply orb_true_r.
  - intros e He i Hi.
    destruct (takable (desc m i)) eqn:Htake.
    + destruct (allocBuf_finds_takable m i Hwf Hi Htake) as [fr Hfr].
      congruence.
    + unfold takable in Htake. apply orb_false_elim in Htake as [Hv Hrest].
      apply negb_false_iff in Hv. split; [exact Hv|].
      apply andb_false_iff in Hrest as [Hr|Hp].
      * left. apply negb_false_iff in Hr. exact Hr.
      * right. apply Z.eqb_neq in Hp. exact Hp.
Qed.

Lemma allocBuf_returns_if_takable_witness :
  exists fr, outcome (allocBuf (final (unPinPage fileF 3 false pool_full_again))) =
             Returned fr.
Proof.
  set (m := final (unPinPage fileF 3 false pool_full_again)).
  assert (Hwf : well_formed m).
  { apply (reachable_well_formed 3); [exact three_frames|].
    apply reach_unPinPage. exact pool_full_again_reachable. }
  assert (H2 : 0 <= 2 < numBufs m) by (split; [lia|reflexivity]).
  destruct (allocBuf_returns_if_takable m Hwf) as [H _].
  apply (H 2 H2). right. split; reflexivity.
Defined.

(** ** A pinned page stays where it is *)

Lemma allocBuf_keeps_pinned f p t m :
  well_formed m -> consistent m ->
  hashTable m !! (f, p) = Some t -> 0 < pinCnt (desc m t) ->
  hashTable (final (allocBuf m)) !! (f, p) = Some t /\
  bufPool (final (allocBuf m)) = bufPool m /\
  unref (desc (final (allocBuf m)) t) = unref (desc m t) /\
  outcome (allocBuf m) <> Returned t.
Proof.
  intros Hwf Hc Hl Hpin.
  destruct (cons_entry m Hc f p t Hl) as (Ht & Hv & Hf & Hp).
  assert (Hne : outcome (allocBuf m) <> Returned t).
  { intros Ho. destruct (allocBuf_takes_unpinned m t Hwf Ho); [congruence|lia]. }
  split; [|split; [|split; [|exact Hne]]];
    destruct (allocBuf_sweep m Hwf) as (m1 & Hwf1 & Hn & Hpool & Hh & Htab & Hcase);
    destruct Hcase as [[_ He]|[_ He]]; rewrite He in *; simpl in *;
    try congruence.
  - assert (Hfr : clockHand m1 <> t) by congruence.
    destruct (valid (desc m1 (clockHand m1))) eqn:Hv1; [|congruence].
    rewrite Hh. rewrite lookup_delete_ne; [exact Hl|].
    intros Heq.
    destruct (unref_fields _ _ (unref_table_desc m m1 (clockHand m1) Htab))
      as (Hfile & Hpage & _ & _ & _ & Hvalid).
    assert (Hr : 0 <= clockHand m1 < numBufs m) by (destruct Hwf1; lia).
    rewrite Hvalid in Hv1.
    pose proof (cons_valid m Hc _ Hr Hv1) as Hl1.
    rewrite (cons_frameNo m Hc _ Hr), <- Hfile, <- Hpage, Heq, Hl in Hl1.
    congruence.
  - assert (Hfr : clockHand m1 <> t) by congruence.
    rewrite desc_set_desc_ne by (destruct Hwf1; lia).
    exact (unref_table_desc m m1 t Htab).
  - exact (unref_table_desc m m1 t Htab).
Qed.

(** X5.  A pinned page stays where it is.  If (file, pageNo) is resident in
    frame [t] with a positive pin count, then after any readPage, and after
    any allocPage of a page that is not resident, the page table still maps
    it to [t], the pool slot of [t] holds the same page, and the frame is
    still valid and pinned. *)
Theorem pinned_page_stays f p t m :
  well_formed m -> consistent m ->
  hashTable m !! (f, p) = Some t -> 0 < pinCnt (desc m t) ->
  (forall f' p' answer,
     let m' := final (readPage f' p' answer m) in
     hashTable m' !! (f, p) = Some t /\ slot m' t = slot m t /\
     valid (desc m' t) = true /\ 0 < pinCnt (desc m' t)) /\
  (forall f' newPage,
     hashTable m !! (f', page_number newPage) = None ->
     let m' := final (allocPage f' newPage m) in
     hashTable m' !! (f, p) = Some t /\ slot m' t = slot m t /\
     valid (desc m' t) = true /\ 0 < pinCnt (desc m' t)).
Proof.
  intros Hwf Hc Hl Hpin.
  destruct (cons_entry m Hc f p t Hl) as (Ht & Hv & _).
  destruct (allocBuf_keeps_pinned f p t m Hwf Hc Hl Hpin)
    as (Hl1 & Hpool1 & Hd1 & Hne).
  destruct (unref_fields _ _ Hd1) as (_ & _ & _ & Hp1 & _ & Hv1).
  assert (Hmiss : forall f' p' pg, hashTable m !! (f', p') = None ->
    forall fr, outcome (allocBuf m) = Returned fr ->
    let m1 := set_slot (final (allocBuf m)) fr pg in
    let m2 := set_hashTable m1 (<[(f', p') := fr]> (hashTable m1)) in
    let m3 := set_desc m2 fr (Set_ (desc m2 fr) f' p') in
    hashTable m3 !! (f, p) = Some t /\ slot m3 t = slot m t /\
    valid (desc m3 t) = true /\ 0 < pinCnt (desc m3 t)).
  { intros f' p' pg Hnone fr Hfr. cbv zeta.
    assert (Hfrt : fr <> t) by congruence.
    destruct (allocBuf_returned m fr Hwf Hfr)
      as (_ & _ & _ & _ & _ & _ & _ & Hr & _).
    split; [|split].
    - simpl. rewrite lookup_insert_ne by congruence. exact Hl1.
    - unfold slot. simpl.
      rewrite list_lookup_total_insert_ne by lia. rewrite Hpool1. reflexivity.
    - rewrite desc_set_desc_ne by lia.
      change (desc (set_hashTable ?a ?b) t) with (desc (final (allocBuf m)) t).
      rewrite Hv1, Hp1. auto. }
  split.
  - intros f' p' answer. cbv zeta. unfold readPage.
    destruct (hashTable m !! (f', p')) as [t'|] eqn:Hl'; simpl.
    + destruct (cons_entry m Hc f' p' t' Hl') as (Ht' & _).
      split; [exact Hl|]. split; [reflexivity|].
      destruct (decide (t' = t)) as [->|Hne'].
      * rewrite desc_set_desc_eq by (destruct Hwf; lia). simpl. split; [exact Hv|lia].
      * rewrite desc_set_desc_ne by lia. auto.
    + destruct (outcome (allocBuf m)) as [fr|e|] eqn:Ho; simpl.
      * exact (Hmiss f' p' answer Hl' fr eq_refl).
      * unfold slot. rewrite Hpool1, Hv1, Hp1. auto.
      * unfold slot. rewrite Hpool1, Hv1, Hp1. auto.
  - intros f' newPage Hfresh. cbv zeta. unfold allocPage. cbv zeta.
    destruct (outcome (allocBuf m)) as [fr|e|] eqn:Ho; simpl.
    + exact (Hmiss f' _ newPage Hfresh fr eq_refl).
    + unfold slot. rewrite Hpool1, Hv1, Hp1. auto.
    + unfold slot. rewrite Hpool1, Hv1, Hp1. auto.
Qed.

(** Page 2 stays in frame 1 of the full pool, pinned, while page 1 is
    unpinned and its frame given to page 4. *)
Lemma pinned_page_stays_witness :
  let m := final (unPinPage fileF 1 false pool_full) in
  hashTable (final (readPage fileF 4 (page 4) m)) !! (fileF, 2) = Some 1 /\
  slot (final (readPage fileF 4 (page 4) m)) 1 = slot m 1.
Proof.
  cbv zeta. set (m := final (unPinPage fileF 1 false pool_full)).
  assert (Hr : reachable 3 m)
    by (apply reach_unPinPage; exact pool_full_reachable).
  destruct (reachable_well_formed 3 m three_frames Hr) as [Hwf Hc].
  assert (Hp : 0 < pinCnt (desc m 1)) by reflexivity.
  destruct (pinned_page_stays fileF 2 1 m Hwf Hc eq_refl Hp) as [Hread _].
  destruct (Hread fileF 4 (page 4)) as (H1 & H2 & _). auto.
Defined.

(** ** Reading a resident page, and handing the pin back *)

(** X6.  On a resident page, readPage followed by unPinPage(.., false)
    makes no file call and leaves the manager as it was, except that the
    reference bit of the page's frame is now set. *)
Theorem readPage_unPinPage_restores f p answer t m :
  well_formed m -> hashTable m !! (f, p) = Some t -> 0 <= t < numBufs m ->
  0 <= pinCnt (desc m t) ->
  let r1 := readPage f p answer m in
  let r2 := unPinPage f p false (final r1) in
  outcome r1 = Returned t /\ outcome r2 = Returned tt /\
  calls r1 ++ calls r2 = [] /\
  final r2 = set_desc m t (with_refbit (desc m t) true).
Proof.
  intros Hwf Hl Ht Hpin. cbv zeta. unfold readPage. rewrite Hl. cbv zeta.
  cbn [final calls outcome]. unfold unPinPage. cbn [hashTable set_desc].
  rewrite Hl. cbv zeta.
  rewrite desc_set_desc_eq by (destruct Hwf; lia). cbn [pinCnt with_pinCnt].
  replace (pinCnt (with_refbit (desc m t) true) + 1 =? 0) with false
    by (symmetry; apply Z.eqb_neq; simpl; lia).
  cbn [final calls outcome]. repeat (split; [reflexivity|]).
  unfold set_desc. cbn [numBufs bufDescTable bufPool hashTable clockHand].
  rewrite list_insert_insert_eq. f_equal. f_equal.
  destruct (desc m t); unfold with_pinCnt, with_refbit; simpl. f_equal. lia.
Qed.

Lemma readPage_unPinPage_restores_witness :
  final (unPinPage fileF 2 false (final (readPage fileF 2 (page 2) pool_full_again))) =
  set_desc pool_full_again 1 (with_refbit (desc pool_full_again 1) true).
Proof.
  assert (H1 : 0 <= 1 < numBufs pool_full_again) by (split; [lia|reflexivity]).
  assert (Hp : 0 <= pinCnt (desc pool_full_again 1)) by (vm_compute; discriminate).
  destruct (readPage_unPinPage_restores fileF 2 (page 2) 1 pool_full_again
              pool_full_again_well_formed eq_refl H1 Hp) as (_ & _ & _ & H).
  exact H.
Defined.

(** X7.  A page that readPage has returned is resident: the next readPage
    of the same page is a hit on the same frame and calls no file. *)
Theorem readPage_again_hits f p answer fr m :
  well_formed m -> outcome (readPage f p answer m) = Returned fr ->
  forall answer',
    let r2 := readPage f p answer' (final (readPage f p answer m)) in
    hashTable (final (readPage f p answer m)) !! (f, p) = Some fr /\
    outcome r2 = Returned fr /\ calls r2 = [].
Proof.
  intros Hwf Hout answer'. cbv zeta.
  assert (Hl2 : hashTable (final (readPage f p answer m)) !! (f, p) = Some fr).
  { destruct (hashTable m !! (f, p)) as [t|] eqn:Hl.
    - unfold readPage in *. rewrite Hl in *. simpl in *. congruence.
    - assert (Ha : outcome (allocBuf m) = Returned fr).
      { unfold readPage in Hout. rewrite Hl in Hout.
        destruct (outcome (allocBuf m)); simpl in Hout; congruence. }
      destruct (readPage_miss f p answer m fr Hwf Hl Ha) as (_ & _ & _ & Hh & _).
      rewrite Hh. apply lookup_insert_eq. }
  split; [exact Hl2|]. unfold readPage at 1 3. rewrite Hl2. auto.
Qed.

Lemma readPage_again_hits_witness :
  outcome (readPage fileF 7 (page 7)
             (final (readPage fileF 7 (page 7) (BufMgr_new 3)))) = Returned 0.
Proof.
  assert (Hwf : well_formed (BufMgr_new 3))
    by (apply BufMgr_new_well_formed; exact three_frames).
  assert (Ho : outcome (readPage fileF 7 (page 7) (BufMgr_new 3)) = Returned 0)
    by (vm_compute; reflexivity).
  destruct (readPage_again_hits fileF 7 (page 7) 0 (BufMgr_new 3) Hwf Ho (page 7))
    as (_ & H & _).
  exact H.
Defined.

(** X8.  When allocPage returns, it returns the number of the page the file
    allocated and a frame whose pool slot holds that page, with pin count 1;
    a readPage of that page number then hits the same frame and calls no
    file. *)
Theorem allocPage_then_readPage f newPage pn fr m :
  well_formed m -> outcome (allocPage f newPage m) = Returned (pn, fr) ->
  let m' := final (allocPage f newPage m) in
  pn = page_number newPage /\ 0 <= fr < numBufs m /\
  slot m' fr = newPage /\ pinCnt (desc m' fr) = 1 /\
  hashTable m' !! (f, pn) = Some fr /\
  forall answer,
    outcome (readPage f pn answer m') = Returned fr /\
    calls (readPage f pn answer m') = [] /\
    slot (final (readPage f pn answer m')) fr = newPage.
Proof.
  intros Hwf Hout. cbv zeta. unfold allocPage in *. cbv zeta in *.
  destruct (outcome (allocBuf m)) as [fr'|e|] eqn:Ha; simpl in Hout;
    try discriminate.
  injection Hout as <- <-. simpl.
  destruct (allocBuf_returned m fr' Hwf Ha) as (_ & _ & _ & _ & _ & _ & _ & Hr & _).
  destruct (allocBuf_wf m Hwf) as [[_ Hd Hp _] Hn].
  assert (Hs : slot (set_desc (set_hashTable (set_slot (final (allocBuf m)) fr' newPage)
                 (<[(f, page_number newPage) := fr']>
                    (hashTable (final (allocBuf m))))) fr'
                 (Set_ (desc (final (allocBuf m)) fr') f (page_number newPage))) fr'
               = newPage).
  { unfold slot. simpl. apply list_lookup_total_insert_eq. lia. }
  split; [reflexivity|]. split; [exact Hr|]. split; [exact Hs|].
  split; [rewrite desc_set_desc_eq by (simpl; lia); reflexivity|].
  split; [apply lookup_insert_eq|].
  intros answer. unfold readPage. simpl. rewrite lookup_insert_eq. simpl.
  split; [reflexivity|]. split; [reflexivity|]. exact Hs.
Qed.

Lemma allocPage_then_readPage_witness :
  outcome (readPage fileF 10 (page 0)
             (final (allocPage fileF (page 10) (BufMgr_new 3)))) = Returned 0.
Proof.
  assert (Hwf : well_formed (BufMgr_new 3))
    by (apply BufMgr_new_well_formed; exact three_frames).
  assert (Ho : outcome (allocPage fileF (page 10) (BufMgr_new 3)) = Returned (10, 0))
    by (vm_compute; reflexivity).
  destruct (allocPage_then_readPage fileF (page 10) 10 0 (BufMgr_new 3) Hwf Ho)
    as (_ & _ & _ & _ & _ & H).
  exact (proj1 (H (page 0))).
Defined.

(** ** The number of valid frames printSelf reports *)

Lemma validDescs_cons d t :
  validDescs (d :: t) = if valid d then d :: validDescs t else validDescs t.
Proof.
  unfold validDescs. rewrite filter_cons.
  destruct (valid d); [rewrite decide_True by reflexivity|
                       rewrite decide_False by discriminate]; reflexivity.
Qed.

Lemma countValidFrom_count k : forall i m acc,
  0 <= i -> i + Z.of_nat k <= Z.of_nat (length (bufDescTable m)) ->
  Z.of_nat (length (bufDescTable m)) < 2 ^ 32 ->
  countValidFrom k i m acc =
  acc + Z.of_nat (length (validDescs (take k (drop (Z.to_nat i) (bufDescTable m))))).
Proof.
  induction k as [|k IH]; intros i m acc Hi Hk Hlen; simpl countValidFrom.
  - rewrite take_0. simpl. lia.
  - rewrite u32_small by lia. rewrite IH by lia.
    rewrite (drop_S (bufDescTable m) (desc m i) (Z.to_nat i))
      by (apply desc_lookup; lia).
    rewrite firstn_cons, validDescs_cons.
    replace (S (Z.to_nat i)) with (Z.to_nat (i + 1)) by lia.
    destruct (valid (desc m i)); simpl length; lia.
Qed.

Lemma table_NoDup m :
  well_formed m -> consistent m -> NoDup (bufDescTable m).
Proof.
  intros Hwf Hc. apply NoDup_alt. intros i j d Hi Hj.
  pose proof (lookup_lt_Some _ _ _ Hi) as Hli.
  pose proof (lookup_lt_Some _ _ _ Hj) as Hlj.
  assert (Hdi : desc m (Z.of_nat i) = d)
    by (unfold desc; rewrite Nat2Z.id; apply list_lookup_total_correct; exact Hi).
  assert (Hdj : desc m (Z.of_nat j) = d)
    by (unfold desc; rewrite Nat2Z.id; apply list_lookup_total_correct; exact Hj).
  pose proof (cons_frameNo m Hc (Z.of_nat i)) as Hfi.
  pose proof (cons_frameNo m Hc (Z.of_nat j)) as Hfj.
  rewrite Hdi in Hfi. rewrite Hdj in Hfj. destruct Hwf. lia.
Qed.

Lemma elem_of_table m d :
  well_formed m -> d ∈ bufDescTable m ->
  exists i, 0 <= i < numBufs m /\ desc m i = d.
Proof.
  intros Hwf Hd. apply list_elem_of_lookup in Hd as [k Hk].
  pose proof (lookup_lt_Some _ _ _ Hk) as Hlt.
  exists (Z.of_nat k). split; [destruct Hwf; lia|].
  unfold desc. rewrite Nat2Z.id. apply list_lookup_total_correct. exact Hk.
Qed.

Lemma identities_NoDup m :
  well_formed m -> consistent m ->
  NoDup (identity <$> validDescs (bufDescTable m)).
Proof.
  intros Hwf Hc. apply NoDup_fmap_2_strong.
  - intros d d' Hd Hd' Heq.
    apply list_elem_of_filter in Hd as [Hv Hd].
    apply list_elem_of_filter in Hd' as [Hv' Hd'].
    destruct (elem_of_table m d Hwf Hd) as (i & Hi & <-).
    destruct (elem_of_table m d' Hwf Hd') as (j & Hj & <-).
    f_equal. apply (consistent_no_shared_page m Hc i j Hi Hj Hv Hv');
      unfold identity in Heq; congruence.
  - apply NoDup_filter. apply table_NoDup; assumption.
Qed.

Lemma hashTable_size m :
  well_formed m -> consistent m ->
  size (hashTable m) = length (validDescs (bufDescTable m)).
Proof.
  intros Hwf Hc.
  rewrite <- (length_fmap identity (validDescs (bufDescTable m))).
  rewrite <- (size_list_to_set (C := gset (Z * Z)))
    by (apply identities_NoDup; assumption).
  rewrite <- size_dom. f_equal. apply set_eq. intros key.
  rewrite elem_of_dom, elem_of_list_to_set, list_elem_of_fmap. split.
  - intros [i Hl]. destruct key as [f p].
    destruct (cons_entry m Hc f p i Hl) as (Hi & Hv & Hf & Hp).
    exists (desc m i). split; [unfold identity; congruence|].
    apply list_elem_of_filter. split; [exact Hv|].
    apply list_elem_of_lookup. exists (Z.to_nat i).
    apply desc_lookup. destruct Hwf. lia.
  - intros (d & -> & Hd). apply list_elem_of_filter in Hd as [Hv Hd].
    destruct (elem_of_table m d Hwf Hd) as (i & Hi & <-).
    exists (frameNo (desc m i)). exact (cons_valid m Hc i Hi Hv).
Qed.

(** X9.  The number printSelf reports as "Total Number of Valid Frames" is
    the number of entries of the page table, and it is at most numBufs. *)
Theorem printSelf_counts_page_table m :
  well_formed m -> consistent m ->
  printSelf_validFrames m = Z.of_nat (size (hashTable m)) /\
  printSelf_validFrames m <= numBufs m.
Proof.
  intros Hwf Hc.
  assert (Hcount : printSelf_validFrames m =
                   Z.of_nat (length (validDescs (bufDescTable m)))).
  { unfold printSelf_validFrames.
    rewrite countValidFrom_count by (destruct Hwf; lia).
    rewrite drop_0, firstn_all2 by (destruct Hwf; lia). lia. }
  split.
  - rewrite Hcount, hashTable_size by assumption. reflexivity.
  - rewrite Hcount. pose proof (length_filter (fun d => valid d = true) (bufDescTable m)).
    unfold validDescs. destruct Hwf. lia.
Qed.

Lemma printSelf_counts_page_table_witness :
  printSelf_validFrames pool_full = Z.of_nat (size (hashTable pool_full)).
Proof.
  exact (proj1 (printSelf_counts_page_table pool_full pool_full_well_formed
                  pool_full_consistent)).
Defined.

(** ** What the destructor writes *)

Lemma destroyFrom_elem k : forall i m c,
  c ∈ destroyFrom k i m <->
  exists j, i <= j < i + Z.of_nat k /\
    valid (desc m j) = true /\ dirty (desc m j) = true /\
    c = writePage_call (file (desc m j)) (slot m j).
Proof.
  induction k as [|k IH]; intros i m c; simpl destroyFrom.
  - split; [intros H; inversion H|intros (j & Hj & _); lia].
  - rewrite elem_of_app, IH. split.
    + intros [Hhead|(j & Hj & Hrest)].
      * exists i. split; [lia|].
        destruct (valid (desc m i)); [|inversion Hhead].
        destruct (dirty (desc m i)); [|inversion Hhead].
        apply list_elem_of_singleton in Hhead. auto.
      * exists j. split; [lia|exact Hrest].
    + intros (j & Hj & Hv & Hd & ->).
      destruct (decide (j = i)) as [->|Hne].
      * left. rewrite Hv, Hd. apply list_elem_of_singleton. reflexivity.
      * right. exists j. split; [lia|auto].
Qed.

Lemma to_int_small n : 0 < n < 2 ^ 31 -> to_int n = n.
Proof.
  intros H. unfold to_int. rewrite u32_small by lia.
  destruct (n <? 2 ^ 31) eqn:E; [reflexivity|]. apply Z.ltb_ge in E. lia.
Qed.

Lemma drop_cons_inv {A} (l : list A) n x t :
  drop n l = x :: t -> l !! n = Some x /\ drop (S n) l = t.
Proof.
  intros H.
  assert (Hx : l !! n = Some x).
  { pose proof (lookup_drop l n 0) as Hl. rewrite H in Hl. simpl in Hl.
    rewrite Nat.add_0_r in Hl. symmetry. exact Hl. }
  split; [exact Hx|].
  rewrite (drop_S l x n Hx) in H. congruence.
Qed.

Lemma destroyFrom_dirtyWrites t : forall pool i m,
  0 <= i -> length t = length pool ->
  drop (Z.to_nat i) (bufDescTable m) = t ->
  drop (Z.to_nat i) (bufPool m) = pool ->
  destroyFrom (length t) i m = dirtyWrites t pool.
Proof.
  induction t as [|d t IH]; intros pool i m Hi Hlen Ht Hp; [reflexivity|].
  destruct pool as [|pg pool]; [discriminate Hlen|].
  destruct (drop_cons_inv _ _ _ _ Ht) as [Hd Ht'].
  destruct (drop_cons_inv _ _ _ _ Hp) as [Hpg Hp'].
  simpl. unfold desc, slot.
  rewrite (list_lookup_total_correct _ _ _ Hd).
  rewrite (list_lookup_total_correct _ _ _ Hpg).
  f_equal. apply IH.
  - lia.
  - simpl in Hlen. lia.
  - replace (Z.to_nat (i + 1)) with (S (Z.to_nat i)) by lia. exact Ht'.
  - replace (Z.to_nat (i + 1)) with (S (Z.to_nat i)) by lia. exact Hp'.
Qed.

Lemma dirtyWrites_length t : forall pool,
  length t = length pool ->
  length (dirtyWrites t pool) =
  length (filter (fun d => valid d && dirty d = true) t).
Proof.
  induction t as [|d t IH]; intros pool Hlen; [reflexivity|].
  destruct pool as [|pg pool]; [discriminate Hlen|].
  simpl dirtyWrites. rewrite length_app, (IH pool) by (simpl in Hlen; lia).
  rewrite filter_cons. destruct (valid d && dirty d) eqn:E.
  - rewrite decide_True by reflexivity. reflexivity.
  - rewrite decide_False by discriminate. reflexivity.
Qed.

(** X10.  The calls the destructor makes are, in frame order, one writePage
    for each frame that is valid and dirty, pinned or not, of the frame's
    pool slot to the frame's file, and nothing else: the list of its calls
    is [dirtyWrites] of the descriptor table and the pool, it has as many
    entries as there are valid dirty descriptors, and a call is in it
    exactly when it is the writePage of such a frame. *)
Theorem destructor_writes_dirty_frames m :
  well_formed m -> numBufs m < 2 ^ 31 ->
  BufMgr_destroy m = dirtyWrites (bufDescTable m) (bufPool m) /\
  length (BufMgr_destroy m) =
    length (filter (fun d => valid d && dirty d = true) (bufDescTable m)) /\
  (forall c,
     c ∈ BufMgr_destroy m <->
     exists j, 0 <= j < numBufs m /\
       valid (desc m j) = true /\ dirty (desc m j) = true /\
       c = writePage_call (file (desc m j)) (slot m j)).
Proof.
  intros Hwf Hsmall.
  assert (Hlen : length (bufDescTable m) = length (bufPool m))
    by (destruct Hwf; lia).
  assert (Hlist : BufMgr_destroy m = dirtyWrites (bufDescTable m) (bufPool m)).
  { unfold BufMgr_destroy. rewrite to_int_small by (destruct Hwf; lia).
    replace (Z.to_nat (numBufs m)) with (length (bufDescTable m))
      by (destruct Hwf; lia).
    apply destroyFrom_dirtyWrites; [lia|exact Hlen|reflexivity|reflexivity]. }
  split; [exact Hlist|]. split.
  - rewrite Hlist. apply dirtyWrites_length. exact Hlen.
  - intros c. unfold BufMgr_destroy.
    rewrite to_int_small by (destruct Hwf; lia).
    rewrite destroyFrom_elem. rewrite Z2Nat.id by (destruct Hwf; lia).
    reflexivity.
Qed.

(** Page 2 of the full pool is unpinned dirty and read again: pinned and
    dirty, it is written by the destructor, once, and nothing else is. *)
Lemma destructor_writes_dirty_frames_witness :
  let m := final (readPage fileF 2 (page 2)
                   (final (unPinPage fileF 2 true pool_full))) in
  pinCnt (desc m 1) = 1 /\ BufMgr_destroy m = [writePage_call fileF (page 2)].
Proof.
  cbv zeta.
  set (m := final (readPage fileF 2 (page 2)
                    (final (unPinPage fileF 2 true pool_full)))).
  assert (Hr : reachable 3 m).
  { apply reach_readPage, reach_unPinPage. exact pool_full_reachable. }
  destruct (reachable_well_formed 3 m three_frames Hr) as [Hwf _].
  assert (Hsmall : numBufs m < 2 ^ 31) by reflexivity.
  split; [reflexivity|].
  destruct (destructor_writes_dirty_frames m Hwf Hsmall) as (Hlist & _).
  rewrite Hlist. reflexivity.
Defined.

(** ** After a flushFile that returned *)

Lemma flushFrom_nothing k : forall i f m,
  (forall j, i <= j < i + Z.of_nat k -> file (desc m j) <> f) ->
  flushFrom k i f m = mkRun m [] (Returned tt).
Proof.
  induction k as [|k IH]; intros i f m Hno; simpl; [reflexivity|].
  assert (Hf : (file (desc m i) =? f) = false)
    by (apply Z.eqb_neq, Hno; lia).
  unfold flushFrame. rewrite Hf. simpl.
  rewrite IH by (intros j Hj; apply Hno; lia). reflexivity.
Qed.

Lemma flushFile_returned f m :
  well_formed m -> numBufs m < 2 ^ 31 ->
  outcome (flushFile f m) = Returned tt ->
  scanned f m 0 (Z.to_nat (numBufs m)) (Z.to_nat (numBufs m)) (flushFile f m).
Proof.
  intros Hwf Hsmall Hout. unfold flushFile in *.
  rewrite to_int_small in * by (destruct Hwf; lia).
  destruct (flushFrom_scan (Z.to_nat (numBufs m)) 0 f m) as (n & Hn & Hs);
    [lia|destruct Hwf; lia|].
  destruct (scan_end _ _ _ _ _ _ Hs) as [[-> _]|(_ & _ & Hthrown)];
    [exact Hs|congruence].
Qed.

Lemma flushedDesc_file f m s j :
  valid (flushedDesc f m 0 s j) = true -> 0 <= j < s ->
  file (flushedDesc f m 0 s j) <> f.
Proof.
  unfold flushedDesc. intros Hv Hj.
  replace (0 <=? j) with true in * by (symmetry; apply Z.leb_le; lia).
  replace (j <? s) with true in * by (symmetry; apply Z.ltb_lt; lia).
  simpl in *. destruct (file (desc m j) =? f) eqn:Hf; [discriminate|].
  apply Z.eqb_neq. exact Hf.
Qed.

Lemma flushFrom_wf k : forall i f m,
  well_formed m -> well_formed (final (flushFrom k i f m)).
Proof.
  induction k as [|k IH]; intros i f m Hwf; simpl; [exact Hwf|].
  assert (Hwf1 : well_formed (final (flushFrame f i m))).
  { unfold flushFrame. cbv zeta.
    destruct (file (desc m i) =? f); [|exact Hwf].
    destruct (negb (pinCnt (desc m i) =? 0)); [exact Hwf|].
    destruct (negb (valid (desc m i))); [exact Hwf|].
    simpl. auto with bufmgr. }
  destruct (outcome (flushFrame f i m)); simpl; try exact Hwf1.
  apply IH. exact Hwf1.
Qed.

(** X11.  When flushFile(file) returns, no valid frame belongs to the file
    any more, so that the destructor writes nothing to it; if the manager
    was consistent the page table has no entry of the file; and a second
    flushFile of the file (not the null file) returns without a call and
    without changing the manager. *)
Theorem flushFile_empties_the_file f m :
  well_formed m -> numBufs m < 2 ^ 31 ->
  outcome (flushFile f m) = Returned tt ->
  let m' := final (flushFile f m) in
  (forall j, 0 <= j < numBufs m -> valid (desc m' j) = true ->
             file (desc m' j) <> f) /\
  (forall pg, writePage_call f pg ∉ BufMgr_destroy m') /\
  (consistent m -> forall p, hashTable m' !! (f, p) = None) /\
  (f <> NULL -> flushFile f m' = mkRun m' [] (Returned tt)).
Proof.
  intros Hwf Hsmall Hout. cbv zeta.
  pose proof (flushFile_returned f m Hwf Hsmall Hout) as Hs.
  pose proof (scan_numBufs _ _ _ _ _ _ Hs) as Hn.
  pose proof (scan_desc _ _ _ _ _ _ Hs) as Hd.
  assert (HK : 0 + Z.of_nat (Z.to_nat (numBufs m)) = numBufs m)
    by (destruct Hwf; lia).
  rewrite HK in Hd.
  assert (H1 : forall j, 0 <= j < numBufs m ->
             valid (desc (final (flushFile f m)) j) = true ->
             file (desc (final (flushFile f m)) j) <> f).
  { intros j Hj. rewrite Hd by lia. intros Hv.
    apply flushedDesc_file; assumption. }
  split; [exact H1|]. split; [|split].
  - intros pg Hin. unfold BufMgr_destroy in Hin.
    rewrite Hn, to_int_small in Hin by (destruct Hwf; lia).
    apply destroyFrom_elem in Hin as (j & Hj & Hv & _ & Heq).
    injection Heq as Hf _.
    apply (H1 j); [destruct Hwf; lia|exact Hv|congruence].
  - intros Hc p. destruct (flushFile_keeps f m Hwf Hc) as [_ Hc'].
    destruct (hashTable (final (flushFile f m)) !! (f, p)) as [i|] eqn:Hl;
      [|reflexivity].
    destruct (cons_entry _ Hc' f p i Hl) as (Hi & Hv & Hf & _).
    rewrite Hn in Hi. exfalso. exact (H1 i Hi Hv Hf).
  - intros Hnull. unfold flushFile at 1. rewrite Hn.
    rewrite to_int_small by (destruct Hwf; lia).
    apply flushFrom_nothing. intros j Hj. rewrite Hd by lia.
    unfold flushedDesc.
    destruct ((0 <=? j) && (j <? numBufs m) && (file (desc m j) =? f)) eqn:E.
    + simpl. unfold NULL in *. congruence.
    + replace (0 <=? j) with true in E by (symmetry; apply Z.leb_le; lia).
      replace (j <? numBufs m) with true in E
        by (symmetry; apply Z.ltb_lt; destruct Hwf; lia).
      simpl in E. apply Z.eqb_neq. exact E.
Qed.

(** Pages 1, 2 and 3 are unpinned, page 1 dirty; the file is flushed. *)
Lemma flushFile_empties_the_file_witness :
  let m := serveAll [UnPinPage fileF 1 true; UnPinPage fileF 2 false;
                     UnPinPage fileF 3 false] pool_full in
  calls (flushFile fileF m) = [writePage_call fileF (page 1)] /\
  flushFile fileF (final (flushFile fileF m)) =
    mkRun (final (flushFile fileF m)) [] (Returned tt).
Proof.
  cbv zeta.
  set (m := serveAll [UnPinPage fileF 1 true; UnPinPage fileF 2 false;
                      UnPinPage fileF 3 false] pool_full).
  assert (Hr : reachable 3 m).
  { unfold m. simpl. do 3 apply reach_unPinPage. exact pool_full_reachable. }
  destruct (reachable_well_formed 3 m three_frames Hr) as [Hwf _].
  assert (Hsmall : numBufs m < 2 ^ 31) by reflexivity.
  assert (Hout : outcome (flushFile fileF m) = Returned tt)
    by (vm_compute; reflexivity).
  destruct (flushFile_empties_the_file fileF m Hwf Hsmall Hout)
    as (_ & _ & _ & Hagain).
  split; [vm_compute; reflexivity|]. apply Hagain. discriminate.
Defined.

(** X12.  After a flushFile(file) that returned, readPage of a page of the
    file that was resident before the flush misses, gets a frame (allocBuf
    cannot throw: the frame the page left is empty) and ends with a
    readPage call on the file, whose answer goes into the pool slot
    returned. *)
Theorem flushFile_then_readPage f p t m :
  well_formed m -> consistent m -> numBufs m < 2 ^ 31 ->
  outcome (flushFile f m) = Returned tt ->
  hashTable m !! (f, p) = Some t ->
  let m' := final (flushFile f m) in
  hashTable m' !! (f, p) = None /\ valid (desc m' t) = false /\
  forall answer,
    exists fr,
      outcome (readPage f p answer m') = Returned fr /\
      calls (readPage f p answer m') = calls (allocBuf m') ++ [readPage_call f p] /\
      slot (final (readPage f p answer m')) fr = answer.
Proof.
  intros Hwf Hc Hsmall Hout Hl. cbv zeta.
  destruct (cons_entry m Hc f p t Hl) as (Ht & Hv & Hf & Hp).
  pose proof (flushFile_returned f m Hwf Hsmall Hout) as Hs.
  pose proof (scan_numBufs _ _ _ _ _ _ Hs) as Hn.
  assert (HK : 0 + Z.of_nat (Z.to_nat (numBufs m)) = numBufs m)
    by (destruct Hwf; lia).
  assert (Hnone : hashTable (final (flushFile f m)) !! (f, p) = None).
  { rewrite <- Hp. apply (scan_removed _ _ _ _ _ _ Hs); [lia|exact Hf]. }
  assert (Hinv : valid (desc (final (flushFile f m)) t) = false).
  { rewrite (scan_desc _ _ _ _ _ _ Hs) by lia. rewrite HK. unfold flushedDesc.
    replace (0 <=? t) with true by (symmetry; apply Z.leb_le; lia).
    replace (t <? numBufs m) with true by (symmetry; apply Z.ltb_lt; lia).
    apply Z.eqb_eq in Hf. rewrite Hf. reflexivity. }
  split; [exact Hnone|]. split; [exact Hinv|]. intros answer.
  assert (Hwf' : well_formed (final (flushFile f m)))
    by (apply flushFrom_wf; exact Hwf).
  rewrite <- Hn in Ht.
  destruct (allocBuf_finds_invalid _ t Hwf' Ht Hinv) as [fr Hfr].
  exists fr.
  destruct (readPage_miss f p answer _ fr Hwf' Hnone Hfr) as (Ho & Hcalls & Hslot & _).
  auto.
Qed.

Lemma flushFile_then_readPage_witness :
  let m := serveAll [UnPinPage fileF 1 true; UnPinPage fileF 2 false;
                     UnPinPage fileF 3 false] pool_full in
  exists fr, outcome (readPage fileF 2 (page 2) (final (flushFile fileF m))) =
             Returned fr.
Proof.
  cbv zeta.
  set (m := serveAll [UnPinPage fileF 1 true; UnPinPage fileF 2 false;
                      UnPinPage fileF 3 false] pool_full).
  assert (Hr : reachable 3 m).
  { unfold m. simpl. do 3 apply reach_unPinPage. exact pool_full_reachable. }
  destruct (reachable_well_formed 3 m three_frames Hr) as [Hwf Hc].
  assert (Hsmall : numBufs m < 2 ^ 31) by reflexivity.
  assert (Hout : outcome (flushFile fileF m) = Returned tt)
    by (vm_compute; reflexivity).
  destruct (flushFile_then_readPage fileF 2 1 m Hwf Hc Hsmall Hout eq_refl)
    as (_ & _ & H).
  destruct (H (page 2)) as (fr & Ho & _). exists fr. exact Ho.
Defined.

(** ** How readPage fails *)

Lemma sweepStep_refbit m c m' v j :
  sweepStep m c = (m', v) ->
  refbit (desc m' j) = true -> refbit (desc m j) = true.
Proof.
  unfold sweepStep. set (m1 := advanceClock m).
  change (desc m j) with (desc m1 j).
  destruct (negb (valid (desc m1 (clockHand m1)))); [intros [= <- <-]; auto|].
  destruct (refbit (desc m1 (clockHand m1))).
  - intros [= <- <-].
    match goal with
    | |- refbit (desc (set_desc ?a ?b ?d) j) = true -> _ =>
        destruct (desc_set_desc_cases a b d j) as [He|He]; rewrite He
    end; [discriminate|auto].
  - destruct (negb (pinCnt (desc m1 (clockHand m1)) =? 0));
      [|intros [= <- <-]; auto].
    destruct (u32 (c + 1) =? numBufs m1); intros [= <- <-]; auto.
Qed.

Lemma sweep_refbit fuel : forall m c m' o j,
  sweep fuel m c = (m', o) ->
  refbit (desc m' j) = true -> refbit (desc m j) = true.
Proof.
  induction fuel as [|fuel IH]; intros m c m' o j H; simpl in H.
  - injection H as <- <-. auto.
  - destruct (sweepStep m c) as [m1 v] eqn:Hs.
    pose proof (sweepStep_refbit _ _ _ _ j Hs) as H1.
    destruct v as [|c'|]; try (injection H as <- <-; exact H1).
    intros Hb. apply H1. exact (IH _ _ _ _ j H Hb).
Qed.

(** X13.  When readPage ends in BufferExceeded, the page asked for was not
    resident, no call has been made on any file (the exception leaves
    allocBuf's loop, before file->readPage and before any write-back), the
    page table and the pool are as before, and the descriptors differ from
    before at most in reference bits that the sweep has cleared: none is
    set.  What happens when a call on the file fails is not part of this
    statement. *)
Theorem readPage_failure_contract f p answer m :
  well_formed m ->
  outcome (readPage f p answer m) = Thrown BufferExceededException ->
  let r := readPage f p answer m in
  hashTable m !! (f, p) = None /\
  calls r = [] /\ hashTable (final r) = hashTable m /\
  bufPool (final r) = bufPool m /\
  forall j, unref (desc (final r) j) = unref (desc m j) /\
            (refbit (desc (final r) j) = true -> refbit (desc m j) = true).
Proof.
  intros Hwf Hout. cbv zeta. unfold readPage in *.
  destruct (hashTable m !! (f, p)) as [t|] eqn:Hl; [discriminate|].
  destruct (allocBuf_sweep m Hwf) as (m1 & _ & _ & Hp & Hh & Ht & Hcase).
  destruct Hcase as [[_ He]|[Hs He]]; rewrite He in *; simpl in *;
    [discriminate|].
  repeat (split; [reflexivity || assumption|]).
  intros j. split; [exact (unref_table_desc m m1 j Ht)|].
  exact (sweep_refbit _ _ _ _ _ j Hs).
Qed.

Lemma readPage_failure_contract_witness :
  calls (readPage fileF 3 (page 3) pool_of_two) = [] /\
  hashTable (final (readPage fileF 3 (page 3) pool_of_two)) = hashTable pool_of_two.
Proof.
  assert (Hr : reachable 2 pool_of_two).
  { unfold pool_of_two. simpl.
    apply reach_unPinPage, reach_readPage, reach_unPinPage.
    do 3 apply reach_readPage. apply reach_new. }
  assert (H2 : 0 < 2 < 2 ^ 32) by lia.
  destruct (reachable_well_formed 2 pool_of_two H2 Hr) as [Hwf _].
  assert (Ho : outcome (readPage fileF 3 (page 3) pool_of_two) =
               Thrown BufferExceededException) by (vm_compute; reflexivity).
  destruct (readPage_failure_contract fileF 3 (page 3) pool_of_two Hwf Ho)
    as (_ & Hc & Hh & _).
  auto.
Defined.

(** ** A new manager fills its frames in order *)

(** When the frame after the hand is empty, a miss takes it: no page is
    written, nothing is evicted. *)
Lemma readPage_into_empty_next f p answer m :
  well_formed m -> valid (desc m (next m)) = false ->
  hashTable m !! (f, p) = None ->
  let r := readPage f p answer m in
  outcome r = Returned (next m) /\ calls r = [readPage_call f p] /\
  well_formed (final r) /\ numBufs (final r) = numBufs m /\
  clockHand (final r) = next m /\
  hashTable (final r) = <[(f, p) := next m]> (hashTable m) /\
  (forall j, 0 <= j -> j <> next m -> desc (final r) j = desc m j).
Proof.
  intros Hwf Hv Hl. cbv zeta.
  pose proof (next_range m Hwf) as Hr.
  assert (Ha : allocBuf m = evict (set_clockHand m (next m))).
  { unfold allocBuf. destruct (sweepFuel m) as [|k] eqn:Hk.
    - unfold sweepFuel in Hk. destruct Hwf. lia.
    - simpl. rewrite sweepStep_eq by (auto; destruct Hwf; lia).
      cbv zeta. rewrite Hv. reflexivity. }
  unfold readPage. rewrite Hl, Ha. unfold evict. cbv zeta.
  change (clockHand (set_clockHand m (next m))) with (next m).
  change (desc (set_clockHand m (next m)) (next m)) with (desc m (next m)).
  rewrite Hv. cbn [andb outcome calls final app].
  split; [reflexivity|]. split; [reflexivity|].
  split; [auto 10 with bufmgr|]. split; [reflexivity|].
  split; [reflexivity|]. split; [reflexivity|].
  intros j Hj Hne. rewrite desc_set_desc_ne by lia.
  change (desc (set_hashTable ?a ?b) j) with (desc a j).
  change (desc (set_slot ?a ?b ?c) j) with (desc a j).
  rewrite desc_set_desc_ne by lia. reflexivity.
Qed.

Lemma readEach_fills reqs : forall m k,
  well_formed m -> 0 <= k ->
  k + Z.of_nat (length reqs) <= numBufs m ->
  (k < numBufs m -> next m = k) ->
  (forall j, k <= j < numBufs m -> valid (desc m j) = false) ->
  NoDup (fst <$> reqs) ->
  (forall key, key ∈ (fst <$> reqs) -> hashTable m !! key = None) ->
  forall i f p answer, reqs !! i = Some (f, p, answer) ->
    exists r, readEach reqs m !! i = Some r /\
              outcome r = Returned (k + Z.of_nat i) /\
              calls r = [readPage_call f p].
Proof.
  induction reqs as [|[[f0 p0] a0] rest IH];
    intros m k Hwf Hk Hlen Hnext Hinv Hnd Hfresh i f p answer Hi;
    [discriminate|].
  simpl in Hlen. assert (Hkn : k < numBufs m) by lia.
  pose proof (Hnext Hkn) as Hn.
  assert (Hv : valid (desc m (next m)) = false) by (rewrite Hn; apply Hinv; lia).
  assert (Hl : hashTable m !! (f0, p0) = None)
    by (apply Hfresh; simpl; apply list_elem_of_here).
  destruct (readPage_into_empty_next f0 p0 a0 m Hwf Hv Hl)
    as (Ho & Hc & Hwf' & Hnum & Hhand & Hht & Hother).
  rewrite Hn in *. simpl readEach.
  destruct i as [|i].
  - injection Hi as <- <- <-. eexists. split; [reflexivity|].
    rewrite Z.add_0_r. auto.
  - simpl in Hi. rewrite fmap_cons in Hnd. apply NoDup_cons in Hnd as [Hnotin Hnd'].
    destruct (IH (final (readPage f0 p0 a0 m)) (k + 1)) with (i := i) (f := f)
      (p := p) (answer := answer) as (r & Hr & Hor & Hcr); try assumption; try lia.
    + intros Hlt. unfold next. rewrite Hhand, Hnum. apply Z.mod_small. lia.
    + intros j Hj. rewrite Hnum in Hj. rewrite Hother by lia. apply Hinv. lia.
    + intros key Hkey. rewrite Hht. rewrite lookup_insert_ne.
      * apply Hfresh. simpl. apply list_elem_of_further. exact Hkey.
      * intros <-. exact (Hnotin Hkey).
    + exists r. split; [exact Hr|]. split; [|exact Hcr].
      rewrite Hor. f_equal. lia.
Qed.

(** X15.  A new manager fills its frames in order: of up to numBufs
    distinct pages read one after the other, the i-th (from 0) is put in
    frame i, with exactly one call on its file, the readPage; no read fails
    and nothing is evicted or written. *)
Theorem new_manager_fills_in_order bufs reqs :
  0 < bufs < 2 ^ 32 -> NoDup (fst <$> reqs) ->
  Z.of_nat (length reqs) <= bufs ->
  forall i f p answer, reqs !! i = Some (f, p, answer) ->
    exists r, readEach reqs (BufMgr_new bufs) !! i = Some r /\
              outcome r = Returned (Z.of_nat i) /\
              calls r = [readPage_call f p].
Proof.
  intros Hb Hnd Hlen i f p answer Hi.
  destruct (readEach_fills reqs (BufMgr_new bufs) 0) with (i := i) (f := f)
    (p := p) (answer := answer) as (r & Hr & Ho & Hc); try assumption; try lia.
  - apply BufMgr_new_well_formed. exact Hb.
  - intros _. unfold next. simpl. rewrite u32_small by lia.
    replace (bufs - 1 + 1) with (0 + 1 * bufs) by lia.
    rewrite Z_mod_plus_full. apply Z.mod_0_l. lia.
  - intros j Hj. simpl in Hj. rewrite BufMgr_new_desc by lia. reflexivity.
  - intros key _. apply lookup_empty.
  - exists r. auto.
Qed.

Lemma new_manager_fills_in_order_witness :
  exists r, readEach [(fileF, 5, page 5); (fileF, 6, page 6)] (BufMgr_new 3) !! 1%nat
            = Some r /\ outcome r = Returned 1.
Proof.
  assert (Hnd : NoDup (fst <$> [(fileF, 5, page 5); (fileF, 6, page 6)])).
  { simpl. apply NoDup_cons. split.
    - intros H. apply list_elem_of_singleton in H. discriminate.
    - apply NoDup_singleton. }
  assert (Hlen : Z.of_nat (length [(fileF, 5, page 5); (fileF, 6, page 6)]) <= 3)
    by (simpl; lia).
  destruct (new_manager_fills_in_order 3 _ three_frames Hnd Hlen 1%nat
              fileF 6 (page 6) eq_refl) as (r & Hr & Ho & _).
  exists r. auto.
Defined.

(** ** A resident page does not move *)

Lemma flushFrom_pool k : forall i f m,
  bufPool (final (flushFrom k i f m)) = bufPool m /\
  hashTable (final (flushFrom k i f m)) ⊆ hashTable m.
Proof.
  induction k as [|k IH]; intros i f m; simpl; [split; reflexivity|].
  assert (H1 : bufPool (final (flushFrame f i m)) = bufPool m /\
               hashTable (final (flushFrame f i m)) ⊆ hashTable m).
  { unfold flushFrame. cbv zeta.
    destruct (file (desc m i) =? f); [|split; reflexivity].
    destruct (negb (pinCnt (desc m i) =? 0)); [split; reflexivity|].
    destruct (negb (valid (desc m i))); [split; reflexivity|].
    simpl. split; [reflexivity|apply delete_subseteq]. }
  destruct H1 as [Hp Hh].
  destruct (outcome (flushFrame f i m)); simpl; auto.
  destruct (IH (i + 1) f (final (flushFrame f i m))) as [Hp' Hh'].
  split; [congruence|]. etrans; eassumption.
Qed.

Lemma after_keeps o m :
  well_formed m -> consistent m -> admissible o m ->
  well_formed (after o m) /\ consistent (after o m).
Proof.
  intros Hwf Hc Hadm. destruct o; simpl.
  - apply readPage_keeps; assumption.
  - apply unPinPage_keeps; assumption.
  - apply allocPage_keeps; assumption.
  - apply disposePage_keeps; assumption.
  - apply flushFile_keeps; assumption.
Qed.

(** A page moved into the frame allocBuf returned: what became of an entry
    that is there afterwards, and of the other pool slots. *)
Lemma install_entry m f' p' pg fr f p t' :
  well_formed m -> outcome (allocBuf m) = Returned fr ->
  (f', p') <> (f, p) ->
  let m1 := set_slot (final (allocBuf m)) fr pg in
  let m2 := set_hashTable m1 (<[(f', p') := fr]> (hashTable m1)) in
  let m3 := set_desc m2 fr (Set_ (desc m2 fr) f' p') in
  hashTable m3 !! (f, p) = Some t' ->
  hashTable m !! (f, p) = Some t' /\
  (t' <> fr -> 0 <= t' -> slot m3 t' = slot m t').
Proof.
  intros Hwf Hfr Hne. cbv zeta. simpl. intros Hl.
  rewrite lookup_insert_ne in Hl by exact Hne.
  destruct (allocBuf_returned m fr Hwf Hfr)
    as (m1 & Hwf1 & Hn & Hp & Hh & Ht & Hhand & Hr & He).
  rewrite He in *. unfold evict in *. cbv zeta in *. simpl in *.
  split.
  - rewrite <- Hh. destruct (valid (desc m1 (clockHand m1))); [|exact Hl].
    apply lookup_delete_Some in Hl as [_ Hl]. exact Hl.
  - intros Hne' Ht'. unfold slot. simpl.
    rewrite list_lookup_total_insert_ne by lia. rewrite Hp. reflexivity.
Qed.

(** X16.  A resident page does not move and its bytes are not overwritten:
    if the page table maps (file, pageNo) to frame [t] before an operation
    and still has an entry for it afterwards, the entry is still [t] and the
    pool slot of [t] is unchanged.  (The operation is any of the five; a page
    handed out by allocPage is one that was not resident.) *)
Theorem resident_page_never_moves o f p t t' m :
  well_formed m -> consistent m -> admissible o m ->
  hashTable m !! (f, p) = Some t ->
  hashTable (after o m) !! (f, p) = Some t' ->
  t' = t /\ slot (after o m) t = slot m t.
Proof.
  intros Hwf Hc Hadm Hl Hl'.
  destruct (after_keeps o m Hwf Hc Hadm) as [_ Hc'].
  destruct (cons_entry m Hc f p t Hl) as (Ht & _).
  assert (Hmiss : forall f' p' pg fr, hashTable m !! (f', p') = None ->
    outcome (allocBuf m) = Returned fr ->
    let m1 := set_slot (final (allocBuf m)) fr pg in
    let m2 := set_hashTable m1 (<[(f', p') := fr]> (hashTable m1)) in
    let m3 := set_desc m2 fr (Set_ (desc m2 fr) f' p') in
    consistent m3 -> hashTable m3 !! (f, p) = Some t' ->
    t' = t /\ slot m3 t = slot m t).
  { intros f' p' pg fr Hnone Hfr. cbv zeta. intros Hc3 Hl3.
    assert (Hne : (f', p') <> (f, p)) by congruence.
    destruct (install_entry m f' p' pg fr f p t' Hwf Hfr Hne Hl3) as [Hold Hslot].
    assert (t' = t) by congruence. subst t'. split; [reflexivity|].
    apply Hslot; [|lia]. intros ->.
    destruct (cons_entry _ Hc3 f p fr Hl3) as (Hr3 & _ & Hf3 & Hp3).
    simpl in Hr3. rewrite desc_set_desc_eq in Hf3, Hp3
      by (destruct (allocBuf_wf m Hwf) as [[_ Hd _ _] Hn]; simpl; lia).
    simpl in Hf3, Hp3. congruence. }
  assert (Hthrown : outcome (allocBuf m) <> Unfinished /\
            ((forall fr, outcome (allocBuf m) <> Returned fr) ->
             hashTable (final (allocBuf m)) = hashTable m /\
             bufPool (final (allocBuf m)) = bufPool m)).
  { destruct (allocBuf_sweep m Hwf) as (m1 & _ & _ & Hp & Hh & _ & Hcase).
    destruct Hcase as [[_ He]|[_ He]]; rewrite He; simpl.
    - split; [discriminate|]. intros Hne. exfalso.
      apply (Hne (clockHand m1)). reflexivity.
    - split; [discriminate|]. auto. }
  destruct Hthrown as [Hfin Hthrown].
  destruct o as [f' p' a|f' p' b|f' pg|f' p'|f'];
    cbn [after admissible] in Hl', Hc', Hadm |- *.
  - unfold readPage in Hl', Hc' |- *.
    destruct (hashTable m !! (f', p')) as [t0|] eqn:Hl0.
    + simpl in Hl' |- *. split; [congruence|reflexivity].
    + destruct (outcome (allocBuf m)) as [fr|e|] eqn:Ho;
        cbn [final] in Hl', Hc' |- *.
      * exact (Hmiss f' p' a fr Hl0 eq_refl Hc' Hl').
      * destruct Hthrown as [Hh Hp]; [discriminate|].
        unfold slot. rewrite Hp. split; [congruence|reflexivity].
      * congruence.
  - unfold unPinPage in Hl' |- *.
    destruct (hashTable m !! (f', p')) as [t0|] eqn:Hl0.
    + destruct (pinCnt (desc m t0) =? 0); simpl in Hl' |- *;
        (split; [congruence|reflexivity]).
    + simpl in Hl' |- *. split; [congruence|reflexivity].
  - unfold allocPage in Hl', Hc' |- *. cbv zeta in Hl', Hc' |- *.
    destruct (outcome (allocBuf m)) as [fr|e|] eqn:Ho;
      cbn [final] in Hl', Hc' |- *.
    + exact (Hmiss f' _ pg fr Hadm eq_refl Hc' Hl').
    + destruct Hthrown as [Hh Hp]; [discriminate|].
      unfold slot. rewrite Hp. split; [congruence|reflexivity].
    + congruence.
  - unfold disposePage in Hl' |- *. cbn [final] in Hl' |- *.
    destruct (hashTable m !! (f', p')) as [t0|] eqn:Hl0.
    + simpl in Hl' |- *. apply lookup_delete_Some in Hl' as [_ Hl'].
      split; [congruence|reflexivity].
    + split; [congruence|reflexivity].
  - unfold flushFile in Hl' |- *.
    destruct (flushFrom_pool (Z.to_nat (to_int (numBufs m))) 0 f' m) as [Hp Hh].
    pose proof (lookup_weaken _ _ _ _ Hl' Hh) as Hold.
    unfold slot. rewrite Hp. split; [congruence|reflexivity].
Qed.

Lemma resident_page_never_moves_witness :
  let m := final (unPinPage fileF 1 false pool_full) in
  slot (after (OpReadPage fileF 4 (page 4)) m) 1 = slot m 1.
Proof.
  cbv zeta. set (m := final (unPinPage fileF 1 false pool_full)).
  assert (Hr : reachable 3 m)
    by (apply reach_unPinPage; exact pool_full_reachable).
  destruct (reachable_well_formed 3 m three_frames Hr) as [Hwf Hc].
  assert (Hl' : hashTable (after (OpReadPage fileF 4 (page 4)) m) !! (fileF, 2)
                = Some 1) by (vm_compute; reflexivity).
  exact (proj2 (resident_page_never_moves (OpReadPage fileF 4 (page 4))
                  fileF 2 1 1 m Hwf Hc I eq_refl Hl')).
Defined.

(** ** A dirty page is not dropped without a write *)

Lemma desc_set_desc_alias m i d j :
  desc (set_desc m i d) j = d /\ desc m i = desc m j \/
  desc (set_desc m i d) j = desc m j.
Proof.
  unfold desc, set_desc. simpl.
  destruct (decide (Z.to_nat i < length (bufDescTable m))%nat) as [Hlt|Hge].
  - destruct (decide (Z.to_nat i = Z.to_nat j)) as [Heq|Hne].
    + left. rewrite <- Heq. split; [|reflexivity].
      apply list_lookup_total_insert_eq. exact Hlt.
    + right. apply list_lookup_total_insert_ne. exact Hne.
  - right. rewrite list_insert_ge by lia. reflexivity.
Qed.

Lemma allocBuf_dirty m t :
  well_formed m -> 0 <= t < numBufs m ->
  valid (desc m t) = true -> dirty (desc m t) = true ->
  bufPool (final (allocBuf m)) = bufPool m /\
  (unref (desc (final (allocBuf m)) t) = unref (desc m t) /\
   outcome (allocBuf m) <> Returned t \/
   outcome (allocBuf m) = Returned t /\
   writePage_call (file (desc m t)) (slot m t) ∈ calls (allocBuf m)).
Proof.
  intros Hwf Ht Hv Hd.
  destruct (allocBuf_sweep m Hwf) as (m1 & Hwf1 & Hn & Hp & Hh & Htab & Hcase).
  pose proof (unref_table_desc m m1 t Htab) as Hu.
  destruct (unref_fields _ _ Hu) as (Hfile & _ & _ & _ & Hdirty & Hvalid).
  destruct Hcase as [[_ ->]|[_ ->]]; simpl.
  - split; [exact Hp|].
    destruct (decide (clockHand m1 = t)) as [Heq|Hne].
    + right. split; [congruence|]. rewrite Heq, Hvalid, Hdirty, Hv, Hd, Hfile.
      unfold slot. rewrite Hp. apply list_elem_of_here.
    + left. split; [|congruence].
      rewrite desc_set_desc_ne by (destruct Hwf1; lia). exact Hu.
  - split; [exact Hp|]. left. split; [exact Hu|discriminate].
Qed.

Lemma writebacks_elem f m n : forall i j,
  i <= j < i + Z.of_nat n -> file (desc m j) = f -> dirty (desc m j) = true ->
  writePage_call f (slot m j) ∈ writebacks f m i n.
Proof.
  induction n as [|n IH]; intros i j Hj Hf Hd; [lia|].
  simpl. apply elem_of_app. destruct (decide (j = i)) as [->|Hne].
  - left. unfold writeback. apply Z.eqb_eq in Hf. rewrite Hf, Hd.
    apply list_elem_of_here.
  - right. apply IH; [lia|assumption|assumption].
Qed.

(** X17.  A dirty page is not dropped without a write.  If frame [t] holds
    a dirty page, then after readPage, unPinPage, allocPage or flushFile
    either the frame still holds the same page, dirty, with the same bytes,
    or the operation has called writePage with those bytes on the page's
    file.  (disposePage is the exception: it drops the page it deletes.) *)
Theorem dirty_page_written_or_kept o t m :
  well_formed m -> 0 <= t < numBufs m ->
  valid (desc m t) = true -> dirty (desc m t) = true ->
  (forall f p, o <> OpDisposePage f p) ->
  (valid (desc (after o m) t) = true /\ dirty (desc (after o m) t) = true /\
   identity (desc (after o m) t) = identity (desc m t) /\
   slot (after o m) t = slot m t) \/
  writePage_call (file (desc m t)) (slot m t) ∈ callsOf o m.
Proof.
  intros Hwf Ht Hv Hd Hnot.
  destruct (allocBuf_dirty m t Hwf Ht Hv Hd) as [Hpool Halloc].
  assert (Hkeep : forall d', unref d' = unref (desc m t) ->
            valid d' = true /\ dirty d' = true /\
            identity d' = identity (desc m t)).
  { intros d' Hu. destruct (unref_fields _ _ Hu) as (Hf & Hp & _ & _ & Hdd & Hvv).
    unfold identity. rewrite Hf, Hp, Hdd, Hvv. auto. }
  assert (Hmiss : forall f' p' pg fr, outcome (allocBuf m) = Returned fr ->
    let m1 := set_slot (final (allocBuf m)) fr pg in
    let m2 := set_hashTable m1 (<[(f', p') := fr]> (hashTable m1)) in
    let m3 := set_desc m2 fr (Set_ (desc m2 fr) f' p') in
    (valid (desc m3 t) = true /\ dirty (desc m3 t) = true /\
     identity (desc m3 t) = identity (desc m t) /\ slot m3 t = slot m t) \/
    writePage_call (file (desc m t)) (slot m t) ∈ calls (allocBuf m)).
  { intros f' p' pg fr Hfr. cbv zeta.
    destruct Halloc as [[Hu Hne]|[_ Hin]]; [left|right; exact Hin].
    assert (Hfrt : fr <> t) by congruence.
    destruct (allocBuf_returned m fr Hwf Hfr)
      as (_ & _ & _ & _ & _ & _ & _ & Hr & _).
    rewrite desc_set_desc_ne by lia.
    change (desc (set_hashTable ?a ?b) t) with (desc (final (allocBuf m)) t).
    destruct (Hkeep _ Hu) as (? & ? & ?).
    repeat (split; [assumption|]).
    unfold slot. simpl. rewrite list_lookup_total_insert_ne by lia.
    rewrite Hpool. reflexivity. }
  assert (Hfail : (forall fr, outcome (allocBuf m) <> Returned fr) ->
    valid (desc (final (allocBuf m)) t) = true /\
    dirty (desc (final (allocBuf m)) t) = true /\
    identity (desc (final (allocBuf m)) t) = identity (desc m t) /\
    slot (final (allocBuf m)) t = slot m t).
  { intros Hno. destruct Halloc as [[Hu _]|[Ho _]]; [|exfalso; exact (Hno t Ho)].
    destruct (Hkeep _ Hu) as (? & ? & ?).
    repeat (split; [assumption|]). unfold slot. rewrite Hpool. reflexivity. }
  destruct o as [f' p' a|f' p' b|f' pg|f' p'|f']; cbn [after callsOf].
  - unfold readPage. destruct (hashTable m !! (f', p')) as [t0|]; cbn [final calls].
    + left.
      destruct (desc_set_desc_alias m t0
                  (with_pinCnt (with_refbit (desc m t0) true)
                     (pinCnt (with_refbit (desc m t0) true) + 1)) t)
        as [[He Hal]|He]; rewrite He.
      * rewrite <- Hal. unfold identity. simpl. rewrite Hal. auto.
      * auto.
    + destruct (outcome (allocBuf m)) as [fr|e|] eqn:Ho; cbn [final calls].
      * destruct (Hmiss f' p' a fr eq_refl) as [Hk|Hin]; [left; exact Hk|].
        right. apply elem_of_app. left. exact Hin.
      * left. apply Hfail. intros fr. discriminate.
      * left. apply Hfail. intros fr. discriminate.
  - left. unfold unPinPage.
    destruct (hashTable m !! (f', p')) as [t0|]; cbn [final]; [|auto].
    destruct (pinCnt (desc m t0) =? 0); cbn [final]; [auto|].
    match goal with
    | |- context [desc (set_desc m t0 ?d) t] =>
        destruct (desc_set_desc_alias m t0 d t) as [[He Hal]|He]; rewrite He
    end; [|auto].
    unfold identity. rewrite <- Hal in Hv, Hd |- *.
    destruct b; simpl; rewrite ?Hv, ?Hd; auto.
  - unfold allocPage. cbv zeta.
    destruct (outcome (allocBuf m)) as [fr|e|] eqn:Ho; cbn [final calls].
    + destruct (Hmiss f' (page_number pg) pg fr eq_refl) as [Hk|Hin];
        [left; exact Hk|].
      right. apply list_elem_of_further. exact Hin.
    + left. apply Hfail. intros fr. discriminate.
    + left. apply Hfail. intros fr. discriminate.
  - exfalso. exact (Hnot f' p' eq_refl).
  - unfold flushFile.
    destruct (flushFrom_scan (Z.to_nat (to_int (numBufs m))) 0 f' m)
      as (n & Hn & Hs); [lia| |].
    { pose proof (to_int_bound (numBufs m) (wf_numBufs m Hwf)).
      destruct Hwf. lia. }
    rewrite (scan_desc _ _ _ _ _ _ Hs) by lia.
    rewrite (scan_calls _ _ _ _ _ _ Hs).
    unfold slot at 1. rewrite (scan_pool _ _ _ _ _ _ Hs). fold (slot m t).
    unfold flushedDesc.
    destruct ((0 <=? t) && (t <? 0 + Z.of_nat n) && (file (desc m t) =? f')) eqn:E;
      [right|left; auto].
    apply andb_true_iff in E as [E Hf]. apply andb_true_iff in E as [_ E].
    apply Z.ltb_lt in E. apply Z.eqb_eq in Hf. rewrite Hf.
    apply writebacks_elem; [lia|exact Hf|exact Hd].
Qed.

(** Page 1 of the full pool is unpinned dirty; the read of page 4 takes its
    frame and writes it. *)
Lemma dirty_page_written_or_kept_witness :
  let m := final (unPinPage fileF 1 true pool_full) in
  writePage_call fileF (page 1) ∈ callsOf (OpReadPage fileF 4 (page 4)) m.
Proof.
  cbv zeta. set (m := final (unPinPage fileF 1 true pool_full)).
  assert (Hr : reachable 3 m)
    by (apply reach_unPinPage; exact pool_full_reachable).
  destruct (reachable_well_formed 3 m three_frames Hr) as [Hwf _].
  assert (H0 : 0 <= 0 < numBufs m) by (split; [lia|reflexivity]).
  assert (Hnot : forall f p, OpReadPage fileF 4 (page 4) <> OpDisposePage f p)
    by (intros f p; discriminate).
  destruct (dirty_page_written_or_kept (OpReadPage fileF 4 (page 4)) 0 m Hwf H0
              eq_refl eq_refl Hnot) as [(_ & _ & Hid & _)|Hin].
  - vm_compute in Hid. discriminate Hid.
  - exact Hin.
Defined.

(** ** Pins are counted *)

Lemma unPinTimes_count n : forall f p isDirty t m,
  well_formed m -> hashTable m !! (f, p) = Some t -> 0 <= t < numBufs m ->
  Z.of_nat n <= pinCnt (desc m t) ->
  well_formed (unPinTimes n f p isDirty m) /\
  numBufs (unPinTimes n f p isDirty m) = numBufs m /\
  hashTable (unPinTimes n f p isDirty m) = hashTable m /\
  pinCnt (desc (unPinTimes n f p isDirty m) t) = pinCnt (desc m t) - Z.of_nat n.
Proof.
  induction n as [|n IH]; intros f p b t m Hwf Hl Ht Hn; simpl.
  - split; [exact Hwf|]. split; [reflexivity|]. split; [reflexivity|]. lia.
  - assert (Hp : (pinCnt (desc m t) =? 0) = false) by (apply Z.eqb_neq; lia).
    set (d1 := if b
               then with_dirty (with_pinCnt (desc m t) (pinCnt (desc m t) - 1)) true
               else with_pinCnt (desc m t) (pinCnt (desc m t) - 1)).
    assert (Hstep : final (unPinPage f p b m) = set_desc m t d1).
    { unfold unPinPage. rewrite Hl, Hp. reflexivity. }
    rewrite Hstep.
    assert (Hd : pinCnt (desc (set_desc m t d1) t) = pinCnt (desc m t) - 1).
    { rewrite desc_set_desc_eq by (destruct Hwf; lia).
      unfold d1. destruct b; reflexivity. }
    destruct (IH f p b t (set_desc m t d1)) as (H1 & H2 & H3 & H4).
    + apply set_desc_wf. exact Hwf.
    + exact Hl.
    + exact Ht.
    + rewrite Hd. lia.
    + split; [exact H1|]. split; [exact H2|]. split; [exact H3|].
      rewrite H4, Hd. lia.
Qed.

(** X18.  Pins are counted: a resident page with pin count [c] takes exactly
    [c] calls of unPinPage.  Each of the first [c] returns and lowers the
    count by one; after them the count is zero, the page is still resident,
    and one more unPinPage throws PageNotPinned and changes nothing. *)
Theorem unPinPage_as_often_as_pinned c f p isDirty t m :
  well_formed m -> hashTable m !! (f, p) = Some t -> 0 <= t < numBufs m ->
  pinCnt (desc m t) = Z.of_nat c ->
  (forall k, (k < c)%nat ->
     outcome (unPinPage f p isDirty (unPinTimes k f p isDirty m)) = Returned tt /\
     pinCnt (desc (unPinTimes (S k) f p isDirty m) t) = Z.of_nat c - Z.of_nat (S k)) /\
  let m' := unPinTimes c f p isDirty m in
  pinCnt (desc m' t) = 0 /\ hashTable m' !! (f, p) = Some t /\
  unPinPage f p isDirty m' = mkRun m' [] (Thrown (PageNotPinnedException p t)).
Proof.
  intros Hwf Hl Ht Hc. split.
  - intros k Hk.
    destruct (unPinTimes_count k f p isDirty t m Hwf Hl Ht) as (_ & _ & Hh & Hp);
      [lia|].
    destruct (unPinTimes_count (S k) f p isDirty t m Hwf Hl Ht) as (_ & _ & _ & Hp');
      [lia|].
    split; [|rewrite Hp', Hc; reflexivity].
    unfold unPinPage. rewrite Hh, Hl.
    replace (pinCnt (desc (unPinTimes k f p isDirty m) t) =? 0) with false;
      [reflexivity|].
    symmetry. apply Z.eqb_neq. lia.
  - cbv zeta.
    destruct (unPinTimes_count c f p isDirty t m Hwf Hl Ht) as (_ & _ & Hh & Hp);
      [lia|].
    assert (Hz : pinCnt (desc (unPinTimes c f p isDirty m) t) = 0) by lia.
    split; [exact Hz|]. split; [rewrite Hh; exact Hl|].
    unfold unPinPage. rewrite Hh, Hl, Hz. reflexivity.
Qed.

(** Page 1 has been read twice in [pool_full_again]: two unpins, then
    PageNotPinned. *)
Lemma unPinPage_as_often_as_pinned_witness :
  unPinPage fileF 1 false (unPinTimes 2 fileF 1 false pool_full_again) =
  mkRun (unPinTimes 2 fileF 1 false pool_full_again) []
        (Thrown (PageNotPinnedException 1 0)).
Proof.
  assert (H0 : 0 <= 0 < numBufs pool_full_again) by (split; [lia|reflexivity]).
  destruct (unPinPage_as_often_as_pinned 2 fileF 1 false 0 pool_full_again
              pool_full_again_well_formed eq_refl H0 eq_refl) as (_ & _ & _ & H).
  exact H.
Defined.
